(** * App-Informes-calificacion: the package mutation engine

    A shallow embedding of the three mutating passes of the repository
    and of the scanner that feeds them:

    - [src/core/placeholder_engine.py]  ([PlaceholderEngine]),
    - [generar_informe.py]              ([DynamicContentProcessor]),
    - [src/core/image_replacer.py]      ([ImageReplacer]).

    Python values are modelled as the code uses them: [str] as [string],
    [int] as [Z], insertion-ordered [dict]s that the code iterates as
    association lists, [set]s as [gset], the media store (objects reached
    through several relationships) as a [gmap] from part name to part.
    The python-docx / lxml object tree is modelled by records; the few
    library operations the code calls are modelled next to the data they
    act on, each with the behaviour of the library written out.

    Beyond the passes the file covers the report and the preview of
    the engine, the image cache of the replacer with its dimensions,
    and the folder scan. *)

From Stdlib Require Import String Ascii List ZArith Lia Bool.
From stdpp Require Import base gmap sets list strings pretty.

Local Open Scope Z_scope.
Local Open Scope nat_scope.

#[local] Arguments String.append !_ _ : simpl nomatch.

(* ================================================================== *)
(** * Python strings *)
(* ================================================================== *)

Module PyStr.

(** [len(s) == 0] *)
Definition is_empty (s : string) : bool :=
  match s with EmptyString => true | String _ _ => false end.

(** [s.startswith(p)] *)
Fixpoint startswith (p s : string) : bool :=
  match p with
  | EmptyString => true
  | String a p' =>
      match s with
      | EmptyString => false
      | String b s' => if Ascii.eqb a b then startswith p' s' else false
      end
  end.

(** [pat in s] *)
Fixpoint contains (pat s : string) : bool :=
  match s with
  | EmptyString => is_empty pat
  | String _ s' => startswith pat s || contains pat s'
  end.

(** The scan of [s.replace(pat, v)] for a non-empty [pat]: left to
    right, non-overlapping; [skip] counts the characters of the
    occurrence just replaced that are still to be dropped. *)
Fixpoint replace_scan (pat v : string) (skip : nat) (s : string) : string :=
  match s with
  | EmptyString => EmptyString
  | String c s' =>
      match skip with
      | S k => replace_scan pat v k s'
      | O =>
          if startswith pat s
          then v +:+ replace_scan pat v (String.length pat - 1) s'
          else String c (replace_scan pat v 0 s')
      end
  end.

(** [s.replace("", v)]: [v] before every character and at the end. *)
Fixpoint intersperse (v s : string) : string :=
  match s with
  | EmptyString => v
  | String c s' => v +:+ String c (intersperse v s')
  end.

(** [s.replace(pat, v)] *)
Definition replace (pat v s : string) : string :=
  if is_empty pat then intersperse v s else replace_scan pat v 0 s.

(** [sep.join(parts)] *)
Fixpoint join (sep : string) (parts : list string) : string :=
  match parts with
  | [] => EmptyString
  | [x] => x
  | x :: rest => x +:+ sep +:+ join sep rest
  end.

(** [''.join(parts)] *)
Definition concat (parts : list string) : string :=
  fold_right String.append EmptyString parts.

(** [s.split(sep)] for a one-character separator: the fields between
    the separators, at least one field. *)
Fixpoint split_go (sep : ascii) (cur : string) (s : string) : list string :=
  match s with
  | EmptyString => [String.rev cur]
  | String c s' =>
      if Ascii.eqb c sep
      then String.rev cur :: split_go sep EmptyString s'
      else split_go sep (String c cur) s'
  end.

Definition split (sep : ascii) (s : string) : list string :=
  split_go sep EmptyString s.

(** [s.lower()] on the ASCII letters. *)
Definition lower_char (c : ascii) : ascii :=
  let n := nat_of_ascii c in
  if (65 <=? n) && (n <=? 90) then ascii_of_nat (n + 32) else c.

Fixpoint lower (s : string) : string :=
  match s with
  | EmptyString => EmptyString
  | String c s' => String (lower_char c) (lower s')
  end.

(** Decimal digits of [int(s)]. *)
Definition digit_of (c : ascii) : option Z :=
  let n := nat_of_ascii c in
  if (48 <=? n) && (n <=? 57) then Some (Z.of_nat (n - 48)) else None.

Fixpoint digits_go (acc : Z) (s : string) : option Z :=
  match s with
  | EmptyString => Some acc
  | String c s' =>
      match digit_of c with
      | Some d => digits_go (10 * acc + d)%Z s'
      | None => None
      end
  end.

Definition digits (s : string) : option Z :=
  match s with
  | EmptyString => None
  | _ => digits_go 0%Z s
  end.

(** The blanks [int] skips around an ASCII text: space, TAB, LF, VT,
    FF, CR. *)
Definition is_space (c : ascii) : bool :=
  let n := nat_of_ascii c in
  (n =? 32) || ((9 <=? n) && (n <=? 13)).

Fixpoint lstrip (s : string) : string :=
  match s with
  | EmptyString => EmptyString
  | String c s' => if is_space c then lstrip s' else s
  end.

Definition strip (s : string) : string :=
  String.rev (lstrip (String.rev (lstrip s))).

(** Has the text only ASCII characters? *)
Fixpoint is_ascii (s : string) : bool :=
  match s with
  | EmptyString => true
  | String c s' => (nat_of_ascii c <? 128) && is_ascii s'
  end.

(** [int(s)]; [None] stands for [ValueError].  For an ASCII text:
    blanks around, an optional sign, then one or more decimal digits.
    (The code only parses fields produced by [split('_')], so the
    digit-group underscores that [int] also accepts cannot occur.)
    A text with a character outside ASCII can be a number as well:
    [int] takes the decimal digits and the blanks of every script,
    as the Unicode database of the interpreter has them.  The model
    does not fix that database: [unicode_int] is what [int] makes of
    such a text. *)
Definition int (unicode_int : string -> option Z) (s : string) : option Z :=
  if is_ascii s then
    match strip s with
    | String "-"%char s' => Z.opp <$> digits s'
    | String "+"%char s' => digits s'
    | s' => digits s'
    end
  else unicode_int s.

End PyStr.


(* ================================================================== *)
(** * The placeholder pattern *)
(* ================================================================== *)

(** [PLACEHOLDER_PATTERN = r'\{\{([a-zA-Z0-9_]+)\}\}'], compiled once by
    both [PlaceholderEngine] and [DynamicContentProcessor]. *)
Module Pattern.

(** The character class [[a-zA-Z0-9_]]. *)
Definition is_word_char (c : ascii) : bool :=
  let n := nat_of_ascii c in
  ((97 <=? n) && (n <=? 122)) || ((65 <=? n) && (n <=? 90))
  || ((48 <=? n) && (n <=? 57)) || (n =? 95).

(** The greedy [[a-zA-Z0-9_]*]: the longest run of word characters at
    the head of [s], and what follows it. *)
Fixpoint span_word (s : string) : string * string :=
  match s with
  | EmptyString => (EmptyString, EmptyString)
  | String c s' =>
      if is_word_char c
      then let '(w, r) := span_word s' in (String c w, r)
      else (EmptyString, s)
  end.

(** An escaped literal of the pattern ([\{\{], [\}\}]): the text
    after it, when [s] begins with it. *)
Fixpoint literal (lit s : string) : option string :=
  match lit with
  | EmptyString => Some s
  | String a lit' =>
      match s with
      | EmptyString => None
      | String b s' => if Ascii.eqb a b then literal lit' s' else None
      end
  end.

(** [pattern.match(s)]: the captured group and the text after the
    match.  After the greedy run the engine needs the two closing
    braces; giving back word characters cannot help, since a closing
    brace is no word character. *)
Definition match_here (s : string) : option (string * string) :=
  s1 ← literal "{{" s;
  let '(name, s2) := span_word s1 in
  if PyStr.is_empty name then None
  else s3 ← literal "}}" s2; Some (name, s3).

(** [bool(pattern.search(s))] *)
Fixpoint search (s : string) : bool :=
  match match_here s with
  | Some _ => true
  | None =>
      match s with
      | EmptyString => false
      | String _ s' => search s'
      end
  end.

(** The scan of [pattern.findall(s)]: leftmost matches, not
    overlapping; [skip] counts the characters of the last match still
    to be passed over. *)
Fixpoint findall_scan (skip : nat) (s : string) : list string :=
  match s with
  | EmptyString => []
  | String _ s' =>
      match skip with
      | S k => findall_scan k s'
      | O =>
          match match_here s with
          | Some (name, _) => name :: findall_scan (String.length name + 3) s'
          | None => findall_scan 0 s'
          end
      end
  end.

(** [pattern.findall(s)]: the captured names, in order of occurrence. *)
Definition findall (s : string) : list string := findall_scan 0 s.

End Pattern.

(** [f"{{{{{key}}}}}"] *)
Definition token (key : string) : string := "{{" +:+ key +:+ "}}".

(** [f"{{{{{key}.{field}}}}}"] *)
Definition field_token (key field : string) : string :=
  "{{" +:+ key +:+ "." +:+ field +:+ "}}".


(* ================================================================== *)
(** * Exceptions *)
(* ================================================================== *)

(** The exceptions the modelled code can raise.  [MissingData] is the
    [ValueError] of strict substitution and carries the list it prints. *)
Inductive PyExc : Type :=
| MissingData (missing : list string)
| ValueError
| IndexError
| AttributeError
| OSError.

(** A computation that returns or raises. *)
Definition result (A : Type) : Type := (PyExc + A)%type.

Definition raise {A : Type} (e : PyExc) : result A := inl e.

#[global] Instance result_ret : MRet result := fun A x => inr x.
#[global] Instance result_bind : MBind result := fun A B f m =>
  match m with
  | inl e => inl e
  | inr x => f x
  end.

(** [seq[i]] with Python's negative indices. *)
Definition py_index {A : Type} (l : list A) (i : Z) : result A :=
  let n := Z.of_nat (length l) in
  let j := if (i <? 0)%Z then (n + i)%Z else i in
  if (j <? 0)%Z then raise IndexError
  else match l !! Z.to_nat j with
       | Some x => mret x
       | None => raise IndexError
       end.

(** [for x in xs: count += body(x)], where the body may mutate [x]:
    the elements afterwards and the count. *)
Fixpoint for_count {A : Type} (body : A -> A * nat) (xs : list A) : list A * nat :=
  match xs with
  | [] => ([], 0)
  | x :: rest =>
      let '(x', n) := body x in
      let '(rest', m) := for_count body rest in
      (x' :: rest', n + m)
  end.

(* ================================================================== *)
(** * The document object model (python-docx) *)
(* ================================================================== *)

Module Docx.

(** Character formatting carried by a run ([w:rPr]). *)
Record RunFormat : Type := mkRunFormat {
  bold : option bool;
  italic : option bool;
  underline : option bool;
  font_name : option string;
  font_size : option Z;
  color : option string
}.

(** What [add_run] gives a new run: no formatting of its own. *)
Definition no_format : RunFormat :=
  mkRunFormat None None None None None None.

(** The texts a run can be given and gives back as they are: lxml
    refuses to write a control character other than TAB, LF and CR,
    and python-docx reads a CR back as LF.  The text operations below
    are modelled for such texts. *)
Definition xml_char (c : ascii) : bool :=
  let n := nat_of_ascii c in
  (32 <=? n) || (n =? 9) || (n =? 10).

Fixpoint xml_text (s : string) : bool :=
  match s with
  | EmptyString => true
  | String c s' => xml_char c && xml_text s'
  end.

(** A run, by its text and its character formatting.  What else a
    run can hold (a drawing, a page break) is not in the record: the
    drawing elements of a part are listed in [doc_drawings] and
    [hf_drawings], apart from the runs that hold them.  In
    python-docx [run.text = t] and [para.clear()] drop such content
    of the runs they rewrite; the text operations below are
    modelled for the texts and formats they leave, and nothing is
    stated of what they do to drawing elements. *)
Record Run : Type := mkRun {
  run_text : string;
  run_format : RunFormat
}.

Record Paragraph : Type := mkParagraph {
  para_style : string;
  para_alignment : option string;
  para_runs : list Run
}.

(** [para.text] (getter): the run texts, concatenated. *)
Definition para_text (p : Paragraph) : string :=
  PyStr.concat (run_text <$> para_runs p).

(** [run.text = t] *)
Definition run_set_text (t : string) (r : Run) : Run :=
  mkRun t (run_format r).

(** [para.clear()]: the runs go, the paragraph formatting stays. *)
Definition para_clear (p : Paragraph) : Paragraph :=
  mkParagraph (para_style p) (para_alignment p) [].

(** [para.add_run(t)] *)
Definition para_add_run (t : string) (p : Paragraph) : Paragraph :=
  mkParagraph (para_style p) (para_alignment p)
              (para_runs p ++ [mkRun t no_format]).

(** [para.text = t] (setter): [clear()] then [add_run(t)]. *)
Definition para_set_text (t : string) (p : Paragraph) : Paragraph :=
  para_add_run t (para_clear p).

Record Cell : Type := mkCell {
  cell_width : option Z;
  cell_paragraphs : list Paragraph
}.

(** [cell.text]: the paragraph texts joined by a line feed. *)
Definition cell_text (c : Cell) : string :=
  PyStr.join (String "010"%char EmptyString) (para_text <$> cell_paragraphs c).

Record Row : Type := mkRow { row_cells : list Cell }.

(** The children of a [w:tbl] element, in document order: the rows
    ([w:tr]) and the others ([w:tblPr], [w:tblGrid], ...), which the
    schema puts before the rows. *)
Inductive TblChild : Type :=
| TblOther (tag : string)
| Tr (row : Row).

Record Table : Type := mkTable { tbl_children : list TblChild }.

Definition child_row (c : TblChild) : option Row :=
  match c with
  | Tr r => Some r
  | TblOther _ => None
  end.

(** [table.rows], also [tbl.tr_lst]: the [w:tr] children in order. *)
Definition table_rows (t : Table) : list Row :=
  omap child_row (tbl_children t).

(** Assignment through the row handle [table.rows[k]]: the [k]-th
    [w:tr] child becomes [r]. *)
Fixpoint put_row_in (k : nat) (r : Row) (cs : list TblChild) : list TblChild :=
  match cs with
  | [] => []
  | Tr r0 :: cs' =>
      match k with
      | O => Tr r :: cs'
      | S k' => Tr r0 :: put_row_in k' r cs'
      end
  | c :: cs' => c :: put_row_in k r cs'
  end.

Definition put_row (k : nat) (r : Row) (t : Table) : Table :=
  mkTable (put_row_in k r (tbl_children t)).

(** lxml's [parent.insert(i, e)] for an element [e] that is not yet in
    the tree: before the child now at index [i], at the end when there
    is none. *)
Definition lxml_insert_new {A : Type} (i : nat) (e : A) (children : list A) : list A :=
  take i children ++ e :: drop i children.

(** A block of the body. *)
Inductive Block : Type :=
| P (p : Paragraph)
| Tbl (t : Table).

(** A child of [w:body] with the identity of its element: the code
    keeps references to paragraph objects and finds them again with
    [list(parent).index(element)].  The final [w:sectPr] child is left
    out: [add_paragraph] puts a new paragraph before it, and no index
    the code computes reaches it. *)
Definition Elem : Type := (nat * Block)%type.

Definition block_paragraph (b : Block) : option Paragraph :=
  match b with
  | P p => Some p
  | Tbl _ => None
  end.

Definition block_table (b : Block) : option Table :=
  match b with
  | Tbl t => Some t
  | P _ => None
  end.

(** [document.paragraphs]: the paragraphs that are children of the
    body (not those of table cells), in order. *)
Definition paragraphs (body : list Elem) : list Paragraph :=
  omap (fun e => block_paragraph e.2) body.

(** [document.tables]: the tables that are children of the body. *)
Definition tables (body : list Elem) : list Table :=
  omap (fun e => block_table e.2) body.

(** The body after the paragraph objects of [document.paragraphs]
    were mutated into [ps] (same objects, same places). *)
Fixpoint put_paragraphs (ps : list Paragraph) (body : list Elem) : list Elem :=
  match body with
  | [] => []
  | (i, P p) :: body' =>
      match ps with
      | p' :: ps' => (i, P p') :: put_paragraphs ps' body'
      | [] => (i, P p) :: body'
      end
  | e :: body' => e :: put_paragraphs ps body'
  end.

(** The body after the table objects of [document.tables] were
    mutated into [ts]. *)
Fixpoint put_tables (ts : list Table) (body : list Elem) : list Elem :=
  match body with
  | [] => []
  | (i, Tbl t) :: body' =>
      match ts with
      | t' :: ts' => (i, Tbl t') :: put_tables ts' body'
      | [] => (i, Tbl t) :: body'
      end
  | e :: body' => e :: put_tables ts body'
  end.

(** A drawing element ([w:drawing]) and what it stores itself: the
    relationship it embeds, inline or anchored, its extent, and for
    an anchor its offset and wrapping. *)
Record Drawing : Type := mkDrawing {
  drawing_embed : string;
  drawing_is_inline : bool;
  drawing_extent : option (Z * Z);
  drawing_offset : option (Z * Z);
  drawing_wrap : option string
}.

(** A relationship of a part.  [target_part] names the part object in
    the package: relationships of several parts may reach the same
    image part. *)
Record Rel : Type := mkRel {
  reltype : string;
  target_ref : string;
  target_part : string
}.

(** An image part of the package. *)
Record ImagePart : Type := mkImagePart {
  blob : string;
  content_type : string
}.

(** A header or footer part: its name in the package, its paragraphs,
    its own relationships in insertion order, its drawing elements.
    The name tells the part object: sections whose headers are
    linked hold one and the same part. *)
Record HeaderFooter : Type := mkHeaderFooter {
  hf_part : string;
  hf_paragraphs : list Paragraph;
  hf_rels : list (string * Rel);
  hf_drawings : list Drawing
}.

(** A section, with the header and the footer python-docx finds for
    it: the part of its own or, when it has none, the part of the
    nearest section before that has one, which several sections
    then share.  [None]: neither the section nor a section before it
    has such a part yet.  [section.header] is an object in every
    case, so the code's [if section.header:] is always entered, and
    python-docx makes an empty part as soon as the content or the
    relationships of a header that is not there are asked for
    ([_get_or_add_definition]); [materialize] below is that step.
    The part made has one paragraph without text and no
    relationships, so the loops that only read find nothing in it:
    where a loop is modelled by its result alone, [None] is passed
    over. *)
Record Section : Type := mkSection {
  header : option HeaderFooter;
  footer : option HeaderFooter
}.

Record Document : Type := mkDocument {
  doc_body : list Elem;
  doc_sections : list Section;
  doc_rels : list (string * Rel);
  doc_drawings : list Drawing;
  doc_media : gmap string ImagePart
}.

Definition with_body (body : list Elem) (d : Document) : Document :=
  mkDocument body (doc_sections d) (doc_rels d) (doc_drawings d) (doc_media d).

Definition with_sections (ss : list Section) (d : Document) : Document :=
  mkDocument (doc_body d) ss (doc_rels d) (doc_drawings d) (doc_media d).

Definition with_media (m : gmap string ImagePart) (d : Document) : Document :=
  mkDocument (doc_body d) (doc_sections d) (doc_rels d) (doc_drawings d) m.

(** The header and footer parts of the sections, in the order the
    loops over the sections come to them. *)
Definition section_parts (s : Section) : list HeaderFooter :=
  match header s with Some h => [h] | None => [] end
  ++ match footer s with Some f => [f] | None => [] end.

Definition doc_parts (d : Document) : list HeaderFooter :=
  doc_sections d ≫= section_parts.

(** The names of the parts of the package the model holds. *)
Definition part_names (d : Document) : list string :=
  (target_part <$> (doc_rels d).*2)
  ++ (doc_parts d ≫= fun h => hf_part h :: (target_part <$> (hf_rels h).*2))
  ++ elements (dom (doc_media d)).

(** [Relationships._next_rId]: the first of [rId1], [rId2], ... that
    is no key yet. *)
Definition next_rId (rels : list (string * Rel)) : string :=
  default "rId1"
          (head (filter (fun rid => rid ∉ rels.*1)
                        ((fun n => "rId" +:+ pretty n) <$> seq 1 (S (length rels))))).

(** [OpcPackage.next_partname("/word/<kind>%d.xml")]: the first number
    that gives a name no part has. *)
Definition next_part_number (kind : string) (names : list string) : nat :=
  default 1
          (head (filter (fun n => "/word/" +:+ kind +:+ pretty n +:+ ".xml" ∉ names)
                        (seq 1 (S (length names))))).

Definition header_rel_type : string :=
  "http://schemas.openxmlformats.org/officeDocument/2006/relationships/header".
Definition footer_rel_type : string :=
  "http://schemas.openxmlformats.org/officeDocument/2006/relationships/footer".

(** The part [HeaderPart.new] or [FooterPart.new] makes from the
    default template: one paragraph of the style, without a run. *)
Definition default_part (style name : string) : HeaderFooter :=
  mkHeaderFooter name [mkParagraph style None []] [] [].

(** [_add_definition] for the headers: when a section has none, a
    new part is made for the first section and related to the
    document part, and the sections without a header, which are
    linked to it, all hold it. *)
Definition add_headers (d : Document) : Document :=
  if forallb (fun s => bool_decide (is_Some (header s))) (doc_sections d) then d
  else
    let n := next_part_number "header" (part_names d) in
    let part := default_part "Header" ("/word/header" +:+ pretty n +:+ ".xml") in
    mkDocument (doc_body d)
               ((fun s => mkSection (Some (default part (header s))) (footer s))
                  <$> doc_sections d)
               (doc_rels d
                ++ [(next_rId (doc_rels d),
                     mkRel header_rel_type ("header" +:+ pretty n +:+ ".xml") (hf_part part))])
               (doc_drawings d) (doc_media d).

Definition add_footers (d : Document) : Document :=
  if forallb (fun s => bool_decide (is_Some (footer s))) (doc_sections d) then d
  else
    let n := next_part_number "footer" (part_names d) in
    let part := default_part "Footer" ("/word/footer" +:+ pretty n +:+ ".xml") in
    mkDocument (doc_body d)
               ((fun s => mkSection (header s) (Some (default part (footer s))))
                  <$> doc_sections d)
               (doc_rels d
                ++ [(next_rId (doc_rels d),
                     mkRel footer_rel_type ("footer" +:+ pretty n +:+ ".xml") (hf_part part))])
               (doc_drawings d) (doc_media d).

(** The document after a loop over the sections has asked every
    header and footer for its paragraphs or relationships: the
    parts that were not there are made, the rest is as it was. *)
Definition materialize (d : Document) : Document :=
  add_footers (add_headers d).

(** ** Element identity in the body *)

(** [list(parent).index(element)]; [None] stands for [ValueError]. *)
Fixpoint index_of (id : nat) (children : list Elem) : option nat :=
  match children with
  | [] => None
  | (i, _) :: rest =>
      if Nat.eqb i id then Some 0 else S <$> index_of id rest
  end.

(** The paragraph object with identity [id]. *)
Fixpoint get_paragraph (id : nat) (children : list Elem) : option Paragraph :=
  match children with
  | [] => None
  | (i, b) :: rest =>
      if Nat.eqb i id then block_paragraph b else get_paragraph id rest
  end.

(** Mutation of the paragraph object with identity [id]. *)
Fixpoint set_paragraph (id : nat) (p : Paragraph) (children : list Elem) : list Elem :=
  match children with
  | [] => []
  | (i, b) :: rest =>
      if Nat.eqb i id then (i, P p) :: rest
      else (i, b) :: set_paragraph id p rest
  end.

(** An identity no element of the body has. *)
Definition fresh_id (children : list Elem) : nat :=
  S (foldr Nat.max 0 (children.*1)).

(** [document.add_paragraph(text)]: a new paragraph of the default
    style holding one run, appended after the last block of the
    body. *)
Definition default_style : string := "Normal".

Definition add_paragraph (text : string) (children : list Elem) : list Elem * nat :=
  let id := fresh_id children in
  (children ++ [(id, P (mkParagraph default_style None [mkRun text no_format]))], id).

Fixpoint remove_id (id : nat) (children : list Elem) : list Elem :=
  match children with
  | [] => []
  | (i, b) :: rest =>
      if Nat.eqb i id then rest else (i, b) :: remove_id id rest
  end.

Fixpoint insert_before (ref : nat) (e : Elem) (children : list Elem) : list Elem :=
  match children with
  | [] => [e]
  | (i, b) :: rest =>
      if Nat.eqb i ref then e :: (i, b) :: rest
      else (i, b) :: insert_before ref e rest
  end.

(** lxml's [parent.insert(i, e)] for an element [e] that is a child of
    [parent] already (lxml moves it): the child at index [i] is
    looked up first; with none there [e] moves to the end; when it is
    [e] itself nothing moves; otherwise [e] is unlinked and linked
    again just before that child. *)
Definition lxml_insert (i : nat) (e : Elem) (children : list Elem) : list Elem :=
  match children !! i with
  | None => remove_id e.1 children ++ [e]
  | Some c =>
      if Nat.eqb c.1 e.1 then children
      else insert_before c.1 e (remove_id e.1 children)
  end.

Fixpoint get_elem (id : nat) (children : list Elem) : option Elem :=
  match children with
  | [] => None
  | (i, b) :: rest =>
      if Nat.eqb i id then Some (i, b) else get_elem id rest
  end.

End Docx.

(* ================================================================== *)
(** * [PlaceholderEngine] (src/core/placeholder_engine.py) *)
(* ================================================================== *)

Module PlaceholderEngine.
Import Docx.

(** The loop body shared by every location of [find_all_placeholders]:
    [placeholders.update(self.pattern.findall(para.text))]. *)
Definition scan_paragraphs (ps : list Paragraph) (placeholders : gset string)
  : gset string :=
  foldl (fun acc para => acc ∪ list_to_set (Pattern.findall (para_text para)))
        placeholders ps.

Definition scan_table (t : Table) (placeholders : gset string) : gset string :=
  foldl (fun acc row =>
           foldl (fun acc cell => scan_paragraphs (cell_paragraphs cell) acc)
                 acc (row_cells row))
        placeholders (table_rows t).

Definition scan_section (s : Section) (placeholders : gset string) : gset string :=
  let after_header :=
    match header s with
    | Some h => scan_paragraphs (hf_paragraphs h) placeholders
    | None => placeholders
    end in
  match footer s with
  | Some f => scan_paragraphs (hf_paragraphs f) after_header
  | None => after_header
  end.

(** [find_all_placeholders]: body paragraphs, then tables, then the
    header and footer of every section. *)
Definition find_all_placeholders (d : Document) : gset string :=
  let in_body := scan_paragraphs (paragraphs (doc_body d)) ∅ in
  let in_tables := foldl (fun acc t => scan_table t acc) in_body (tables (doc_body d)) in
  foldl (fun acc s => scan_section s acc) in_tables (doc_sections d).

(** The result of [validate_data]: the dict with its two lists. *)
Record Validation : Type := mkValidation {
  missing : list string;
  unused : list string
}.

(** [validate_data] *)
Definition validate_data (d : Document) (data : list (string * string)) : Validation :=
  let found_placeholders := find_all_placeholders d in
  let provided_keys : gset string := list_to_set (data.*1) in
  mkValidation (elements (found_placeholders ∖ provided_keys))
               (elements (provided_keys ∖ found_placeholders)).

(** The inner loop of [_replace_in_runs] and of the non-preserving
    branch of [_replace_in_paragraphs]:
    [for key, value in data.items(): if placeholder in new_text: ...]. *)
Fixpoint substitute (data : list (string * string)) (new_text : string) (count : nat)
  : string * nat :=
  match data with
  | [] => (new_text, count)
  | (key, value) :: rest =>
      let placeholder := token key in
      if PyStr.contains placeholder new_text
      then substitute rest (PyStr.replace placeholder value new_text) (S count)
      else substitute rest new_text count
  end.

(** The body of the loop of [_replace_in_runs]: the run afterwards
    and what it adds to [count]. *)
Definition replace_in_run (data : list (string * string)) (run : Run) : Run * nat :=
  if negb (Pattern.search (run_text run)) then (run, 0)
  else
    let '(new_text, n) := substitute data (run_text run) 0 in
    (run_set_text new_text run, n).

(** [_replace_in_runs] *)
Definition _replace_in_runs (para : Paragraph) (data : list (string * string))
  : Paragraph * nat :=
  let '(runs, count) := for_count (replace_in_run data) (para_runs para) in
  (mkParagraph (para_style para) (para_alignment para) runs, count).

(** The body of the loop of [_replace_in_paragraphs]. *)
Definition replace_in_paragraph (data : list (string * string)) (preserve_format : bool)
           (para : Paragraph) : Paragraph * nat :=
  if negb (Pattern.search (para_text para)) then (para, 0)
  else if preserve_format then _replace_in_runs para data
  else
    let '(new_text, n) := substitute data (para_text para) 0 in
    (para_set_text new_text para, n).

(** [_replace_in_paragraphs] *)
Definition _replace_in_paragraphs (ps : list Paragraph) (data : list (string * string))
           (preserve_format : bool) : list Paragraph * nat :=
  for_count (replace_in_paragraph data preserve_format) ps.

Definition replace_in_cell (data : list (string * string)) (preserve_format : bool)
           (c : Cell) : Cell * nat :=
  let '(ps, n) := _replace_in_paragraphs (cell_paragraphs c) data preserve_format in
  (mkCell (cell_width c) ps, n).

Definition replace_in_row (data : list (string * string)) (preserve_format : bool)
           (row : Row) : Row * nat :=
  let '(cells, n) := for_count (replace_in_cell data preserve_format) (row_cells row) in
  (mkRow cells, n).

Definition replace_in_child (data : list (string * string)) (preserve_format : bool)
           (c : TblChild) : TblChild * nat :=
  match c with
  | Tr row => let '(row', n) := replace_in_row data preserve_format row in (Tr row', n)
  | TblOther _ => (c, 0)
  end.

(** [_replace_in_table]: every cell of every row. *)
Definition _replace_in_table (t : Table) (data : list (string * string))
           (preserve_format : bool) : Table * nat :=
  let '(cs, n) := for_count (replace_in_child data preserve_format) (tbl_children t) in
  (mkTable cs, n).

(** [_replace_in_paragraphs] on the paragraphs of a header or footer
    part. *)
Definition replace_in_part (data : list (string * string)) (preserve_format : bool)
           (h : HeaderFooter) : HeaderFooter * nat :=
  let '(ps, n) := _replace_in_paragraphs (hf_paragraphs h) data preserve_format in
  (mkHeaderFooter (hf_part h) ps (hf_rels h) (hf_drawings h), n).

(** The part a section holds, as the loop over the sections finds
    it: a part that a section before holds too is the object that
    section left, [done] telling the parts rewritten so far. *)
Definition current (done : gmap string HeaderFooter) (h : HeaderFooter) : HeaderFooter :=
  default h (done !! hf_part h).

(** [if section.header: total_replacements += _replace_in_paragraphs(...)],
    and the same for the footer: the parts rewritten and the count. *)
Definition visit_part (data : list (string * string)) (preserve_format : bool)
           (st : gmap string HeaderFooter * nat) (h : HeaderFooter)
  : gmap string HeaderFooter * nat :=
  let '(h', n) := replace_in_part data preserve_format (current st.1 h) in
  (<[hf_part h := h']> st.1, st.2 + n).

(** The loop of [replace_all] over the sections. *)
Definition replace_in_sections (data : list (string * string)) (preserve_format : bool)
           (sections : list Section) : list Section * nat :=
  let '(done, n) :=
    foldl (visit_part data preserve_format) (∅, 0) (sections ≫= section_parts) in
  ((fun s => mkSection (current done <$> header s) (current done <$> footer s))
     <$> sections, n).

(** [replace_all]: the document afterwards, and the count returned or
    the exception raised.  [validate_data] comes first, and its scan
    has asked every header and footer for its paragraphs. *)
Definition replace_all (d : Document) (data : list (string * string))
           (strict preserve_format : bool) : Document * result nat :=
  let validation := validate_data d data in
  let d := materialize d in
  if strict && negb (bool_decide (missing validation = []))
  then (d, raise (MissingData (missing validation)))
  else
    let '(ps, n_body) :=
      _replace_in_paragraphs (paragraphs (doc_body d)) data preserve_format in
    let body1 := put_paragraphs ps (doc_body d) in
    let '(ts, n_tables) :=
      for_count (fun t => _replace_in_table t data preserve_format) (tables body1) in
    let body2 := put_tables ts body1 in
    let '(ss, n_sections) :=
      replace_in_sections data preserve_format (doc_sections d) in
    (with_sections ss (with_body body2 d), mret (n_body + n_tables + n_sections)).

End PlaceholderEngine.

(* ================================================================== *)
(** * [DynamicContentProcessor] (generar_informe.py) *)
(* ================================================================== *)

Module DynamicContentProcessor.
Import Docx.

(** An element of an array of the payload: a string or a flat object
    with string values, its fields in insertion order. *)
Inductive Item : Type :=
| IStr (s : string)
| IDict (fields : list (string * string)).

(** A value of the payload ([Dict[str, Any]]): a scalar, given by its
    [str()], or an array. *)
Inductive Value : Type :=
| VStr (s : string)
| VList (items : list Item).

(** [str(d)] of a dict: [{'k': 'v', ...}].  (Exact for keys and values
    that [repr] prints between single quotes without escapes.) *)
Definition dict_repr (fields : list (string * string)) : string :=
  "{" +:+ PyStr.join ", " ((fun kv => "'" +:+ kv.1 +:+ "': '" +:+ kv.2 +:+ "'") <$> fields)
      +:+ "}".

(** [str(item)] *)
Definition str (i : Item) : string :=
  match i with
  | IStr s => s
  | IDict fields => dict_repr fields
  end.

(** The bullet marker [U+2022] followed by a space, as in [f"• {text}"]. *)
Definition bullet (text : string) : string := "• " +:+ text.

(** An entry of [paragraphs_to_process]: [(idx, para, key, value)],
    the paragraph object being given by the identity of its element. *)
Record Site : Type := mkSite {
  site_idx : nat;
  site_para : nat;
  site_key : string;
  site_items : list Item
}.

(** The inner loop of the search: the entries one paragraph adds. *)
Fixpoint sites_of_paragraph (idx id : nat) (text : string) (data : list (string * Value))
  : list Site :=
  match data with
  | [] => []
  | (key, VList items) :: rest =>
      if PyStr.contains (token key) text
      then mkSite idx id key items :: sites_of_paragraph idx id text rest
      else sites_of_paragraph idx id text rest
  | (_, VStr _) :: rest => sites_of_paragraph idx id text rest
  end.

(** The search loop over [enumerate(self.document.paragraphs)]. *)
Fixpoint find_sites (idx : nat) (body : list Elem) (data : list (string * Value))
  : list Site :=
  match body with
  | [] => []
  | (id, P para) :: rest =>
      sites_of_paragraph idx id (para_text para) data ++ find_sites (S idx) rest data
  | (_, Tbl _) :: rest => find_sites idx rest data
  end.

(** [_create_bullet_paragraph]: [add_paragraph] appends the new
    paragraph to the body, then it takes the style handed over. *)
Definition _create_bullet_paragraph (text : string) (style : string)
           (body : list Elem) : list Elem * Elem :=
  let '(body', id) := add_paragraph (bullet text) body in
  let new_para := mkParagraph style None [mkRun (bullet text) no_format] in
  (set_paragraph id new_para body', (id, P new_para)).

(** The loop [for item in items[1:]] of [expand_dynamic_lists]. *)
Fixpoint insert_items (items : list Item) (style : string) (para_index : nat)
         (body : list Elem) : list Elem :=
  match items with
  | [] => body
  | item :: rest =>
      let '(body', new_para) := _create_bullet_paragraph (str item) style body in
      let body'' := lxml_insert (para_index + 1) new_para body' in
      insert_items rest style (para_index + 1) body''
  end.

(** One turn of the processing loop of [expand_dynamic_lists]. *)
Definition expand_site (s : Site) (st : list Elem * nat) : result (list Elem * nat) :=
  let '(body, count) := st in
  match get_paragraph (site_para s) body with
  | None => raise AttributeError
  | Some para =>
      match site_items s with
      | [] =>
          let text := PyStr.replace (token (site_key s)) "" (para_text para) in
          mret (set_paragraph (site_para s) (para_set_text text para) body, count)
      | first :: others =>
          let original_style := para_style para in
          let first_item := str first in
          let para' := para_add_run (bullet first_item) (para_clear para) in
          let body' := set_paragraph (site_para s) para' body in
          match index_of (site_para s) body' with
          | None => raise ValueError
          | Some para_index =>
              mret (insert_items others original_style para_index body', S count)
          end
      end
  end.

(** The processing loop, over [reversed(paragraphs_to_process)]. *)
Fixpoint expand_sites (sites : list Site) (st : list Elem * nat)
  : result (list Elem * nat) :=
  match sites with
  | [] => mret st
  | s :: rest => st' ← expand_site s st; expand_sites rest st'
  end.

(** [expand_dynamic_lists] *)
Definition expand_dynamic_lists (d : Document) (data : list (string * Value))
  : result (Document * nat) :=
  let paragraphs_to_process := find_sites 0 (doc_body d) data in
  '(body, count) ← expand_sites (rev paragraphs_to_process) (doc_body d, 0);
  mret (with_body body d, count).

(** [_fill_row_with_data] on one cell: the text computed from the
    template text, put as the only run of the first paragraph. *)
Fixpoint fill_text (key : string) (row_data : list (string * string)) (new_text : string)
  : string :=
  match row_data with
  | [] => new_text
  | (field, value) :: rest =>
      let t1 := PyStr.replace (field_token key field) value new_text in
      let t2 := PyStr.replace (token field) value t1 in
      fill_text key rest t2
  end.

Definition fill_cell (new_text : string) (c : Cell) : Cell :=
  match cell_paragraphs c with
  | [] => c
  | para :: rest => mkCell (cell_width c) (para_add_run new_text (para_clear para) :: rest)
  end.

(** The loop of [_fill_row_with_data] over [enumerate(row.cells)];
    [row_data.items()] raises on an element that is no dict. *)
Fixpoint fill_cells (cells : list Cell) (cell_formats : list (string * option Z))
         (row_data : Item) (key : string) : result (list Cell) :=
  match cells with
  | [] => mret []
  | cell :: rest =>
      match cell_formats with
      | [] => mret (cell :: rest)
      | (template_text, _) :: formats =>
          match row_data with
          | IStr _ => raise AttributeError
          | IDict fields =>
              rest' ← fill_cells rest formats row_data key;
              mret (fill_cell (fill_text key fields template_text) cell :: rest')
          end
      end
  end.

(** [_fill_row_with_data] *)
Definition _fill_row_with_data (row : Row) (cell_formats : list (string * option Z))
           (row_data : Item) (key : string) : result Row :=
  cells ← fill_cells (row_cells row) cell_formats row_data key;
  mret (mkRow cells).

(** [_add_table_row]: the table afterwards and the index in
    [table.rows] of the row handed back. *)
Definition _add_table_row (table : Table) (position : nat) : result (Table * nat) :=
  let tr_lst := table_rows table in
  match tr_lst !! (match position with O => 0 | S k => k end) with
  | None => raise IndexError
  | Some tr =>
      let new_tr := tr in
      let table' := mkTable (lxml_insert_new position (Tr new_tr) (tbl_children table)) in
      match table_rows table' !! position with
      | None => raise IndexError
      | Some _ => mret (table', position)
      end
  end.

(** The loop [for row_data in rows_data[1:]] of [_expand_table_rows]. *)
Fixpoint add_rows (rows_data : list Item) (template_row_idx : nat)
         (cell_formats : list (string * option Z)) (key : string) (table : Table)
  : result Table :=
  match rows_data with
  | [] => mret table
  | row_data :: rest =>
      '(table', k) ← _add_table_row table (template_row_idx + 1);
      match table_rows table' !! k with
      | None => raise IndexError
      | Some new_row =>
          filled ← _fill_row_with_data new_row cell_formats row_data key;
          add_rows rest template_row_idx cell_formats key (put_row k filled table')
      end
  end.

(** [_expand_table_rows] *)
Definition _expand_table_rows (table : Table) (template_row_idx : nat)
           (rows_data : list Item) (key : string) : result Table :=
  match rows_data with
  | [] => mret table
  | first :: others =>
      match table_rows table !! template_row_idx with
      | None => raise IndexError
      | Some template_row =>
          let cell_formats :=
            (fun cell => (cell_text cell, cell_width cell)) <$> row_cells template_row in
          filled ← _fill_row_with_data template_row cell_formats first key;
          add_rows others template_row_idx cell_formats key
                   (put_row template_row_idx filled table)
      end
  end.

(** Does some cell of the row reference the array [key], by its bare
    token or by a token of a field of the first element? *)
Definition cell_references (key : string) (fields : list (string * string)) (c : Cell)
  : bool :=
  PyStr.contains (token key) (cell_text c)
  || existsb (fun field => PyStr.contains (field_token key field) (cell_text c))
             (fields.*1).

(** The loop over [data.items()] for one row: each array of objects
    that some cell references overwrites the template found so far. *)
Fixpoint match_row (row : Row) (data : list (string * Value))
         (found : option (list Item * string)) : option (list Item * string) :=
  match data with
  | [] => found
  | (key, VList (IDict fields :: others)) :: rest =>
      if existsb (cell_references key fields) (row_cells row)
      then match_row row rest (Some (IDict fields :: others, key))
      else match_row row rest found
  | _ :: rest => match_row row rest found
  end.

(** The loop over [enumerate(table.rows)], left at the first row that
    gave a template. *)
Fixpoint find_template (row_idx : nat) (rows : list Row) (data : list (string * Value))
  : option (nat * list Item * string) :=
  match rows with
  | [] => None
  | row :: rest =>
      match match_row row data None with
      | Some (template_row_data, placeholder_key) =>
          Some (row_idx, template_row_data, placeholder_key)
      | None => find_template (S row_idx) rest data
      end
  end.

(** The body of the loop of [expand_dynamic_tables] for one table. *)
Definition expand_table (data : list (string * Value)) (table : Table)
  : result (Table * nat) :=
  match find_template 0 (table_rows table) data with
  | Some (template_row_idx, (_ :: _) as template_row_data, placeholder_key) =>
      table' ← _expand_table_rows table template_row_idx template_row_data placeholder_key;
      mret (table', 1)
  | _ => mret (table, 0)
  end.

Fixpoint expand_tables (ts : list Table) (data : list (string * Value))
  : result (list Table * nat) :=
  match ts with
  | [] => mret ([], 0)
  | t :: rest =>
      '(t', n) ← expand_table data t;
      '(rest', m) ← expand_tables rest data;
      mret (t' :: rest', n + m)
  end.

(** [expand_dynamic_tables] *)
Definition expand_dynamic_tables (d : Document) (data : list (string * Value))
  : result (Document * nat) :=
  '(ts, count) ← expand_tables (tables (doc_body d)) data;
  mret (with_body (put_tables ts (doc_body d)) d, count).

End DynamicContentProcessor.

(* ================================================================== *)
(** * [ImageReplacer] (src/core/image_replacer.py) *)
(* ================================================================== *)

Module ImageReplacer.
Import Docx.

(** What the file system answers for a path: nothing there
    ([Path.exists()] is false), something that [open(path, 'rb')]
    cannot read, or a file with its bytes. *)
Inductive FileState : Type :=
| Missing
| Unreadable
| Readable (data : string).

Definition FileSystem : Type := string -> FileState.

(** [Path(path).name]: the last component of the path.  pathlib
    leaves out the empty components and the components [.] when it
    parses a path, so [a.png/] and [a.png/.] have the name [a.png]. *)
Definition last_component (last comp : string) : string :=
  if String.eqb comp "" || String.eqb comp "." then last else comp.

Fixpoint final_component (last acc : string) (s : string) : string :=
  match s with
  | EmptyString => last_component last (String.rev acc)
  | String c s' =>
      if Ascii.eqb c "/"%char
      then final_component (last_component last (String.rev acc)) EmptyString s'
      else final_component last (String c acc) s'
  end.

Definition path_name (path : string) : string :=
  final_component EmptyString EmptyString path.

Fixpoint last_dot (name : string) : option string :=
  match name with
  | EmptyString => None
  | String c rest =>
      match last_dot rest with
      | Some suf => Some suf
      | None => if Ascii.eqb c "."%char then Some name else None
      end
  end.

(** [Path(path).suffix]: the name from its last dot, when that dot is
    neither its first nor its last character. *)
Definition suffix (path : string) : string :=
  match path_name path with
  | EmptyString => EmptyString
  | String _ rest =>
      match last_dot rest with
      | Some (String _ (String _ _) as suf) => suf
      | _ => EmptyString
      end
  end.

(** The table of [_update_content_type]. *)
Definition content_types : list (string * string) :=
  [ (".png", "image/png"); (".jpg", "image/jpeg"); (".jpeg", "image/jpeg");
    (".gif", "image/gif"); (".bmp", "image/bmp"); (".tiff", "image/tiff");
    (".tif", "image/tiff") ].

Fixpoint assoc (k : string) (l : list (string * string)) : option string :=
  match l with
  | [] => None
  | (k', v) :: rest => if String.eqb k k' then Some v else assoc k rest
  end.

(** [_update_content_type]: for an extension the table does not have
    nothing is done.  For one it has, the code assigns
    [image_part.content_type]; python-docx declares [content_type]
    as a property without a setter, so the assignment raises
    [AttributeError] and the part keeps its content type.  (The part
    handed over plays no role in the outcome.) *)
Definition _update_content_type (new_image_path : string) : result unit :=
  let extension := PyStr.lower (suffix new_image_path) in
  match assoc extension content_types with
  | Some _ => raise AttributeError
  | None => mret tt
  end.

(** [[(rel_id, rel) for rel_id, rel in rels.items() if 'image' in rel.reltype]] *)
Definition image_rels (rels : list (string * Rel)) : list (string * Rel) :=
  filter (fun r => PyStr.contains "image" (reltype r.2) = true) rels.

(** The image part after [image_part._blob = image_data]. *)
Definition new_part (image_data : string) (image_part : ImagePart) : ImagePart :=
  mkImagePart image_data (content_type image_part).

(** The last steps shared by the replace operations: read the file,
    assign [_blob] of the part the relationship reaches, then
    [_update_content_type], and [return True] when that returns. *)
Definition swap_blob (fs : FileSystem) (new_image_path : string) (old_rel : Rel)
           (d : Document) : Document * result bool :=
  match fs new_image_path with
  | Readable image_data =>
      let store := alter (new_part image_data) (target_part old_rel) (doc_media d) in
      (with_media store d, _ ← _update_content_type new_image_path; mret true)
  | _ => (d, raise OSError)
  end.

Definition exists_ (fs : FileSystem) (path : string) : bool :=
  match fs path with
  | Missing => false
  | _ => true
  end.

(** The part of [replace_header_image] and [replace_footer_image]
    after the header or footer was fetched.  [None] is the code's
    [if not header:]; a replacer does not meet it, its constructor
    having asked every header and footer for its relationships. *)
Definition replace_part_image (fs : FileSystem) (part : option HeaderFooter)
           (new_image_path : string) (image_index : Z) (d : Document)
  : Document * result bool :=
  match part with
  | None => (d, mret false)
  | Some hf =>
      let rels := image_rels (hf_rels hf) in
      if (Z.of_nat (length rels) <=? image_index)%Z then (d, mret false)
      else
        match py_index rels image_index with
        | inl e => (d, raise e)
        | inr (_, old_rel) => swap_blob fs new_image_path old_rel d
        end
  end.

(** [replace_header_image] *)
Definition replace_header_image (fs : FileSystem) (d : Document) (section_idx : Z)
           (new_image_path : string) (image_index : Z) : Document * result bool :=
  if (Z.of_nat (length (doc_sections d)) <=? section_idx)%Z then (d, mret false)
  else if negb (exists_ fs new_image_path) then (d, mret false)
  else
    match py_index (doc_sections d) section_idx with
    | inl e => (d, raise e)
    | inr section => replace_part_image fs (header section) new_image_path image_index d
    end.

(** [replace_footer_image] *)
Definition replace_footer_image (fs : FileSystem) (d : Document) (section_idx : Z)
           (new_image_path : string) (image_index : Z) : Document * result bool :=
  if (Z.of_nat (length (doc_sections d)) <=? section_idx)%Z then (d, mret false)
  else if negb (exists_ fs new_image_path) then (d, mret false)
  else
    match py_index (doc_sections d) section_idx with
    | inl e => (d, raise e)
    | inr section => replace_part_image fs (footer section) new_image_path image_index d
    end.

(** [replace_body_image_by_index] *)
Definition replace_body_image_by_index (fs : FileSystem) (d : Document) (image_index : Z)
           (new_image_path : string) : Document * result bool :=
  if negb (exists_ fs new_image_path) then (d, mret false)
  else
    let rels := image_rels (doc_rels d) in
    if (Z.of_nat (length rels) <=? image_index)%Z then (d, mret false)
    else
      match py_index rels image_index with
      | inl e => (d, raise e)
      | inr (_, old_rel) => swap_blob fs new_image_path old_rel d
      end.

(** [parts[i]] of the key, [IndexError] when the key has fewer fields,
    then [int(...)], [ValueError] when the field is no number. *)
Definition int_field (unicode_int : string -> option Z) (parts : list string) (i : nat)
  : result Z :=
  match parts !! i with
  | None => raise IndexError
  | Some f =>
      match PyStr.int unicode_int f with
      | Some z => mret z
      | None => raise ValueError
      end
  end.

(** The [try] block of [replace_images_batch] for one key. *)
Definition replace_one (unicode_int : string -> option Z) (fs : FileSystem)
           (d : Document) (key new_path : string) : Document * result bool :=
  let parts := PyStr.split "_"%char key in
  match parts with
  | [] => (d, raise IndexError)
  | location :: _ =>
      if String.eqb location "header" then
        match int_field unicode_int parts 1 with
        | inl e => (d, raise e)
        | inr section_idx =>
            match (if 2 <? length parts then int_field unicode_int parts 2 else mret 0%Z) with
            | inl e => (d, raise e)
            | inr img_idx => replace_header_image fs d section_idx new_path img_idx
            end
        end
      else if String.eqb location "footer" then
        match int_field unicode_int parts 1 with
        | inl e => (d, raise e)
        | inr section_idx =>
            match (if 2 <? length parts then int_field unicode_int parts 2 else mret 0%Z) with
            | inl e => (d, raise e)
            | inr img_idx => replace_footer_image fs d section_idx new_path img_idx
            end
        end
      else if String.eqb location "body" then
        match int_field unicode_int parts 1 with
        | inl e => (d, raise e)
        | inr img_idx => replace_body_image_by_index fs d img_idx new_path
        end
      else (d, mret false)
  end.

(** [results[key] = ...] on the insertion-ordered dict [results]. *)
Fixpoint dict_set (key : string) (v : bool) (results : list (string * bool))
  : list (string * bool) :=
  match results with
  | [] => [(key, v)]
  | (k, w) :: rest =>
      if String.eqb k key then (k, v) :: rest else (k, w) :: dict_set key v rest
  end.

(** What [results[key]] gets: the value returned, or [False] from the
    [except Exception] clause. *)
Definition caught (r : result bool) : bool :=
  match r with
  | inr b => b
  | inl _ => false
  end.

(** The loop of [replace_images_batch]. *)
Fixpoint batch_loop (unicode_int : string -> option Z) (fs : FileSystem)
         (replacements : list (string * string))
         (d : Document) (results : list (string * bool))
  : Document * list (string * bool) :=
  match replacements with
  | [] => (d, results)
  | (key, new_path) :: rest =>
      let '(d', r) := replace_one unicode_int fs d key new_path in
      batch_loop unicode_int fs rest d' (dict_set key (caught r) results)
  end.

(** [replace_images_batch] *)
Definition replace_images_batch (unicode_int : string -> option Z) (fs : FileSystem)
           (d : Document) (replacements : list (string * string))
  : Document * list (string * bool) :=
  batch_loop unicode_int fs replacements d [].

End ImageReplacer.

(* ================================================================== *)
(** * Vocabulary of the properties *)
(* ================================================================== *)

(** [pat] occurs in [s] as a substring. *)
Definition occurs (pat s : string) : Prop := exists a b, s = a +:+ pat +:+ b.

Fixpoint all_word (s : string) : bool :=
  match s with
  | EmptyString => true
  | String c s' => Pattern.is_word_char c && all_word s'
  end.

(** A name of the token grammar: one or more characters of
    [[A-Za-z0-9_]]. *)
Definition is_name (s : string) : bool := negb (PyStr.is_empty s) && all_word s.

Module Visit.
Import Docx.

(** The paragraphs of the cells of a table, row by row. *)
Definition table_paragraphs (t : Table) : list Paragraph :=
  table_rows t ≫= (fun row => row_cells row ≫= cell_paragraphs).

Definition part_paragraphs (part : option HeaderFooter) : list Paragraph :=
  match part with
  | Some hf => hf_paragraphs hf
  | None => []
  end.

Definition section_paragraphs (s : Section) : list Paragraph :=
  part_paragraphs (header s) ++ part_paragraphs (footer s).

(** Every paragraph the scanner and the substitution pass visit:
    those of the body, of the cells of the body's tables, of the
    headers and footers. *)
Definition scanned_paragraphs (d : Document) : list Paragraph :=
  paragraphs (doc_body d)
  ++ (tables (doc_body d) ≫= table_paragraphs)
  ++ (doc_sections d ≫= section_paragraphs).






(** The token of the name [n] occurs in the paragraph. *)
Definition hit (n : string) (p : Paragraph) : Prop :=
  is_name n = true /\ occurs (token n) (para_text p).

(** The runs of those paragraphs. *)
Definition visited_runs (d : Document) : list Run :=
  scanned_paragraphs d ≫= para_runs.




End Visit.

Module Subst.
Import PlaceholderEngine.

(** What the loop over the mapping makes of a text, and how many
    entries found their token when their turn came. *)
Definition subst (data : list (string * string)) (t : string) : string :=
  (substitute data t 0).1.

Definition hits (data : list (string * string)) (t : string) : nat :=
  (substitute data t 0).2.

(** The text with every occurrence of the token of each key replaced
    by the value of the key, the keys taken in the order of the
    mapping. *)
Definition replaced (data : list (string * string)) (t : string) : string :=
  foldl (fun t kv => PyStr.replace (token kv.1) kv.2 t) t data.

(** A text without braces. *)
Fixpoint plain (s : string) : bool :=
  match s with
  | EmptyString => true
  | String c s' =>
      negb (Ascii.eqb c "{"%char) && negb (Ascii.eqb c "}"%char) && plain s'
  end.

(** What the loop body of [_replace_in_runs] does to a run once its
    test is passed. *)
Definition run_subst (data : list (string * string)) (r : Docx.Run) : Docx.Run :=
  Docx.run_set_text (subst data (Docx.run_text r)) r.

(** The paragraph after the loop body of [_replace_in_paragraphs],
    and what it adds to the count. *)
Definition para_after (data : list (string * string)) (pf : bool) (p : Docx.Paragraph)
  : Docx.Paragraph :=
  (replace_in_paragraph data pf p).1.

Definition para_count (data : list (string * string)) (pf : bool) (p : Docx.Paragraph)
  : nat :=
  (replace_in_paragraph data pf p).2.


End Subst.

(** A mapping whose keys are names of the token grammar. *)
Definition names (data : list (string * string)) : Prop :=
  Forall (fun k => is_name k = true) data.*1.

Module Media.
Import Docx ImageReplacer.

(** Between [d] and [d'] nothing differs but the media entry
    [target], which went through [f]: body, sections (with the
    drawing elements and relationships of headers and footers),
    relationships and drawing elements of the main part are the
    same, and so is every other media entry. *)
Definition only_entry_changed (d d' : Document) (target : string)
           (f : ImagePart -> ImagePart) : Prop :=
  doc_body d' = doc_body d
  /\ doc_sections d' = doc_sections d
  /\ doc_rels d' = doc_rels d
  /\ doc_drawings d' = doc_drawings d
  /\ doc_media d' !! target = f <$> doc_media d !! target
  /\ forall k, k <> target -> doc_media d' !! k = doc_media d !! k.

(** The image relationship number [i] of a relationship table. *)
Definition image_rel (rels : list (string * Rel)) (i : Z) : option Rel :=
  if (i <? 0)%Z then None else snd <$> image_rels rels !! Z.to_nat i.

(** The header of section number [i]. *)
Definition header_of (d : Document) (i : Z) : option HeaderFooter :=
  if (i <? 0)%Z then None else doc_sections d !! Z.to_nat i ≫= header.

Definition footer_of (d : Document) (i : Z) : option HeaderFooter :=
  if (i <? 0)%Z then None else doc_sections d !! Z.to_nat i ≫= footer.

(** The image relationship a header or footer and an index resolve
    to. *)
Definition part_image_rel (part : option HeaderFooter) (i : Z) : option Rel :=
  part ≫= fun hf => image_rel (hf_rels hf) i.

(** Has the content type table of [_update_content_type] the
    extension of the path? *)
Definition recognised (path : string) : bool :=
  match assoc (PyStr.lower (suffix path)) content_types with
  | Some _ => true
  | None => false
  end.

(** The document with the bytes [data] in the media entry the
    relationship targets, under the content type the entry had. *)
Definition with_blob (data : string) (rel : Rel) (d : Document) : Document :=
  with_media (alter (new_part data) (target_part rel) (doc_media d)) d.

(** The locations of the keys of a batch. *)
Definition locations : list string := ["header"; "footer"; "body"].

(** The image index of a [header_] or [footer_] key: its third field,
    0 when the key has two fields. *)
Definition image_field (unicode_int : string -> option Z) (rest : list string)
  : option Z :=
  match rest with
  | [] => Some 0%Z
  | f :: _ => PyStr.int unicode_int f
  end.

End Media.

Module Expansion.
Import Docx DynamicContentProcessor.

(** The paragraph [_create_bullet_paragraph] makes for an item. *)
Definition bullet_paragraph (style : string) (item : Item) : Paragraph :=
  mkParagraph style None [mkRun (bullet (str item)) no_format].

(** The array entries of the mapping whose token occurs in a text,
    in the order of the mapping. *)
Definition matching (data : list (string * Value)) (text : string)
  : list (string * list Item) :=
  (fun s => (site_key s, site_items s)) <$> sites_of_paragraph 0 0 text data.

(** What list expansion is to leave at the site of a paragraph that
    holds the token of the array [key]: the paragraph with the token
    stripped for an empty array, else one bullet paragraph per item,
    the first of them being the paragraph itself. *)
Definition expand_paragraph (key : string) (items : list Item) (p : Paragraph)
  : list Paragraph :=
  match items with
  | [] => [para_set_text (PyStr.replace (token key) "" (para_text p)) p]
  | first :: others =>
      para_add_run (bullet (str first)) (para_clear p)
      :: (bullet_paragraph (para_style p) <$> others)
  end.

(** What it is to leave at the site of a block: tables and paragraphs
    without the token of an array stay. *)
Definition expand_block (data : list (string * Value)) (b : Block) : list Block :=
  match b with
  | Tbl t => [Tbl t]
  | P p =>
      match matching data (para_text p) with
      | [(key, items)] => P <$> expand_paragraph key items p
      | _ => [P p]
      end
  end.

(** A mapping whose arrays have elements that read as texts a
    paragraph can be given. *)
Definition xml_items (data : list (string * Value)) : Prop :=
  forall key items, (key, VList items) ∈ data ->
                    Forall (fun i => xml_text (str i) = true) items.

End Expansion.

Module Rows.
Import Docx DynamicContentProcessor.

(** An element of an array that is an object. *)
Definition is_dict (i : Item) : Prop :=
  match i with
  | IDict _ => True
  | IStr _ => False
  end.

(** A row all of whose cells were filled from their own texts as
    templates with the fields of one object. *)
Definition filled_row (key : string) (fields : list (string * string)) (template : Row)
  : Row :=
  mkRow ((fun c => fill_cell (fill_text key fields (cell_text c)) c) <$> row_cells template).

Definition columns (c : nat) (t : Table) : Prop :=
  Forall (fun r => length (row_cells r) = c) (table_rows t).

(** An element whose values are texts a cell can be given. *)
Definition xml_item (i : Item) : Prop :=
  match i with
  | IDict fields => Forall (fun v => xml_text v = true) fields.*2
  | IStr s => xml_text s = true
  end.

End Rows.

(* ================================================================== *)
(** * Example documents *)
(* ================================================================== *)

(** Concrete documents, mappings and files on which the definitions
    are evaluated. *)
Module Examples.
Import Docx PlaceholderEngine DynamicContentProcessor ImageReplacer.

(** A paragraph of one run without formatting of its own. *)
Definition para (text : string) : Paragraph :=
  mkParagraph "Normal" None [mkRun text no_format].

(** A document that is only a body. *)
Definition doc_of (body : list Elem) : Document :=
  mkDocument body [] [] [] ∅.

Definition cell (text : string) : Cell := mkCell None [para text].

(** Scenario 1 of the specification. *)
Definition doc_hello : Document := doc_of [(0, P (para "Hello {{name}}"))].
Definition data_hello : list (string * string) := [("name", "World")].

(** One run that holds the same token twice. *)
Definition doc_twice : Document := doc_of [(0, P (para "{{a}} and {{a}}"))].
Definition data_twice : list (string * string) := [("a", "x")].



(** A token cut in two by a change of formatting. *)
Definition bold_format : RunFormat := mkRunFormat (Some true) None None None None None.
Definition para_split : Paragraph :=
  mkParagraph "Normal" None [mkRun "Dear {{na" no_format; mkRun "me}}," bold_format].

(** A nested field placeholder in a table cell and in a paragraph. *)
Definition doc_nested : Document :=
  doc_of [(0, P (para "{{rows.name}}")); (1, Tbl (mkTable [Tr (mkRow [cell "{{rows.name}}"])]))].

(** Scenario 2 of the specification, between two other paragraphs. *)
Definition doc_items : Document :=
  doc_of [(0, P (para "Intro")); (1, P (para "{{items}}")); (2, P (para "End"))].
Definition data_items : list (string * Value) :=
  [("items", VList [IStr "A"; IStr "B"; IStr "C"])].

(** One paragraph that holds the tokens of two arrays. *)
Definition doc_two_arrays : Document := doc_of [(0, P (para "{{a}}{{b}}"))].
Definition data_two_arrays : list (string * Value) :=
  [("a", VList [IStr "1"; IStr "2"]); ("b", VList [IStr "3"; IStr "4"])].

(** A table of a header row and a template row. *)
Definition template_row : Row := mkRow [cell "{{rows.name}}"; cell "{{rows.grade}}"].
Definition table_grades : Table :=
  mkTable [TblOther "tblPr"; TblOther "tblGrid";
           Tr (mkRow [cell "Name"; cell "Grade"]); Tr template_row].
Definition doc_grades : Document := doc_of [(0, Tbl table_grades)].
Definition data_grades : list (string * Value) :=
  [("rows", VList [IDict [("name", "Ana"); ("grade", "5")];
                   IDict [("name", "Luis"); ("grade", "4")]])].
Definition data_no_grades : list (string * Value) := [("rows", VList [])].
Definition data_one_grade : list (string * Value) :=
  [("rows", VList [IDict [("name", "Ana"); ("grade", "5")]])].

(** An array token in a header and in a table cell only. *)
Definition doc_outside : Document :=
  mkDocument [(0, P (para "Report")); (1, Tbl (mkTable [Tr (mkRow [cell "{{items}}"])]))]
             [mkSection (Some (mkHeaderFooter "/word/header1.xml" [para "{{items}}"] [] []))
                        (Some (mkHeaderFooter "/word/footer1.xml" [para "{{items}}"] [] []))]
             [] [] ∅.

(** Scenario 5: a document with one image in the body and one in the
    header, both on the same image part. *)
Definition image_rel_type : string :=
  "http://schemas.openxmlformats.org/officeDocument/2006/relationships/image".
Definition styles_rel_type : string :=
  "http://schemas.openxmlformats.org/officeDocument/2006/relationships/styles".
Definition doc_images : Document :=
  mkDocument [(0, P (para "x"))]
    [mkSection
       (Some (mkHeaderFooter "/word/header1.xml" [para "h"]
                [("rId1", mkRel image_rel_type "media/image2.png" "/word/media/image2.png")]
                [mkDrawing "rId1" true (Some (100, 200)%Z) None None]))
       None]
    [("rId1", mkRel styles_rel_type "styles.xml" "/word/styles.xml");
     ("rId2", mkRel image_rel_type "media/image1.png" "/word/media/image1.png")]
    [mkDrawing "rId2" false (Some (1, 2)%Z) (Some (3, 4)%Z) (Some "square")]
    {[ "/word/media/image1.png" := mkImagePart "OLD1" "image/png";
       "/word/media/image2.png" := mkImagePart "OLD2" "image/png" ]}.

Definition files : FileSystem :=
  fun path =>
    if String.eqb path "a.jpg" then Readable "JPG"
    else if String.eqb path "logo.webp" then Readable "WEBP"
    else if String.eqb path "dir" then Unreadable
    else Missing.

Definition batch : list (string * string) :=
  [("body_0", "a.jpg"); ("header_0_0", "a.jpg"); ("body_5", "a.jpg")].

(** Keys of every sort: a location that is none, an index that is no
    number, a file with an extension of the content type table, one
    with an extension the table does not have, an index out of range,
    a key without index, a file that is not there. *)
Definition batch_mixed : list (string * string) :=
  [("invalid_0", "logo.webp"); ("body_x", "logo.webp"); ("body_0", "a.jpg");
   ("header_0_0", "logo.webp"); ("body_5", "logo.webp"); ("footer", "logo.webp");
   ("header_0", "nowhere.png")].

(** No text that is not ASCII is a number. *)
Definition ascii_int : string -> option Z := fun _ => None.

End Examples.

(* ================================================================== *)
(** * [PlaceholderEngine]: report and preview *)
(* ================================================================== *)

Module PlaceholderReport.
Import Docx PlaceholderEngine.

(** [report['locations']] *)
Record Locations : Type := mkLocations {
  loc_body : nat;
  loc_tables : nat;
  loc_headers : nat;
  loc_footers : nat
}.

(** The dict [get_placeholder_report] returns.  [placeholders] is
    filled by iterating a [set], so its order is not determined: it is
    kept as a finite map. *)
Record Report : Type := mkReport {
  total_unique : nat;
  placeholders : gmap string nat;
  locations : Locations
}.

Definition bump_body (l : Locations) : Locations :=
  mkLocations (S (loc_body l)) (loc_tables l) (loc_headers l) (loc_footers l).

Definition bump_tables (l : Locations) : Locations :=
  mkLocations (loc_body l) (S (loc_tables l)) (loc_headers l) (loc_footers l).

Definition bump_headers (l : Locations) : Locations :=
  mkLocations (loc_body l) (loc_tables l) (S (loc_headers l)) (loc_footers l).

Definition bump_footers (l : Locations) : Locations :=
  mkLocations (loc_body l) (loc_tables l) (loc_headers l) (S (loc_footers l)).

(** [for x in xs: body], where the body works on the state [st] and
    may raise [KeyError] ([None]). *)
Fixpoint for_each {A S : Type} (body : A -> S -> option S) (xs : list A) (st : S)
  : option S :=
  match xs with
  | [] => Some st
  | x :: rest =>
      match body x st with
      | Some st' => for_each body rest st'
      | None => None
      end
  end.

(** The body of the loops over [self.pattern.finditer(para.text)]:
    [report['placeholders'][var_name] += 1] raises [KeyError] on a
    name the dict does not have, then the counter of the location
    goes up. *)
Definition count_match (bump : Locations -> Locations) (var_name : string)
           (report : Report) : option Report :=
  match placeholders report !! var_name with
  | None => None
  | Some n =>
      Some (mkReport (total_unique report)
                     (<[var_name := S n]> (placeholders report))
                     (bump (locations report)))
  end.

(** [for para in paragraphs: for match in finditer(para.text): ...];
    [finditer] finds the matches [findall] finds. *)
Definition count_paragraphs (bump : Locations -> Locations) (ps : list Paragraph)
  : Report -> option Report :=
  for_each (fun para => for_each (count_match bump) (Pattern.findall (para_text para))) ps.

Definition count_table (t : Table) : Report -> option Report :=
  for_each (fun row =>
              for_each (fun cell => count_paragraphs bump_tables (cell_paragraphs cell))
                       (row_cells row))
           (table_rows t).

Definition count_section (s : Section) (report : Report) : option Report :=
  match (match header s with
         | Some h => count_paragraphs bump_headers (hf_paragraphs h) report
         | None => Some report
         end) with
  | None => None
  | Some report1 =>
      match footer s with
      | Some f => count_paragraphs bump_footers (hf_paragraphs f) report1
      | None => Some report1
      end
  end.

(** [get_placeholder_report] *)
Definition get_placeholder_report (d : Document) : option Report :=
  let all_placeholders := find_all_placeholders d in
  let report :=
    mkReport (size all_placeholders) (gset_to_gmap 0 all_placeholders)
             (mkLocations 0 0 0 0) in
  match count_paragraphs bump_body (paragraphs (doc_body d)) report with
  | None => None
  | Some report1 =>
      match for_each count_table (tables (doc_body d)) report1 with
      | None => None
      | Some report2 => for_each count_section (doc_sections d) report2
      end
  end.

(** The inner loop of [preview_replacements]:
    [for key, value in data.items(): replaced = replaced.replace(...)]. *)
Definition replace_each (data : list (string * string)) (text : string) : string :=
  foldl (fun replaced kv => PyStr.replace (token kv.1) kv.2 replaced) text data.

(** The loop of [preview_replacements] over [self.document.paragraphs];
    an example is the pair of its ['original'] and ['replaced']. *)
Fixpoint preview_loop (ps : list Paragraph) (data : list (string * string))
         (max_examples : Z) (examples : list (string * string)) (count : Z)
  : list (string * string) :=
  match ps with
  | [] => examples
  | para :: rest =>
      if (max_examples <=? count)%Z then examples
      else if Pattern.search (para_text para) then
        let original := para_text para in
        let replaced := replace_each data original in
        if negb (String.eqb original replaced)
        then preview_loop rest data max_examples
                          (examples ++ [(original, replaced)]) (count + 1)%Z
        else preview_loop rest data max_examples examples count
      else preview_loop rest data max_examples examples count
  end.

(** [preview_replacements] *)
Definition preview_replacements (d : Document) (data : list (string * string))
           (max_examples : Z) : list (string * string) :=
  preview_loop (paragraphs (doc_body d)) data max_examples [] 0%Z.

End PlaceholderReport.

(** ** Vocabulary for the reports *)

Module Matches.
Import Docx PlaceholderEngine PlaceholderReport.

(** Every match of the pattern in the texts of paragraphs, in order. *)
Definition matches (ps : list Paragraph) : list string :=
  ps ≫= (fun p => Pattern.findall (para_text p)).

(** How often a name is matched. *)
Definition occurrences (n : string) (names : list string) : nat :=
  length (filter (fun m => m = n) names).

Definition total_locations (l : Locations) : nat :=
  loc_body l + loc_tables l + loc_headers l + loc_footers l.

(** The sum of the counts of a report. *)
Definition sum_counts (m : gmap string nat) : nat :=
  map_fold (fun _ v acc => v + acc) 0 m.

(** The report [r'] is [r] after the matches [names] were counted:
    each name has its occurrences added, nothing else changes in the
    dict, and the sum of the counts goes up by the number of matches. *)
Definition tallied (names : list string) (r r' : Report) : Prop :=
  total_unique r' = total_unique r
  /\ dom (placeholders r') = dom (placeholders r)
  /\ (forall n, placeholders r' !! n
                = (fun c => c + occurrences n names) <$> placeholders r !! n)
  /\ sum_counts (placeholders r') = sum_counts (placeholders r) + length names.

(** What [preview_replacements] has to say about a paragraph: an
    example when the pattern is found and the replacements change the
    text. *)
Definition candidate (data : list (string * string)) (p : Paragraph)
  : option (string * string) :=
  if Pattern.search (para_text p)
     && negb (String.eqb (para_text p) (replace_each data (para_text p)))
  then Some (para_text p, replace_each data (para_text p))
  else None.


End Matches.

(* ================================================================== *)
(** * [ImageReplacer]: the image cache, dimensions, replace by id *)
(* ================================================================== *)

Module ImageCache.
Import Docx ImageReplacer.

(** [ImageInfo].  [drawing_element] is a reference to an element of
    the part the image was found in: it is given by the position of
    that element among the [w:drawing] elements of the part, which no
    operation of the code adds to or removes from. *)
Record ImageInfo : Type := mkImageInfo {
  rel_id : string;
  target : string;
  location : string;
  section_idx : nat;
  index : nat;
  width_emu : option Z;
  height_emu : option Z;
  is_inline : bool;
  drawing_element : option nat
}.

(** The dict [_find_drawing_by_rel_id] returns. *)
Record DrawingInfo : Type := mkDrawingInfo {
  di_width : option Z;
  di_height : option Z;
  di_is_inline : bool;
  di_element : option nat
}.

(** The loop of [_find_drawing_by_rel_id] over
    [root_element.iter(qn('w:drawing'))]: the first drawing whose blip
    embeds [rel_id]; [k] is the position of the drawing at hand. *)
Fixpoint find_drawing (k : nat) (drawings : list Drawing) (rel_id : string)
  : DrawingInfo :=
  match drawings with
  | [] => mkDrawingInfo None None true None
  | drawing :: rest =>
      if String.eqb (drawing_embed drawing) rel_id
      then mkDrawingInfo (fst <$> drawing_extent drawing) (snd <$> drawing_extent drawing)
                         (drawing_is_inline drawing) (Some k)
      else find_drawing (S k) rest rel_id
  end.

(** [_find_drawing_by_rel_id] *)
Definition _find_drawing_by_rel_id (drawings : list Drawing) (rel_id : string)
  : DrawingInfo :=
  find_drawing 0 drawings rel_id.

(** The loop shared by [_scan_part_images] and [_scan_body_images]:
    one [ImageInfo] per image relationship, numbered from [index]. *)
Fixpoint scan_rels (rels : list (string * Rel)) (drawings : list Drawing)
         (location : string) (section_idx index : nat) : list ImageInfo :=
  match rels with
  | [] => []
  | (rel_id, rel) :: rest =>
      if PyStr.contains "image" (reltype rel)
      then
        let drawing_info := _find_drawing_by_rel_id drawings rel_id in
        mkImageInfo rel_id (target_ref rel) location section_idx index
                    (di_width drawing_info) (di_height drawing_info)
                    (di_is_inline drawing_info) (di_element drawing_info)
        :: scan_rels rest drawings location section_idx (S index)
      else scan_rels rest drawings location section_idx index
  end.

(** [_scan_part_images] *)
Definition _scan_part_images (part : HeaderFooter) (location : string) (section_idx : nat)
  : list ImageInfo :=
  scan_rels (hf_rels part) (hf_drawings part) location section_idx 0.

(** [_scan_body_images]; [section_idx] keeps its default. *)
Definition _scan_body_images (d : Document) : list ImageInfo :=
  scan_rels (doc_rels d) (doc_drawings d) "body" 0 0.

(** [self._image_cache] *)
Record Cache : Type := mkCache {
  cache_headers : list ImageInfo;
  cache_footers : list ImageInfo;
  cache_body : list ImageInfo
}.

(** The loop of [_scan_images] over [enumerate(self.document.sections)]. *)
Fixpoint scan_sections (section_idx : nat) (sections : list Section) (cache : Cache)
  : Cache :=
  match sections with
  | [] => cache
  | section :: rest =>
      let cache1 :=
        match header section with
        | Some h =>
            mkCache (cache_headers cache ++ _scan_part_images h "headers" section_idx)
                    (cache_footers cache) (cache_body cache)
        | None => cache
        end in
      let cache2 :=
        match footer section with
        | Some f =>
            mkCache (cache_headers cache1)
                    (cache_footers cache1 ++ _scan_part_images f "footers" section_idx)
                    (cache_body cache1)
        | None => cache1
        end in
      scan_sections (S section_idx) rest cache2
  end.

(** [_scan_images] *)
Definition _scan_images (d : Document) : Cache :=
  let cache := scan_sections 0 (doc_sections d) (mkCache [] [] []) in
  mkCache (cache_headers cache) (cache_footers cache)
          (cache_body cache ++ _scan_body_images d).

(** An [ImageReplacer] object: the document it works on and the cache
    its constructor filled. *)
Record Replacer : Type := mkReplacer {
  document : Document;
  _image_cache : Cache
}.

(** [ImageReplacer(document)] *)
Definition init (d : Document) : Replacer := mkReplacer d (_scan_images d).

(** [get_header_images_info] *)
Definition get_header_images_info (r : Replacer) (s : Z) : list ImageInfo :=
  filter (fun img => Z.of_nat (section_idx img) = s) (cache_headers (_image_cache r)).

(** [get_footer_images_info] *)
Definition get_footer_images_info (r : Replacer) (s : Z) : list ImageInfo :=
  filter (fun img => Z.of_nat (section_idx img) = s) (cache_footers (_image_cache r)).

(** [get_body_images_info] *)
Definition get_body_images_info (r : Replacer) : list ImageInfo :=
  cache_body (_image_cache r).

(** [location + 's' if location != 'body' else location] *)
Definition cache_key (location : string) : string :=
  if negb (String.eqb location "body") then location +:+ "s" else location.

(** [self._image_cache.get(key, [])] *)
Definition cache_get (cache : Cache) (key : string) : list ImageInfo :=
  if String.eqb key "headers" then cache_headers cache
  else if String.eqb key "footers" then cache_footers cache
  else if String.eqb key "body" then cache_body cache
  else [].

(** The truth value of an [Optional[int]]. *)
Definition truthy (v : option Z) : bool :=
  match v with
  | Some z => negb (z =? 0)%Z
  | None => false
  end.

(** The test both loops over the images make: the index, and the
    section unless the location is the body. *)
Definition selects (location : string) (idx sidx : Z) (img : ImageInfo) : bool :=
  (Z.of_nat (index img) =? idx)%Z
  && (String.eqb location "body" || (Z.of_nat (section_idx img) =? sidx)%Z).

(** The loop of [get_image_dimensions]. *)
Fixpoint find_dimensions (images : list ImageInfo) (location : string)
         (idx sidx : Z) : option (Z * Z) :=
  match images with
  | [] => None
  | img :: rest =>
      if selects location idx sidx img
         && truthy (width_emu img) && truthy (height_emu img)
      then
        match width_emu img, height_emu img with
        | Some w, Some h => Some (w, h)
        | _, _ => None
        end
      else find_dimensions rest location idx sidx
  end.

(** [get_image_dimensions] *)
Definition get_image_dimensions (r : Replacer) (location : string) (idx sidx : Z)
  : option (Z * Z) :=
  find_dimensions (cache_get (_image_cache r) (cache_key location)) location idx sidx.

(** The drawing elements of the part the images of a cache list were
    found in. *)
Definition part_drawings (d : Document) (key : string) (sidx : nat)
  : option (list Drawing) :=
  if String.eqb key "body" then Some (doc_drawings d)
  else
    section ← doc_sections d !! sidx;
    part ← (if String.eqb key "headers" then header section else footer section);
    Some (hf_drawings part).

Definition with_drawings (drawings : list Drawing) (d : Document) : Document :=
  mkDocument (doc_body d) (doc_sections d) (doc_rels d) drawings (doc_media d).

Definition with_part_drawings (drawings : list Drawing) (part : HeaderFooter)
  : HeaderFooter :=
  mkHeaderFooter (hf_part part) (hf_paragraphs part) (hf_rels part) drawings.

(** The document after the drawing elements of that part became
    [drawings]. *)
Definition put_part_drawings (d : Document) (key : string) (sidx : nat)
           (drawings : list Drawing) : Document :=
  if String.eqb key "body" then with_drawings drawings d
  else
    match doc_sections d !! sidx with
    | None => d
    | Some section =>
        let section' :=
          if String.eqb key "headers"
          then mkSection (with_part_drawings drawings <$> header section) (footer section)
          else mkSection (header section) (with_part_drawings drawings <$> footer section) in
        with_sections (<[sidx := section']> (doc_sections d)) d
    end.

(** [extent.set('cx', str(width_emu)); extent.set('cy', str(height_emu))]
    on a drawing that has an extent.  (The [a:ext] elements of the
    picture that the code updates as well are not part of the record.) *)
Definition set_extent (w h : Z) (drawing : Drawing) : Drawing :=
  mkDrawing (drawing_embed drawing) (drawing_is_inline drawing) (Some (w, h))
            (drawing_offset drawing) (drawing_wrap drawing).

(** The loop of [set_image_dimensions]: the first image selected whose
    drawing element is there and has an extent gets the dimensions.  An
    image whose reference leads nowhere is passed over; the cache of
    the constructor has none. *)
Fixpoint set_dimensions (images : list ImageInfo) (key location : string)
         (idx : Z) (w h : Z) (sidx : Z) (d : Document)
  : Document * bool :=
  match images with
  | [] => (d, false)
  | img :: rest =>
      let next := set_dimensions rest key location idx w h sidx d in
      if selects location idx sidx img then
        match drawing_element img with
        | None => next
        | Some k =>
            match part_drawings d key (section_idx img) with
            | None => next
            | Some drawings =>
                match drawings !! k with
                | None => next
                | Some drawing =>
                    match drawing_extent drawing with
                    | None => next
                    | Some _ =>
                        (put_part_drawings d key (section_idx img)
                           (<[k := set_extent w h drawing]> drawings),
                         true)
                    end
                end
            end
        end
      else next
  end.

(** [set_image_dimensions]: the replacer afterwards (its document is
    written, its cache is not) and the value returned. *)
Definition set_image_dimensions (r : Replacer) (location : string) (idx : Z)
           (w h : Z) (sidx : Z) : Replacer * bool :=
  let key := cache_key location in
  let '(d, ok) :=
    set_dimensions (cache_get (_image_cache r) key) key location idx w h sidx
                   (document r) in
  (mkReplacer d (_image_cache r), ok).

(** [rels[rel_id]] on the relationships of a part. *)
Fixpoint rels_get (rel_id : string) (rels : list (string * Rel)) : option Rel :=
  match rels with
  | [] => None
  | (k, rel) :: rest => if String.eqb k rel_id then Some rel else rels_get rel_id rest
  end.

(** [replace_body_image_by_rel_id] *)
Definition replace_body_image_by_rel_id (fs : FileSystem) (d : Document)
           (rel_id new_image_path : string) : Document * result bool :=
  if negb (exists_ fs new_image_path) then (d, mret false)
  else
    match rels_get rel_id (doc_rels d) with
    | None => (d, mret false)
    | Some rel =>
        if negb (PyStr.contains "image" (reltype rel)) then (d, mret false)
        else swap_blob fs new_image_path rel d
    end.

End ImageCache.

(** ** Vocabulary for the cache *)

Module CacheFacts.
Import Docx ImageReplacer ImageCache.

(** Between [d] and [d'] nothing differs but the content of media
    entries: the same parts are there. *)
Definition media_only (d d' : Document) : Prop :=
  doc_body d' = doc_body d
  /\ doc_sections d' = doc_sections d
  /\ doc_rels d' = doc_rels d
  /\ doc_drawings d' = doc_drawings d
  /\ dom (doc_media d') = dom (doc_media d).

(** The entry of the cache for image relationship number [i] of a
    part. *)
Definition info_of (drawings : list Drawing) (location : string) (sidx : nat)
           (i : nat) (r : string * Rel) : ImageInfo :=
  let drawing_info := _find_drawing_by_rel_id drawings r.1 in
  mkImageInfo r.1 (target_ref r.2) location sidx i
              (di_width drawing_info) (di_height drawing_info)
              (di_is_inline drawing_info) (di_element drawing_info).

(** The entries of the cache for a part. *)
Definition part_infos (rels : list (string * Rel)) (drawings : list Drawing)
           (location : string) (sidx : nat) : list ImageInfo :=
  imap (info_of drawings location sidx) (image_rels rels).

(** What [set_image_dimensions] does once its loop has come to the
    image it selects. *)
Definition set_at (d : Document) (key : string) (w h : Z) (img : ImageInfo)
  : Document * bool :=
  match drawing_element img with
  | None => (d, false)
  | Some k =>
      match part_drawings d key (section_idx img) with
      | None => (d, false)
      | Some drawings =>
          match drawings !! k with
          | None => (d, false)
          | Some drawing =>
              match drawing_extent drawing with
              | None => (d, false)
              | Some _ =>
                  (put_part_drawings d key (section_idx img)
                     (<[k := set_extent w h drawing]> drawings),
                   true)
              end
          end
      end
  end.

(** What [get_image_dimensions] returns once its loop has come to the
    image it selects. *)
Definition dims_of (img : ImageInfo) : option (Z * Z) :=
  match width_emu img, height_emu img with
  | Some w, Some h => if negb (w =? 0)%Z && negb (h =? 0)%Z then Some (w, h) else None
  | _, _ => None
  end.

End CacheFacts.

(* ================================================================== *)
(** * [find_images_in_folder] (generar_informe.py) *)
(* ================================================================== *)

Module Folder.
Import ImageReplacer.

(** What [Path(folder_path)] finds on the disk: nothing, something
    that is no directory, or a directory whose [iterdir()] yields the
    given paths ([str(img_file)]), in the order of the iteration. *)
Inductive FolderState : Type :=
| Absent
| NotADirectory
| Entries (files : list string).

(** [Path(path).stem]: the final component without its suffix. *)
Definition stem (path : string) : string :=
  let name := path_name path in
  String.substring 0 (String.length name - String.length (suffix path)) name.

Definition image_extensions : list string :=
  [".png"; ".jpg"; ".jpeg"; ".gif"; ".bmp"; ".tiff"].

(** [d[key] = v] on an insertion-ordered dict of strings. *)
Fixpoint dict_put (key v : string) (d : list (string * string)) : list (string * string) :=
  match d with
  | [] => [(key, v)]
  | (k, w) :: rest =>
      if String.eqb k key then (k, v) :: rest else (k, w) :: dict_put key v rest
  end.

(** The body of the loop over [folder.iterdir()]. *)
Definition add_image (replacements : list (string * string)) (img_file : string)
  : list (string * string) :=
  if bool_decide (PyStr.lower (suffix img_file) ∈ image_extensions)
  then dict_put (stem img_file) img_file replacements
  else replacements.

(** [find_images_in_folder]; [iterdir()] raises [NotADirectoryError],
    an [OSError], on a path that is no directory. *)
Definition find_images_in_folder (folder : FolderState)
  : result (list (string * string)) :=
  match folder with
  | Absent => mret []
  | NotADirectory => raise OSError
  | Entries files => mret (foldl add_image [] files)
  end.

End Folder.

(** ** Vocabulary for list expansion at a paragraph with several arrays *)

Module Sites.
Import Docx DynamicContentProcessor Expansion.

(** What one turn of the processing loop makes of the paragraph of a
    site and of the paragraphs that follow it: an empty array has its
    token stripped, another one puts its first item in the paragraph
    and the others right after it. *)
Definition expand_step (m : string * list Item) (st : Paragraph * list Paragraph)
  : Paragraph * list Paragraph :=
  match m.2 with
  | [] => (para_set_text (PyStr.replace (token m.1) "" (para_text st.1)) st.1, st.2)
  | first :: others =>
      (para_add_run (bullet (str first)) (para_clear st.1),
       (bullet_paragraph (para_style st.1) <$> others) ++ st.2)
  end.

(** The paragraphs at the site of a paragraph after the turns of all
    the arrays whose token it holds, the last array first. *)
Definition expand_all (ms : list (string * list Item)) (p : Paragraph) : list Paragraph :=
  let st := foldr expand_step (p, []) ms in
  st.1 :: st.2.

Definition expand_block_all (data : list (string * Value)) (b : Block) : list Block :=
  match b with
  | Tbl t => [Tbl t]
  | P p => P <$> expand_all (matching data (para_text p)) p
  end.

(** An array with an item. *)
Definition filled (m : string * list Item) : bool :=
  match m.2 with
  | [] => false
  | _ :: _ => true
  end.

(** The pairs of a paragraph and an array with items whose token the
    paragraph holds. *)
Definition filled_sites (data : list (string * Value)) (ps : list Paragraph) : nat :=
  sum_list ((fun p => length (filter filled (matching data (para_text p)))) <$> ps).


End Sites.

(** ** Vocabulary for the choice of the template row *)

Module Template.
Import Docx DynamicContentProcessor Rows.

(** Does a row reference an entry of the payload: an array whose
    first element is an object, named in a cell by its token or by
    the token of a field of that object? *)
Definition references (row : Row) (kv : string * Value) : bool :=
  match kv.2 with
  | VList (IDict fields :: _) => existsb (cell_references kv.1 fields) (row_cells row)
  | _ => false
  end.



End Template.

(* ================================================================== *)
(** * Python strings: [startswith], [in], [replace] *)
(* ================================================================== *)

Section StringLemmas.
Implicit Types s p a b r : string.

Lemma str_app_nil_r s : s +:+ "" = s.
Proof. induction s as [|c s IH]; simpl; congruence. Qed.

Lemma str_app_assoc a b c : (a +:+ b) +:+ c = a +:+ (b +:+ c).
Proof. induction a as [|x a IH]; simpl; congruence. Qed.

Lemma str_app_length a b : String.length (a +:+ b) = String.length a + String.length b.
Proof. induction a as [|x a IH]; simpl; congruence. Qed.

Lemma str_app_eq_app a b c d :
  a +:+ b = c +:+ d ->
  (exists m, c = a +:+ m /\ b = m +:+ d) \/ (exists m, a = c +:+ m /\ d = m +:+ b).
Proof.
  revert c. induction a as [|x a IH]; intros c H; simpl in H.
  - left. exists c. auto.
  - destruct c as [|y c]; simpl in H.
    + right. exists (String x a). simpl. auto.
    + injection H as -> H. destruct (IH _ H) as [[m [-> ->]]|[m [-> ->]]].
      * left. exists m. auto.
      * right. exists m. auto.
Qed.

Lemma startswith_spec p s : PyStr.startswith p s = true <-> exists r, s = p +:+ r.
Proof.
  revert s. induction p as [|x p IH]; intros s; simpl.
  - split; eauto.
  - destruct s as [|y s].
    + split; [discriminate | intros [r Hr]; discriminate].
    + destruct (Ascii.eqb_spec x y) as [->|Hne].
      * rewrite IH. split; intros [r Hr]; exists r; congruence.
      * split; [discriminate | intros [r Hr]; congruence].
Qed.

Lemma startswith_app p r : PyStr.startswith p (p +:+ r) = true.
Proof. apply startswith_spec. eauto. Qed.

Lemma contains_spec p s : PyStr.contains p s = true <-> occurs p s.
Proof.
  induction s as [|c s IH]; simpl.
  - destruct p as [|x p]; simpl; split.
    + intros _. exists "", "". reflexivity.
    + reflexivity.
    + discriminate.
    + intros (u & w & H). destruct u; discriminate.
  - rewrite orb_true_iff, IH, startswith_spec. split.
    + intros [[r Hr]|(u & w & Hs)].
      * exists "", r. exact Hr.
      * exists (String c u), w. rewrite Hs. reflexivity.
    + intros (a & b & H). destruct a as [|x a']; simpl in H.
      * left. eauto.
      * right. injection H as -> ->. exists a', b. reflexivity.
Qed.

Lemma replace_scan_skip pat v x s :
  PyStr.replace_scan pat v (String.length x) (x +:+ s) = PyStr.replace_scan pat v 0 s.
Proof.
  induction x as [|c x IH]; simpl.
  - destruct s; reflexivity.
  - exact IH.
Qed.

Lemma replace_nil pat v : pat <> "" -> PyStr.replace pat v "" = "".
Proof. destruct pat; [congruence | reflexivity]. Qed.

Lemma replace_here pat v s :
  pat <> "" -> PyStr.replace pat v (pat +:+ s) = v +:+ PyStr.replace pat v s.
Proof.
  intros Hne. destruct pat as [|c pat]; [congruence|].
  unfold PyStr.replace. simpl PyStr.is_empty. cbv iota.
  change (String c pat +:+ s) with (String c (pat +:+ s)).
  cbn [PyStr.replace_scan].
  change (String c (pat +:+ s)) with (String c pat +:+ s).
  rewrite startswith_app. f_equal.
  replace (String.length (String c pat) - 1) with (String.length pat)
    by (simpl; lia).
  apply replace_scan_skip.
Qed.

Lemma replace_next pat v c s :
  pat <> "" -> PyStr.startswith pat (String c s) = false ->
  PyStr.replace pat v (String c s) = String c (PyStr.replace pat v s).
Proof.
  intros Hne Hs. destruct pat as [|x pat]; [congruence|].
  unfold PyStr.replace. simpl PyStr.is_empty. cbv iota.
  cbn [PyStr.replace_scan]. rewrite Hs. reflexivity.
Qed.

Lemma replace_absent pat v s :
  PyStr.contains pat s = false -> PyStr.replace pat v s = s.
Proof.
  intros H. assert (Hne : pat <> "").
  { intros ->. destruct s; discriminate. }
  induction s as [|c s IH].
  - apply replace_nil, Hne.
  - simpl in H. apply orb_false_iff in H as [H1 H2].
    rewrite replace_next by assumption. f_equal. auto.
Qed.
End StringLemmas.

(* ================================================================== *)
(** * The token grammar: what [findall] and [search] find *)
(* ================================================================== *)

Section PatternLemmas.
Implicit Types s n r w : string.

Lemma token_app n r :
  token n +:+ r = String "{" (String "{" (n +:+ String "}" (String "}" r))).
Proof. unfold token. simpl. f_equal. f_equal. rewrite str_app_assoc. reflexivity. Qed.

Lemma span_word_spec s w r :
  Pattern.span_word s = (w, r) ->
  s = w +:+ r /\ all_word w = true /\
  match r with EmptyString => True | String c _ => Pattern.is_word_char c = false end.
Proof.
  revert w r. induction s as [|c s IH]; intros w r H; simpl in H.
  - injection H as <- <-. auto.
  - destruct (Pattern.is_word_char c) eqn:Hc.
    + destruct (Pattern.span_word s) as [w' r'] eqn:Hs. injection H as <- <-.
      destruct (IH _ _ eq_refl) as (-> & Hw & Hr). simpl. rewrite Hc. auto.
    + injection H as <- <-. simpl. auto.
Qed.

Lemma span_word_app w r :
  all_word w = true ->
  match r with EmptyString => True | String c _ => Pattern.is_word_char c = false end ->
  Pattern.span_word (w +:+ r) = (w, r).
Proof.
  intros Hw Hr. induction w as [|c w IH]; simpl in *.
  - destruct r as [|c r]; [reflexivity|]. simpl. rewrite Hr. reflexivity.
  - apply andb_true_iff in Hw as [Hc Hw]. rewrite Hc, IH by assumption. reflexivity.
Qed.

Lemma literal_spec lit s r : Pattern.literal lit s = Some r <-> s = lit +:+ r.
Proof.
  revert s. induction lit as [|a lit IH]; intros s; simpl.
  - split; congruence.
  - destruct s as [|b s]; [split; discriminate|].
    destruct (Ascii.eqb_spec a b) as [->|Hne].
    + rewrite IH. split; congruence.
    + split; [discriminate | congruence].
Qed.

Lemma match_here_spec s n r :
  Pattern.match_here s = Some (n, r) <-> is_name n = true /\ s = token n +:+ r.
Proof.
  unfold Pattern.match_here. split.
  - intros H.
    destruct (Pattern.literal "{{" s) as [s1|] eqn:H1; [|discriminate].
    apply literal_spec in H1 as ->. cbn [mbind option_bind] in H.
    destruct (Pattern.span_word s1) as [w s2] eqn:Hs.
    apply span_word_spec in Hs as (-> & Hw & _).
    destruct w as [|c w]; [discriminate|]. cbn [PyStr.is_empty] in H.
    destruct (Pattern.literal "}}" s2) as [s3|] eqn:H3; [|discriminate].
    apply literal_spec in H3 as ->. injection H as <- <-.
    split; [exact Hw | rewrite token_app; reflexivity].
  - intros [Hn ->]. unfold is_name in Hn. apply andb_true_iff in Hn as [Hne Hw].
    rewrite token_app.
    replace (Pattern.literal "{{" _) with (Some (n +:+ String "}" (String "}" r)))
      by (symmetry; apply literal_spec; reflexivity).
    cbn [mbind option_bind]. rewrite span_word_app by (auto; reflexivity).
    destruct n as [|c n]; [discriminate|]. cbn [PyStr.is_empty].
    replace (Pattern.literal "}}" _) with (Some r)
      by (symmetry; apply literal_spec; reflexivity).
    reflexivity.
Qed.

Lemma is_name_nonempty n : is_name n = true -> exists c n', n = String c n' /\ Pattern.is_word_char c = true.
Proof.
  destruct n as [|c n]; [discriminate|]. unfold is_name. simpl.
  intros H. apply andb_true_iff in H as [H _]. eauto.
Qed.

(** Aligning a word followed by the closing braces with a text that
    reaches an opening brace: the opening brace lies after the
    closing ones. *)
Lemma word_close_align w r a t :
  all_word w = true ->
  w +:+ String "}" (String "}" r) = a +:+ String "{" t ->
  exists a', a = w +:+ String "}" (String "}" a') /\ r = a' +:+ String "{" t.
Proof.
  intros Hw. revert a. induction w as [|c w IH]; intros a H; simpl in *.
  - destruct a as [|x a]; [discriminate|]. simpl in H. injection H as <- H.
    destruct a as [|y a]; [discriminate|]. simpl in H. injection H as <- H.
    exists a. auto.
  - apply andb_true_iff in Hw as [Hc Hw].
    destruct a as [|x a]; simpl in H.
    + injection H as -> _. discriminate.
    + injection H as <- H. destruct (IH Hw _ H) as (a' & -> & ->). eauto.
Qed.

(** Two tokens do not overlap: a token that begins after the first
    character of a token begins after its end. *)
Lemma token_no_overlap m r x a n b :
  is_name m = true ->
  token m +:+ r = String x a +:+ token n +:+ b ->
  exists a', String x a = token m +:+ a' /\ r = a' +:+ token n +:+ b.
Proof.
  intros Hm. rewrite !token_app. simpl. intros H. injection H as <- H.
  destruct (is_name_nonempty _ Hm) as (c & m' & -> & Hc).
  unfold is_name in Hm. apply andb_true_iff in Hm as [_ Hm].
  destruct a as [|y a]; simpl in H.
  - inversion H; subst. discriminate.
  - inversion H as [[Hy H']]. subst y.
    apply (word_close_align (String c m') r a) in H' as (a' & -> & ->); [|exact Hm].
    exists a'. split; [simpl; rewrite ?str_app_assoc; reflexivity | reflexivity].
Qed.

(** A text begins with at most one token. *)
Lemma token_prefix_unique m n r r' :
  is_name m = true -> is_name n = true ->
  token m +:+ r = token n +:+ r' -> m = n.
Proof.
  intros Hm Hn. rewrite !token_app. intros H. injection H as H.
  unfold is_name in *. apply andb_true_iff in Hm as [_ Hm].
  apply andb_true_iff in Hn as [_ Hn].
  revert n Hn H. induction m as [|c m IH]; intros n Hn H; simpl in *.
  - destruct n as [|d n]; [reflexivity|]. simpl in *. injection H as <- _.
    discriminate.
  - apply andb_true_iff in Hm as [Hc Hm].
    destruct n as [|d n]; simpl in *.
    + injection H as -> _. discriminate.
    + injection H as <- H. apply andb_true_iff in Hn as [_ Hn].
      f_equal. eauto.
Qed.

Lemma findall_scan_skip x s :
  Pattern.findall_scan (String.length x) (x +:+ s) = Pattern.findall_scan 0 s.
Proof.
  induction x as [|c x IH]; simpl.
  - destruct s; reflexivity.
  - exact IH.
Qed.

Lemma findall_scan_unfold c s :
  Pattern.findall_scan 0 (String c s) =
  match Pattern.match_here (String c s) with
  | Some (name, _) => name :: Pattern.findall_scan (String.length name + 3) s
  | None => Pattern.findall_scan 0 s
  end.
Proof. reflexivity. Qed.

Lemma findall_here s n r :
  Pattern.match_here s = Some (n, r) ->
  Pattern.findall s = n :: Pattern.findall r.
Proof.
  intros H. pose proof H as H'. apply match_here_spec in H' as [_ ->].
  unfold Pattern.findall. rewrite token_app in *.
  rewrite findall_scan_unfold, H. f_equal.
  assert (E : String "{" (n +:+ String "}" (String "}" r))
              = String "{" (n +:+ "}}") +:+ r)
    by (simpl; rewrite str_app_assoc; reflexivity).
  rewrite E.
  replace (String.length n + 3) with (String.length (String "{" (n +:+ "}}")))
    by (simpl; rewrite str_app_length; simpl; lia).
  apply findall_scan_skip.
Qed.

Lemma findall_next c s :
  Pattern.match_here (String c s) = None ->
  Pattern.findall (String c s) = Pattern.findall s.
Proof. intros H. unfold Pattern.findall. rewrite findall_scan_unfold, H. reflexivity. Qed.

(** [findall] returns exactly the names whose token occurs. *)
Lemma findall_spec s n :
  In n (Pattern.findall s) <-> is_name n = true /\ occurs (token n) s.
Proof.
  remember (String.length s) as k eqn:Hk.
  revert s Hk. induction k as [k IH] using lt_wf_ind. intros s ->.
  destruct s as [|c s].
  - split; [intros [] | intros [_ (a & b & H)]].
    destruct a; discriminate.
  - destruct (Pattern.match_here (String c s)) as [[m r]|] eqn:Hm.
    + rewrite (findall_here _ _ _ Hm).
      apply match_here_spec in Hm as [Hname Hs].
      assert (Hlen : String.length r < String.length (String c s)).
      { rewrite Hs, str_app_length. unfold token. simpl. lia. }
      specialize (IH _ Hlen r eq_refl). simpl. rewrite IH. split.
      * intros [<-|[Hn (a & b & ->)]].
        -- split; [exact Hname|]. exists "", r. exact Hs.
        -- split; [exact Hn|]. exists (token m +:+ a), b.
           rewrite Hs, str_app_assoc. reflexivity.
      * intros [Hn (a & b & Hab)]. rewrite Hs in Hab. destruct a as [|x a].
        -- left. exact (token_prefix_unique m n r b Hname Hn Hab).
        -- right. split; [exact Hn|].
           apply token_no_overlap in Hab as (a' & _ & ->); [|exact Hname].
           exists a', b. reflexivity.
    + rewrite (findall_next _ _ Hm).
      specialize (IH (String.length s) ltac:(simpl; lia) s eq_refl).
      rewrite IH. split.
      * intros [Hn (a & b & ->)]. split; [exact Hn|].
        exists (String c a), b. reflexivity.
      * intros [Hn (a & b & Hab)]. split; [exact Hn|]. destruct a as [|x a].
        -- simpl in Hab. assert (Pattern.match_here (String c s) = Some (n, b)) as Hc
             by (apply match_here_spec; auto).
           congruence.
        -- simpl in Hab. injection Hab as _ ->. exists a, b. reflexivity.
Qed.

Lemma search_spec s :
  Pattern.search s = true <-> exists n, is_name n = true /\ occurs (token n) s.
Proof.
  induction s as [|c s IH].
  - simpl. split; [discriminate|]. intros (n & _ & a & b & H).
    destruct a; discriminate.
  - cbn [Pattern.search].
    destruct (Pattern.match_here (String c s)) as [[m r]|] eqn:Hm.
    + apply match_here_spec in Hm as [Hname Hs]. split; [|reflexivity].
      intros _. exists m. split; [exact Hname|]. exists "", r. exact Hs.
    + rewrite IH. split.
      * intros (n & Hn & a & b & ->). exists n. split; [exact Hn|].
        exists (String c a), b. reflexivity.
      * intros (n & Hn & a & b & Hab). exists n. split; [exact Hn|].
        destruct a as [|x a]; simpl in Hab.
        -- assert (Pattern.match_here (String c s) = Some (n, b)) as Hc
             by (apply match_here_spec; auto).
           congruence.
        -- injection Hab as _ ->. exists a, b. reflexivity.
Qed.
End PatternLemmas.


(* ================================================================== *)
(** * The scanner *)
(* ================================================================== *)

Section Scanner.
Import Docx PlaceholderEngine Visit Examples.

Lemma scan_paragraphs_spec ps acc n :
  n ∈ scan_paragraphs ps acc <-> n ∈ acc \/ exists p, p ∈ ps /\ hit n p.
Proof.
  unfold scan_paragraphs. revert acc. induction ps as [|p ps IH]; intros acc; simpl.
  - split; [auto | intros [H|(p & Hp & _)]; [exact H | inversion Hp]].
  - rewrite IH, elem_of_union, elem_of_list_to_set, list_elem_of_In, findall_spec.
    split.
    + intros [[H|H]|(q & Hq & H)]; [auto | right; exists p | right; exists q];
        (split; [constructor; auto | exact H]).
    + intros [H|(q & Hq & H)]; [auto|]. inversion Hq; subst; [auto|].
      right. eauto.
Qed.

Lemma foldl_scan_spec {A : Type} (f : A -> gset string -> gset string)
      (g : A -> list Paragraph) :
  (forall x acc n, n ∈ f x acc <-> n ∈ acc \/ exists p, p ∈ g x /\ hit n p) ->
  forall l acc n,
    n ∈ foldl (fun acc x => f x acc) acc l <-> n ∈ acc \/ exists p, p ∈ l ≫= g /\ hit n p.
Proof.
  intros Hf l. induction l as [|x l IH]; intros acc n; simpl.
  - split; [auto | intros [H|(p & Hp & _)]; [exact H | inversion Hp]].
  - rewrite IH, Hf. setoid_rewrite elem_of_app. split.
    + intros [[H|(p & Hp & H)]|(p & Hp & H)]; eauto.
    + intros [H|(p & [Hp|Hp] & H)]; eauto.
Qed.

Lemma scan_table_spec t acc n :
  n ∈ scan_table t acc <-> n ∈ acc \/ exists p, p ∈ table_paragraphs t /\ hit n p.
Proof.
  unfold scan_table, table_paragraphs.
  apply (foldl_scan_spec
           (fun row acc => foldl (fun acc cell => scan_paragraphs (cell_paragraphs cell) acc)
                                 acc (row_cells row))
           (fun row => row_cells row ≫= cell_paragraphs)).
  intros row acc' n'.
  apply (foldl_scan_spec (fun cell acc => scan_paragraphs (cell_paragraphs cell) acc)
                         cell_paragraphs).
  intros cell acc'' n''. apply scan_paragraphs_spec.
Qed.

Lemma scan_section_spec s acc n :
  n ∈ scan_section s acc <-> n ∈ acc \/ exists p, p ∈ section_paragraphs s /\ hit n p.
Proof.
  unfold scan_section, section_paragraphs, part_paragraphs.
  setoid_rewrite elem_of_app.
  destruct (header s) as [h|], (footer s) as [f|];
    rewrite ?scan_paragraphs_spec; try setoid_rewrite elem_of_nil; naive_solver.
Qed.

Lemma match_here_not_open c s : c <> "{"%char -> Pattern.match_here (String c s) = None.
Proof.
  intros Hc. destruct (Pattern.match_here (String c s)) as [[n r]|] eqn:E; [|reflexivity].
  apply match_here_spec in E as [_ E]. rewrite token_app in E.
  injection E as E _. contradiction.
Qed.

Lemma word_not_open c : Pattern.is_word_char c = true -> c <> "{"%char.
Proof. intros H ->. vm_compute in H. discriminate. Qed.

Lemma findall_word w r : all_word w = true -> Pattern.findall (w +:+ r) = Pattern.findall r.
Proof.
  induction w as [|c w IH]; simpl; intros H; [reflexivity|].
  apply andb_true_iff in H as [Hc Hw].
  rewrite findall_next by (apply match_here_not_open, word_not_open, Hc).
  apply IH, Hw.
Qed.

Lemma findall_field_token key field :
  all_word key = true -> all_word field = true ->
  Pattern.findall (field_token key field) = [].
Proof.
  intros Hk Hf.
  assert (E : field_token key field
              = String "{" (String "{" (key +:+ String "." (field +:+ "}}")))).
  { unfold field_token. simpl. reflexivity. }
  rewrite E. clear E.
  rewrite findall_next.
  2: { destruct (Pattern.match_here _) as [[n r]|] eqn:E; [|reflexivity].
       apply match_here_spec in E as [Hn E]. rewrite token_app in E.
       injection E as E.
       unfold is_name in Hn. apply andb_true_iff in Hn as [_ Hn].
       assert (S1 := span_word_app key (String "." (field +:+ "}}")) Hk eq_refl).
       assert (S2 := span_word_app n (String "}" (String "}" r)) Hn eq_refl).
       rewrite E in S1. rewrite S1 in S2. discriminate S2. }
  rewrite findall_next.
  2: { destruct (Pattern.match_here _) as [[n r]|] eqn:E; [|reflexivity].
       apply match_here_spec in E as [_ E]. rewrite token_app in E.
       injection E as E. destruct key as [|c key]; [discriminate E|].
       simpl in Hk. apply andb_true_iff in Hk as [Hc _].
       injection E as -> _. vm_compute in Hc. discriminate Hc. }
  rewrite findall_word by exact Hk.
  rewrite findall_next by (apply match_here_not_open; discriminate).
  rewrite findall_word by exact Hf. reflexivity.
Qed.

(** C6, amended: the scanner returns exactly the names of the grammar
    whose token occurs in the text of a paragraph of the body, of a
    table cell, of a header or of a footer.  A nested field
    placeholder [{{key.field}}] matches no name: on its own it is
    reported under no name, its base name included. *)
Theorem find_all_placeholders_spec d :
  (forall n,
      n ∈ find_all_placeholders d <->
      is_name n = true
      /\ exists p, p ∈ scanned_paragraphs d /\ occurs (token n) (para_text p))
  /\ (forall key field,
        all_word key = true -> all_word field = true ->
        Pattern.findall (field_token key field) = []).
Proof.
  split; [intros n|exact findall_field_token].
  unfold find_all_placeholders, scanned_paragraphs.
  rewrite (foldl_scan_spec scan_section section_paragraphs scan_section_spec).
  rewrite (foldl_scan_spec scan_table table_paragraphs scan_table_spec).
  rewrite scan_paragraphs_spec. repeat setoid_rewrite elem_of_app. unfold hit.
  split.
  - intros [[[H|(p & Hp & Hn & H)]|(p & Hp & Hn & H)]|(p & Hp & Hn & H)];
      [set_solver | | | ]; (split; [exact Hn|]); exists p; auto.
  - intros (Hn & p & [Hp|[Hp|Hp]] & H); eauto 8.
Qed.

(** A document whose paragraph and table cell hold [{{rows.name}}]:
    the scanner reports nothing, [rows] included. *)
Lemma find_all_placeholders_counterexample :
  find_all_placeholders doc_nested = ∅
  /\ PyStr.contains "{{rows.name}}" (para_text (para "{{rows.name}}")) = true.
Proof. split; vm_compute; reflexivity. Qed.
End Scanner.

(* ================================================================== *)
(** * [replace] and tokens *)
(* ================================================================== *)

Section ReplaceLemmas.
Implicit Types s a b x y pat v : string.

Lemma str_app_inv_head a b c : a +:+ b = a +:+ c -> b = c.
Proof. induction a as [|x a IH]; simpl; [auto|]. intros H. injection H as H. auto. Qed.

Lemma str_app_inv_tail a b c : a +:+ c = b +:+ c -> a = b.
Proof.
  revert b. induction a as [|x a IH]; intros [|y b] H; simpl in H.
  - reflexivity.
  - exfalso. apply (f_equal String.length) in H. simpl in H.
    rewrite str_app_length in H. lia.
  - exfalso. apply (f_equal String.length) in H. simpl in H.
    rewrite str_app_length in H. lia.
  - injection H as -> H. f_equal. apply IH, H.
Qed.

Lemma token_nonempty n : token n <> "".
Proof. discriminate. Qed.

Lemma token_length n : String.length (token n) = String.length n + 4.
Proof. unfold token. simpl. rewrite str_app_length. simpl. lia. Qed.

Lemma startswith_false_app pat a x :
  PyStr.startswith pat (a +:+ x) = false -> PyStr.startswith pat a = false.
Proof.
  intros H. destruct (PyStr.startswith pat a) eqn:E; [|reflexivity].
  apply startswith_spec in E as [r ->].
  rewrite str_app_assoc, startswith_app in H. discriminate.
Qed.

(** A stretch [x] at which no occurrence of [pat] begins is copied. *)
Lemma replace_past pat v x b :
  pat <> "" ->
  (forall x1 c x2, x = x1 +:+ String c x2 ->
                   PyStr.startswith pat (String c x2 +:+ b) = false) ->
  PyStr.replace pat v (x +:+ b) = x +:+ PyStr.replace pat v b.
Proof.
  intros Hne. induction x as [|c x IH]; intros H; [reflexivity|]. simpl.
  rewrite replace_next; [|exact Hne|exact (H "" c x eq_refl)].
  f_equal. apply IH. intros x1 c' x2 ->. apply (H (String c x1) c' x2). reflexivity.
Qed.

(** A tail [x] that holds no occurrence of [pat] and into which no
    occurrence reaches is copied. *)
Lemma replace_before pat v a x :
  pat <> "" ->
  PyStr.contains pat x = false ->
  (forall a1 a2, a = a1 +:+ a2 -> PyStr.startswith pat (a2 +:+ x) = true ->
                 PyStr.startswith pat a2 = true) ->
  PyStr.replace pat v (a +:+ x) = PyStr.replace pat v a +:+ x.
Proof.
  intros Hne Hx. remember (String.length a) as k eqn:Hk. revert a Hk.
  induction k as [k IH] using lt_wf_ind. intros a -> H.
  destruct a as [|c a].
  - simpl. rewrite replace_nil by exact Hne. apply replace_absent, Hx.
  - destruct (PyStr.startswith pat (String c a +:+ x)) eqn:E.
    + pose proof (H "" (String c a) eq_refl E) as E'.
      apply startswith_spec in E' as [r Hr]. rewrite Hr, str_app_assoc.
      rewrite !replace_here by exact Hne. rewrite str_app_assoc. f_equal.
      apply (IH (String.length r)); [|reflexivity|].
      * rewrite Hr, str_app_length. destruct pat; [congruence|simpl; lia].
      * intros a1 a2 -> Ha. apply (H (pat +:+ a1) a2); [|exact Ha].
        rewrite Hr, str_app_assoc. reflexivity.
    + change (String c a +:+ x) with (String c (a +:+ x)) in *.
      rewrite replace_next by assumption.
      rewrite replace_next; [|exact Hne|exact (startswith_false_app _ (String c a) _ E)].
      simpl. f_equal. apply (IH (String.length a)); [simpl; lia|reflexivity|].
      intros a1 a2 -> Ha. apply (H (String c a1) a2); [reflexivity|exact Ha].
Qed.

Lemma token_prefix_eq m n r r' :
  is_name m = true -> is_name n = true ->
  token m +:+ r = token n +:+ r' -> m = n /\ r = r'.
Proof.
  intros Hm Hn H. pose proof (token_prefix_unique _ _ _ _ Hm Hn H) as ->.
  split; [reflexivity|]. eapply str_app_inv_head, H.
Qed.



End ReplaceLemmas.

(* ================================================================== *)
(** * The loop over the mapping *)
(* ================================================================== *)

Section EngineLemmas.
Import Docx PlaceholderEngine Visit Subst.
Implicit Types (data : list (string * string)) (t : string) (p : Paragraph).

Lemma for_count_spec {A : Type} (body : A -> A * nat) (xs : list A) :
  for_count body xs
  = ((fun x => (body x).1) <$> xs, sum_list ((fun x => (body x).2) <$> xs)).
Proof.
  induction xs as [|x xs IH]; simpl; [reflexivity|].
  rewrite IH. destruct (body x). reflexivity.
Qed.

Lemma substitute_acc data t c :
  substitute data t c = (subst data t, c + hits data t).
Proof.
  unfold subst, hits. revert t c.
  induction data as [|[k v] data IH]; intros t c; simpl.
  - f_equal. lia.
  - destruct (PyStr.contains (token k) t).
    + rewrite (IH _ (S c)), (IH _ 1). simpl. f_equal. lia.
    + apply IH.
Qed.

Lemma subst_nil t : subst [] t = t.
Proof. reflexivity. Qed.

Lemma subst_cons k v data t :
  subst ((k, v) :: data) t = subst data (PyStr.replace (token k) v t).
Proof.
  unfold subst. simpl. destruct (PyStr.contains (token k) t) eqn:E.
  - rewrite substitute_acc. reflexivity.
  - rewrite replace_absent by exact E. reflexivity.
Qed.

Lemma hits_cons k v data t :
  hits ((k, v) :: data) t
  = (if PyStr.contains (token k) t then 1 else 0)
    + hits data (PyStr.replace (token k) v t).
Proof.
  unfold hits. simpl. destruct (PyStr.contains (token k) t) eqn:E.
  - rewrite substitute_acc. reflexivity.
  - rewrite replace_absent by exact E. reflexivity.
Qed.

Lemma hits_le data t : hits data t <= length data.
Proof.
  revert t. induction data as [|[k v] data IH]; intros t; [reflexivity|].
  rewrite hits_cons. specialize (IH (PyStr.replace (token k) v t)).
  destruct (PyStr.contains (token k) t); simpl; lia.
Qed.

(** A text in which no token of the mapping occurs is left as it is. *)
Lemma subst_absent data t :
  Forall (fun kv => PyStr.contains (token kv.1) t = false) data ->
  subst data t = t /\ hits data t = 0.
Proof.
  induction 1 as [|[k v] data Hk _ IH]; [split; reflexivity|].
  simpl in Hk. rewrite subst_cons, hits_cons, Hk, replace_absent by exact Hk.
  exact IH.
Qed.

(** A text that changes held the token of an entry of the mapping. *)
Lemma subst_changed data t :
  subst data t <> t ->
  exists k v, (k, v) ∈ data /\ PyStr.contains (token k) t = true.
Proof.
  intros H. destruct (decide (Forall (fun kv => PyStr.contains (token kv.1) t = false) data))
    as [Hall|Hex].
  - destruct (subst_absent _ _ Hall). congruence.
  - apply not_Forall_Exists in Hex; [|intros kv; apply _].
    apply Exists_exists in Hex as ([k v] & Hin & Hc). simpl in Hc.
    exists k, v. split; [exact Hin|]. destruct (PyStr.contains (token k) t); congruence.
Qed.

Lemma search_false_absent k t :
  is_name k = true -> Pattern.search t = false -> PyStr.contains (token k) t = false.
Proof.
  intros Hk Hs. destruct (PyStr.contains (token k) t) eqn:E; [|reflexivity].
  apply contains_spec in E.
  assert (Pattern.search t = true) by (apply search_spec; eauto). congruence.
Qed.

Lemma subst_no_token data t :
  Forall (fun k => is_name k = true) data.*1 -> Pattern.search t = false ->
  subst data t = t /\ hits data t = 0.
Proof.
  intros Hn Hs. apply subst_absent. apply Forall_fmap in Hn.
  eapply Forall_impl; [exact Hn|]. intros [k v] Hk. simpl in *.
  apply search_false_absent; assumption.
Qed.

End EngineLemmas.

(* ================================================================== *)
(** * Substitution in runs and paragraphs *)
(* ================================================================== *)

Section ParagraphLemmas.
Import Docx PlaceholderEngine Visit Subst.
Implicit Types (data : list (string * string)) (t : string) (p : Paragraph).


Lemma concat_app l1 l2 : PyStr.concat (l1 ++ l2) = PyStr.concat l1 +:+ PyStr.concat l2.
Proof.
  unfold PyStr.concat. induction l1 as [|x l1 IH]; simpl; [reflexivity|].
  rewrite IH, str_app_assoc. reflexivity.
Qed.

Lemma occurs_concat pat x l : x ∈ l -> occurs pat x -> occurs pat (PyStr.concat l).
Proof.
  intros Hin (a & b & ->). apply list_elem_of_split in Hin as (l1 & l2 & ->).
  rewrite concat_app. exists (PyStr.concat l1 +:+ a), (b +:+ PyStr.concat l2).
  unfold PyStr.concat at 2. simpl. rewrite !str_app_assoc. reflexivity.
Qed.

Lemma search_run_of_paragraph p r :
  r ∈ para_runs p -> Pattern.search (para_text p) = false ->
  Pattern.search (run_text r) = false.
Proof.
  intros Hin Hp. destruct (Pattern.search (run_text r)) eqn:E; [|reflexivity].
  apply search_spec in E as (n & Hn & Ho).
  assert (Pattern.search (para_text p) = true); [|congruence].
  apply search_spec. exists n. split; [exact Hn|].
  apply occurs_concat with (x := run_text r); [|exact Ho].
  apply list_elem_of_fmap. eauto.
Qed.

Lemma run_set_text_same r : run_set_text (run_text r) r = r.
Proof. destruct r. reflexivity. Qed.

Lemma run_text_set t r : run_text (run_set_text t r) = t.
Proof. reflexivity. Qed.

Lemma replace_in_run_cases data r :
  replace_in_run data r = (r, 0)
  \/ replace_in_run data r = (run_subst data r, hits data (run_text r)).
Proof.
  unfold replace_in_run. destruct (Pattern.search (run_text r)); simpl; [right|left; reflexivity].
  rewrite substitute_acc. reflexivity.
Qed.

Lemma replace_in_run_names data r :
  names data ->
  replace_in_run data r = (run_subst data r, hits data (run_text r)).
Proof.
  intros Hn. unfold replace_in_run. destruct (Pattern.search (run_text r)) eqn:E; simpl.
  - rewrite substitute_acc. reflexivity.
  - destruct (subst_no_token _ _ Hn E) as [H1 H2]. unfold run_subst.
    rewrite H1, H2, run_set_text_same. reflexivity.
Qed.

Lemma replace_in_runs_names data p :
  names data ->
  _replace_in_runs p data
  = (mkParagraph (para_style p) (para_alignment p) (run_subst data <$> para_runs p),
     sum_list ((fun r => hits data (run_text r)) <$> para_runs p)).
Proof.
  intros Hn. unfold _replace_in_runs. rewrite for_count_spec. f_equal.
  - f_equal. apply list_fmap_ext. intros i r _. rewrite replace_in_run_names by exact Hn.
    reflexivity.
  - f_equal. apply list_fmap_ext. intros i r _. rewrite replace_in_run_names by exact Hn.
    reflexivity.
Qed.

Lemma para_text_set t p : para_text (para_set_text t p) = t.
Proof. unfold para_text, para_set_text, PyStr.concat. simpl. apply str_app_nil_r. Qed.

Lemma para_after_preserve data p :
  names data ->
  replace_in_paragraph data true p
  = (mkParagraph (para_style p) (para_alignment p) (run_subst data <$> para_runs p),
     sum_list ((fun r => hits data (run_text r)) <$> para_runs p)).
Proof.
  intros Hn. unfold replace_in_paragraph.
  destruct (Pattern.search (para_text p)) eqn:E; simpl.
  - apply replace_in_runs_names, Hn.
  - assert (H : forall r, r ∈ para_runs p ->
                          run_subst data r = r /\ hits data (run_text r) = 0).
    { intros r Hr. pose proof (search_run_of_paragraph _ _ Hr E) as Hs.
      destruct (subst_no_token _ _ Hn Hs) as [H1 H2]. unfold run_subst.
      rewrite H1, run_set_text_same. auto. }
    clear E. destruct p as [st al runs]. simpl in *. f_equal.
    + f_equal. induction runs as [|r runs IH]; [reflexivity|]. simpl.
      rewrite (proj1 (H r ltac:(left))). f_equal. apply IH.
      intros r' Hr'. apply H. right. exact Hr'.
    + induction runs as [|r runs IH]; [reflexivity|]. simpl.
      rewrite (proj2 (H r ltac:(left))). simpl. apply IH.
      intros r' Hr'. apply H. right. exact Hr'.
Qed.



Lemma para_count_preserve data p :
  names data ->
  para_count data true p = sum_list ((fun r => hits data (run_text r)) <$> para_runs p).
Proof. intros Hn. unfold para_count. rewrite para_after_preserve by exact Hn. reflexivity. Qed.

Lemma para_runs_preserve data p :
  names data -> para_runs (para_after data true p) = run_subst data <$> para_runs p.
Proof. intros Hn. unfold para_after. rewrite para_after_preserve by exact Hn. reflexivity. Qed.
End ParagraphLemmas.

(* ================================================================== *)
(** * Substitution over the document *)
(* ================================================================== *)

Section DocumentLemmas.
Import Docx PlaceholderEngine Visit Subst.
Implicit Types (data : list (string * string)) (body : list Elem).




Lemma paragraphs_put_tables ts body : paragraphs (put_tables ts body) = paragraphs body.
Proof.
  unfold paragraphs. revert ts. induction body as [|[i [p|t]] body IH]; intros ts; simpl.
  - reflexivity.
  - f_equal. apply IH.
  - destruct ts as [|t' ts]; simpl; [reflexivity|apply IH].
Qed.




















(** ** The parts made on access *)













(** ** The pass that follows the validation of [replace_all] *)


End DocumentLemmas.

(* ================================================================== *)
(** * Tokens cut between two texts *)
(* ================================================================== *)

Section SplitTokens.
Implicit Types s a b x y v k m : string.

(** No token of a name lies in, or reaches into, a proper prefix of
    a token of a name. *)
Lemma token_not_in_prefix k m x y :
  is_name k = true -> is_name m = true ->
  x +:+ y = token m -> y <> "" -> PyStr.contains (token k) x = false.
Proof.
  intros Hk Hm Hxy Hy. destruct (PyStr.contains (token k) x) eqn:E; [|reflexivity].
  exfalso. apply contains_spec in E as (u & w & ->).
  assert (H : token m +:+ "" = u +:+ token k +:+ (w +:+ y)).
  { rewrite str_app_nil_r, <- Hxy, !str_app_assoc. reflexivity. }
  apply (f_equal String.length) in Hxy. rewrite !str_app_length in Hxy.
  destruct u as [|c u].
  - apply token_prefix_eq in H as [-> H]; auto.
    symmetry in H. destruct w; [|discriminate]. simpl in H. congruence.
  - apply token_no_overlap in H as (a' & Ha & _); [|exact Hm].
    rewrite Ha, str_app_length in Hxy. rewrite (token_length k) in Hxy. lia.
Qed.

Lemma token_not_into_prefix k m a2 x y :
  is_name k = true -> is_name m = true ->
  x +:+ y = token m -> y <> "" ->
  PyStr.startswith (token k) (a2 +:+ x) = true -> PyStr.startswith (token k) a2 = true.
Proof.
  intros Hk Hm Hxy Hy H. apply startswith_spec in H as [r Hr].
  symmetry in Hr. apply str_app_eq_app in Hr as [(z & -> & Hx)|(z & Hk' & ->)].
  - apply startswith_app.
  - (* the token of [k] ends inside [x] *)
    destruct z as [|c z]; [rewrite str_app_nil_r in Hk'; subst a2; rewrite <- (str_app_nil_r (token k)) at 2; apply startswith_app|].
    exfalso.
    assert (H : token k +:+ (r +:+ y) = a2 +:+ token m +:+ "").
    { rewrite str_app_nil_r, <- Hxy, Hk', !str_app_assoc. reflexivity. }
    apply (f_equal String.length) in Hk'. rewrite str_app_length in Hk'. simpl in Hk'.
    destruct a2 as [|d a2].
    + apply token_prefix_eq in H as [_ H]; auto.
      destruct r; simpl in H; [congruence|discriminate].
    + apply token_no_overlap in H as (a' & Ha & _); [|exact Hk].
      apply (f_equal String.length) in Ha. rewrite str_app_length in Ha.
      simpl in *. lia.
Qed.

(** A proper prefix of a token at the end of a text stays there. *)
Lemma replace_keeps_prefix k m v a x y :
  is_name k = true -> is_name m = true ->
  x +:+ y = token m -> y <> "" ->
  PyStr.replace (token k) v (a +:+ x) = PyStr.replace (token k) v a +:+ x.
Proof.
  intros Hk Hm Hxy Hy. apply replace_before.
  - apply token_nonempty.
  - eapply token_not_in_prefix; eauto.
  - intros a1 a2 _. eapply token_not_into_prefix; eauto.
Qed.

(** A proper suffix of a token at the head of a text stays there. *)
Lemma replace_keeps_suffix k m v b x y :
  is_name k = true -> is_name m = true ->
  x +:+ y = token m -> x <> "" ->
  PyStr.replace (token k) v (y +:+ b) = y +:+ PyStr.replace (token k) v b.
Proof.
  intros Hk Hm Hxy Hx. apply replace_past; [apply token_nonempty|].
  intros y1 c y2 Hy. destruct (PyStr.startswith _ _) eqn:E; [|reflexivity].
  exfalso. apply startswith_spec in E as [r Hr].
  assert (H : token m +:+ b = (x +:+ y1) +:+ token k +:+ r).
  { rewrite <- Hxy, Hy, !str_app_assoc, Hr. reflexivity. }
  apply (f_equal String.length) in Hxy. rewrite Hy, !str_app_length in Hxy. simpl in Hxy.
  destruct (x +:+ y1) as [|d z] eqn:Ez.
  - destruct x; [congruence|discriminate].
  - apply token_no_overlap in H as (a' & Ha & _); [|exact Hm].
    apply (f_equal String.length) in Ez, Ha. rewrite !str_app_length in *.
    simpl in *. rewrite ?str_app_length in *. simpl in *. lia.
Qed.
End SplitTokens.

Section SplitSubst.
Import PlaceholderEngine Subst.

Lemma subst_keeps_prefix data m a x y :
  names data -> is_name m = true -> x +:+ y = token m -> y <> "" ->
  exists a', subst data (a +:+ x) = a' +:+ x.
Proof.
  revert a. induction data as [|[k v] data IH]; intros a Hn Hm Hxy Hy.
  - exists a. reflexivity.
  - unfold names in Hn. simpl in Hn. apply Forall_cons in Hn as [Hk Hn].
    rewrite subst_cons, (replace_keeps_prefix k m v a x y) by assumption.
    apply IH; assumption.
Qed.

Lemma subst_keeps_suffix data m b x y :
  names data -> is_name m = true -> x +:+ y = token m -> x <> "" ->
  exists b', subst data (y +:+ b) = y +:+ b'.
Proof.
  revert b. induction data as [|[k v] data IH]; intros b Hn Hm Hxy Hx.
  - exists b. reflexivity.
  - unfold names in Hn. simpl in Hn. apply Forall_cons in Hn as [Hk Hn].
    rewrite subst_cons, (replace_keeps_suffix k m v b x y) by assumption.
    apply IH; assumption.
Qed.
End SplitSubst.

(* ================================================================== *)
(** * The loop over the mapping and [str.replace] *)
(* ================================================================== *)

Section ReplacedLemmas.
Import PlaceholderEngine Subst.
Implicit Types (data : list (string * string)) (t a b v k : string).



Lemma plain_app a b : plain (a +:+ b) = plain a && plain b.
Proof.
  induction a as [|c a IH]; simpl; [reflexivity|]. rewrite IH, andb_assoc. reflexivity.
Qed.

Lemma plain_no_token k t : plain t = true -> PyStr.contains (token k) t = false.
Proof.
  intros H. destruct (PyStr.contains (token k) t) eqn:E; [|reflexivity].
  apply contains_spec in E as (a & b & ->).
  rewrite plain_app, plain_app in H. simpl in H.
  rewrite andb_false_r in H. discriminate.
Qed.


Lemma replace_past_plain k v a t :
  plain a = true -> PyStr.replace (token k) v (a +:+ t) = a +:+ PyStr.replace (token k) v t.
Proof.
  intros H. apply replace_past; [apply token_nonempty|].
  intros x1 c x2 ->. rewrite plain_app in H. apply andb_true_iff in H as [_ H].
  change (PyStr.startswith (token k) (String c x2 +:+ t))
    with (if Ascii.eqb "{"%char c
          then PyStr.startswith (String "{" (k +:+ "}}")) (x2 +:+ t) else false).
  destruct (Ascii.eqb_spec "{"%char c) as [<-|_]; [discriminate|reflexivity].
Qed.

End ReplacedLemmas.

(* ================================================================== *)
(** * [PlaceholderEngine.replace_all] *)
(* ================================================================== *)

Section EngineTheorems.
Import Docx PlaceholderEngine Visit Subst Examples.





(** C4: what [replace_all] returns for a run that holds the same token
    twice.  Both occurrences of the token of [a] are replaced and the
    count returned is 1: [_replace_in_runs] adds one for a key whose
    token is in the run, however many times it is there. *)
Lemma replace_all_count_once :
  replace_all doc_twice data_twice false true
  = (doc_of [(0, P (para "x and x"))], inr 1).
Proof. vm_compute. reflexivity. Qed.

(** C5: substitution that preserves the format works run by run.
    [_replace_in_runs] keeps the style and alignment of the paragraph
    and the formatting record of every run; a run whose text changes
    held the whole token of a key of the mapping; with keys that are
    names every run has its own text taken through the loop over the
    mapping; and a token cut between two adjacent runs is still cut
    between them afterwards, both halves in place. *)
Theorem replace_in_runs_granular para data :
  let para' := (_replace_in_runs para data).1 in
  para_style para' = para_style para
  /\ para_alignment para' = para_alignment para
  /\ run_format <$> para_runs para' = run_format <$> para_runs para
  /\ (forall i r r',
        para_runs para !! i = Some r -> para_runs para' !! i = Some r' ->
        run_text r' <> run_text r ->
        exists k v, (k, v) ∈ data /\ occurs (token k) (run_text r))
  /\ (names data ->
      para_runs para' = (fun r => run_set_text (subst data (run_text r)) r) <$> para_runs para)
  /\ (forall m x y a b i r1 r2,
        names data -> is_name m = true ->
        x +:+ y = token m -> x <> "" -> y <> "" ->
        para_runs para !! i = Some r1 -> para_runs para !! S i = Some r2 ->
        run_text r1 = a +:+ x -> run_text r2 = y +:+ b ->
        exists r1' r2' a' b',
          para_runs para' !! i = Some r1' /\ para_runs para' !! S i = Some r2'
          /\ run_text r1' = a' +:+ x /\ run_text r2' = y +:+ b').
Proof.
  assert (Hruns : para_runs (_replace_in_runs para data).1
                  = (fun r => (replace_in_run data r).1) <$> para_runs para).
  { unfold _replace_in_runs. rewrite for_count_spec. reflexivity. }
  cbv zeta. split; [|split; [|split; [|split; [|split]]]].
  - unfold _replace_in_runs. destruct (for_count _ _). reflexivity.
  - unfold _replace_in_runs. destruct (for_count _ _). reflexivity.
  - rewrite Hruns, <- list_fmap_compose. apply list_fmap_ext. intros i r _. simpl.
    destruct (replace_in_run_cases data r) as [-> | ->]; reflexivity.
  - intros i r r' Hi Hi' Hne. rewrite Hruns, list_lookup_fmap, Hi in Hi'.
    injection Hi' as <-.
    destruct (replace_in_run_cases data r) as [E | E]; rewrite E in Hne; simpl in Hne;
      [congruence|].
    apply subst_changed in Hne as (k & v & Hin & Hc).
    exists k, v. split; [exact Hin|]. apply contains_spec, Hc.
  - intros Hn. rewrite Hruns. apply list_fmap_ext. intros i r _.
    rewrite replace_in_run_names by exact Hn. reflexivity.
  - intros m x y a b i r1 r2 Hn Hm Hxy Hx Hy H1 H2 T1 T2.
    destruct (subst_keeps_prefix data m a x y Hn Hm Hxy Hy) as [a' Ha].
    destruct (subst_keeps_suffix data m b x y Hn Hm Hxy Hx) as [b' Hb].
    exists (run_subst data r1), (run_subst data r2), a', b'.
    rewrite Hruns, !list_lookup_fmap, H1, H2. simpl.
    rewrite !replace_in_run_names by exact Hn. simpl.
    rewrite T1, T2, Ha, Hb. auto.
Qed.

(** [{{name}}] cut by a change of formatting stays as it is although
    the mapping has a value for [name]. *)
Lemma replace_in_runs_granular_witness :
  exists r1' r2' a' b',
    para_runs (_replace_in_runs para_split data_hello).1 !! 0 = Some r1'
    /\ para_runs (_replace_in_runs para_split data_hello).1 !! 1 = Some r2'
    /\ run_text r1' = a' +:+ "{{na" /\ run_text r2' = "me}}" +:+ b'.
Proof.
  apply (proj2 (proj2 (proj2 (proj2 (proj2
           (replace_in_runs_granular para_split data_hello)))))
           "name" "{{na" "me}}" "Dear " "," 0
           (mkRun "Dear {{na" no_format) (mkRun "me}}," bold_format));
    try reflexivity; try discriminate.
  repeat constructor.
Defined.
End EngineTheorems.

(* ================================================================== *)
(** * Image replacement: success *)
(* ================================================================== *)

Section ImageLemmas.
Import Docx ImageReplacer Media CacheFacts Examples.
Implicit Types (fs : FileSystem) (d : Document).

Lemma py_index_nonneg {A : Type} (l : list A) (i : Z) (x : A) :
  (0 <= i)%Z -> l !! Z.to_nat i = Some x -> py_index l i = inr x.
Proof.
  intros Hi Hx. unfold py_index.
  destruct (i <? 0)%Z eqn:E; [apply Z.ltb_lt in E; lia|].
  rewrite E, Hx. reflexivity.
Qed.

Lemma py_index_in_range {A : Type} (l : list A) (i : Z) :
  (0 <= i < Z.of_nat (length l))%Z -> exists x, l !! Z.to_nat i = Some x /\ py_index l i = inr x.
Proof.
  intros Hi. destruct (lookup_lt_is_Some_2 l (Z.to_nat i)) as [x Hx]; [lia|].
  exists x. split; [exact Hx|]. apply py_index_nonneg; [lia|exact Hx].
Qed.

Lemma py_index_lookup {A : Type} (l : list A) (i : Z) :
  (0 <= i)%Z ->
  (Z.of_nat (length l) <=? i)%Z = false ->
  exists x, l !! Z.to_nat i = Some x /\ py_index l i = inr x.
Proof. intros Hi Hl. apply Z.leb_gt in Hl. apply py_index_in_range. lia. Qed.

Lemma lookup_out_of_range {A : Type} (l : list A) (i : Z) :
  (0 <= i)%Z -> (Z.of_nat (length l) <=? i)%Z = true -> l !! Z.to_nat i = None.
Proof. intros Hi Hl. apply Z.leb_le in Hl. apply lookup_ge_None. lia. Qed.

Lemma exists_missing fs path : exists_ fs path = false <-> fs path = Missing.
Proof. unfold exists_. destruct (fs path); split; congruence. Qed.

(** ** The last steps of a replace *)

Lemma swap_blob_readable fs path rel d data :
  fs path = Readable data ->
  swap_blob fs path rel d
  = (with_blob data rel d, if recognised path then inl AttributeError else inr true).
Proof.
  unfold swap_blob, with_blob, recognised, _update_content_type. intros ->.
  destruct (assoc _ _); reflexivity.
Qed.

Lemma swap_blob_true fs path rel d d' :
  swap_blob fs path rel d = (d', inr true) ->
  exists data, fs path = Readable data /\ recognised path = false
               /\ d' = with_blob data rel d.
Proof.
  destruct (fs path) as [| |data] eqn:Hfs.
  - unfold swap_blob. rewrite Hfs. discriminate.
  - unfold swap_blob. rewrite Hfs. discriminate.
  - rewrite (swap_blob_readable _ _ _ _ _ Hfs).
    destruct (recognised path); [discriminate|].
    intros H. injection H as <-. eauto.
Qed.

Lemma swap_blob_not_false fs path rel d d' : swap_blob fs path rel d <> (d', inr false).
Proof.
  destruct (fs path) as [| |data] eqn:Hfs.
  - unfold swap_blob. rewrite Hfs. discriminate.
  - unfold swap_blob. rewrite Hfs. discriminate.
  - rewrite (swap_blob_readable _ _ _ _ _ Hfs). destruct (recognised path); discriminate.
Qed.

Lemma with_blob_only data rel d :
  only_entry_changed d (with_blob data rel d) (target_part rel) (new_part data).
Proof.
  unfold with_blob. repeat split; simpl.
  - apply lookup_alter_eq.
  - intros k Hk. apply lookup_alter_ne. congruence.
Qed.

Lemma media_only_refl d : media_only d d.
Proof. unfold media_only. auto. Qed.

Lemma media_only_trans d1 d2 d3 :
  media_only d1 d2 -> media_only d2 d3 -> media_only d1 d3.
Proof. unfold media_only. intros (?&?&?&?&?) (?&?&?&?&?). repeat split; congruence. Qed.

Lemma swap_blob_media_only fs path rel d : media_only d (swap_blob fs path rel d).1.
Proof.
  unfold swap_blob. destruct (fs path); try apply media_only_refl.
  unfold media_only. simpl. repeat split. apply dom_alter_L.
Qed.

Lemma replace_part_image_media_only fs part path idx d :
  media_only d (replace_part_image fs part path idx d).1.
Proof.
  unfold replace_part_image. destruct part as [hf|]; [|apply media_only_refl].
  destruct (_ <=? _)%Z; [apply media_only_refl|].
  destruct (py_index _ _) as [e|[rid rel]]; [apply media_only_refl|].
  apply swap_blob_media_only.
Qed.

Lemma replace_header_image_media_only fs d sidx path idx :
  media_only d (replace_header_image fs d sidx path idx).1.
Proof.
  unfold replace_header_image.
  destruct (_ <=? _)%Z; [apply media_only_refl|].
  destruct (negb _); [apply media_only_refl|].
  destruct (py_index _ _); [apply media_only_refl|apply replace_part_image_media_only].
Qed.

Lemma replace_footer_image_media_only fs d sidx path idx :
  media_only d (replace_footer_image fs d sidx path idx).1.
Proof.
  unfold replace_footer_image.
  destruct (_ <=? _)%Z; [apply media_only_refl|].
  destruct (negb _); [apply media_only_refl|].
  destruct (py_index _ _); [apply media_only_refl|apply replace_part_image_media_only].
Qed.

Lemma replace_body_image_media_only fs d idx path :
  media_only d (replace_body_image_by_index fs d idx path).1.
Proof.
  unfold replace_body_image_by_index.
  destruct (negb _); [apply media_only_refl|].
  destruct (_ <=? _)%Z; [apply media_only_refl|].
  destruct (py_index _ _) as [e|[rid rel]]; [apply media_only_refl|].
  apply swap_blob_media_only.
Qed.

(** ** A replace that returns [True] *)

Lemma replace_part_image_true fs part path idx d d' :
  replace_part_image fs part path idx d = (d', inr true) ->
  exists hf rid rel data,
    part = Some hf /\ py_index (image_rels (hf_rels hf)) idx = inr (rid, rel)
    /\ fs path = Readable data /\ recognised path = false
    /\ d' = with_blob data rel d.
Proof.
  destruct part as [hf|]; simpl; [|discriminate].
  destruct (_ <=? idx)%Z; [discriminate|].
  destruct (py_index _ idx) as [e|[rid rel]] eqn:E; [discriminate|].
  intros H. apply swap_blob_true in H as (data & Hfs & Hrec & ->). eauto 10.
Qed.

Lemma replace_header_image_true fs d sidx path idx d' :
  replace_header_image fs d sidx path idx = (d', inr true) ->
  exists section hf rid rel data,
    py_index (doc_sections d) sidx = inr section /\ header section = Some hf
    /\ py_index (image_rels (hf_rels hf)) idx = inr (rid, rel)
    /\ fs path = Readable data /\ recognised path = false
    /\ d' = with_blob data rel d.
Proof.
  unfold replace_header_image.
  destruct (_ <=? sidx)%Z; [discriminate|]. destruct (negb _); [discriminate|].
  destruct (py_index _ sidx) as [e|section] eqn:E; [discriminate|].
  intros H. apply replace_part_image_true in H as (hf & rid & rel & data & H). 
  destruct H as (H1 & H2 & H3 & H4 & H5). exists section, hf, rid, rel, data. auto 10.
Qed.

Lemma replace_footer_image_true fs d sidx path idx d' :
  replace_footer_image fs d sidx path idx = (d', inr true) ->
  exists section hf rid rel data,
    py_index (doc_sections d) sidx = inr section /\ footer section = Some hf
    /\ py_index (image_rels (hf_rels hf)) idx = inr (rid, rel)
    /\ fs path = Readable data /\ recognised path = false
    /\ d' = with_blob data rel d.
Proof.
  unfold replace_footer_image.
  destruct (_ <=? sidx)%Z; [discriminate|]. destruct (negb _); [discriminate|].
  destruct (py_index _ sidx) as [e|section] eqn:E; [discriminate|].
  intros H. apply replace_part_image_true in H as (hf & rid & rel & data & H). 
  destruct H as (H1 & H2 & H3 & H4 & H5). exists section, hf, rid, rel, data. auto 10.
Qed.

Lemma replace_body_image_true fs d idx path d' :
  replace_body_image_by_index fs d idx path = (d', inr true) ->
  exists rid rel data,
    py_index (image_rels (doc_rels d)) idx = inr (rid, rel)
    /\ fs path = Readable data /\ recognised path = false
    /\ d' = with_blob data rel d.
Proof.
  unfold replace_body_image_by_index.
  destruct (negb _); [discriminate|]. destruct (_ <=? idx)%Z; [discriminate|].
  destruct (py_index _ idx) as [e|[rid rel]] eqn:E; [discriminate|].
  intros H. apply swap_blob_true in H as (data & Hfs & Hrec & ->). eauto 10.
Qed.

(** ** The replace operations by what location and index resolve to *)

Lemma replace_part_image_eq fs part path idx d :
  (0 <= idx)%Z ->
  replace_part_image fs part path idx d
  = match part_image_rel part idx with
    | Some rel => swap_blob fs path rel d
    | None => (d, inr false)
    end.
Proof.
  intros Hi. unfold replace_part_image, part_image_rel, image_rel.
  destruct part as [hf|]; simpl; [|reflexivity].
  destruct (idx <? 0)%Z eqn:Hneg; [apply Z.ltb_lt in Hneg; lia|].
  destruct (_ <=? idx)%Z eqn:Hle.
  - rewrite (lookup_out_of_range _ _ Hi Hle). reflexivity.
  - destruct (py_index_lookup _ _ Hi Hle) as ([rid rel] & Hl & ->). rewrite Hl. reflexivity.
Qed.

Lemma replace_section_image_eq fs d (get : Section -> option HeaderFooter) sidx path idx :
  (0 <= sidx)%Z -> (0 <= idx)%Z ->
  (if (Z.of_nat (length (doc_sections d)) <=? sidx)%Z then (d, mret false)
   else if negb (exists_ fs path) then (d, mret false)
        else match py_index (doc_sections d) sidx with
             | inl e => (d, raise e)
             | inr section => replace_part_image fs (get section) path idx d
             end)
  = match part_image_rel (doc_sections d !! Z.to_nat sidx ≫= get) idx with
    | Some rel => if exists_ fs path then swap_blob fs path rel d else (d, inr false)
    | None => (d, inr false)
    end.
Proof.
  intros Hs Hi. destruct (_ <=? sidx)%Z eqn:Hle.
  - rewrite (lookup_out_of_range _ _ Hs Hle). reflexivity.
  - destruct (py_index_lookup _ _ Hs Hle) as (section & Hl & ->). rewrite Hl. simpl.
    destruct (exists_ fs path); simpl.
    + apply replace_part_image_eq, Hi.
    + destruct (part_image_rel (get section) idx); reflexivity.
Qed.

Lemma replace_header_image_eq fs d sidx path idx :
  (0 <= sidx)%Z -> (0 <= idx)%Z ->
  replace_header_image fs d sidx path idx
  = match part_image_rel (header_of d sidx) idx with
    | Some rel => if exists_ fs path then swap_blob fs path rel d else (d, inr false)
    | None => (d, inr false)
    end.
Proof.
  intros Hs Hi. unfold header_of.
  destruct (sidx <? 0)%Z eqn:Hneg; [apply Z.ltb_lt in Hneg; lia|].
  apply (replace_section_image_eq fs d header); assumption.
Qed.

Lemma replace_footer_image_eq fs d sidx path idx :
  (0 <= sidx)%Z -> (0 <= idx)%Z ->
  replace_footer_image fs d sidx path idx
  = match part_image_rel (footer_of d sidx) idx with
    | Some rel => if exists_ fs path then swap_blob fs path rel d else (d, inr false)
    | None => (d, inr false)
    end.
Proof.
  intros Hs Hi. unfold footer_of.
  destruct (sidx <? 0)%Z eqn:Hneg; [apply Z.ltb_lt in Hneg; lia|].
  apply (replace_section_image_eq fs d footer); assumption.
Qed.

Lemma replace_body_image_eq fs d idx path :
  (0 <= idx)%Z ->
  replace_body_image_by_index fs d idx path
  = match image_rel (doc_rels d) idx with
    | Some rel => if exists_ fs path then swap_blob fs path rel d else (d, inr false)
    | None => (d, inr false)
    end.
Proof.
  intros Hi. unfold replace_body_image_by_index.
  pose proof (replace_part_image_eq fs (Some (mkHeaderFooter "" [] (doc_rels d) []))
                                    path idx d Hi) as H.
  unfold replace_part_image, part_image_rel in H. simpl in H.
  destruct (exists_ fs path); simpl; [exact H|].
  destruct (image_rel (doc_rels d) idx); reflexivity.
Qed.

(** The three cases of a replace whose indices are not negative:
    what does not resolve and the file that is not there give
    [False] on the same document, only they give [False], and a
    readable file with an extension the content type table does not
    have gives [True] on the document with the new bytes. *)
Lemma replace_cases fs d path (target : option Rel) (call : Document * result bool) :
  call = match target with
         | Some rel => if exists_ fs path then swap_blob fs path rel d else (d, inr false)
         | None => (d, inr false)
         end ->
  (target = None \/ fs path = Missing -> call = (d, inr false))
  /\ (forall d', call = (d', inr false) ->
                 d' = d /\ (target = None \/ fs path = Missing))
  /\ (forall rel data,
        target = Some rel -> fs path = Readable data -> recognised path = false ->
        call = (with_blob data rel d, inr true)).
Proof.
  intros ->. split; [|split].
  - intros [->|Hm]; [reflexivity|].
    apply exists_missing in Hm. rewrite Hm. destruct target; reflexivity.
  - intros d' H. destruct target as [rel|].
    + destruct (exists_ fs path) eqn:He.
      * exfalso. exact (swap_blob_not_false _ _ _ _ _ H).
      * injection H as <-. split; [reflexivity|]. right. apply exists_missing, He.
    + injection H as <-. auto.
  - intros rel data -> Hfs Hrec.
    assert (He : exists_ fs path = true) by (unfold exists_; rewrite Hfs; reflexivity).
    rewrite He, (swap_blob_readable _ _ _ _ _ Hfs), Hrec. reflexivity.
Qed.

(** C7: a replace changes the content of one media entry and nothing
    else.  When a replace in the body, in a header or in a footer
    returns [True], the location and index resolved to an image
    relationship, the file was read, and between the two documents
    only the media entry that relationship targets differs: body,
    sections, relationships and drawing elements (reference, inline
    or anchored, extent, offset, wrapping) are the same.  The entry
    has the bytes of the file; its content type is the one it had,
    and the extension of the file is none of the content type table.
    A body index that names an image relationship and a readable file
    with such an extension do succeed.  Whatever a replace returns or
    raises, body, sections, relationships and drawing elements are
    the same after it and no media entry has come or gone. *)
Theorem replace_image_pure fs d path :
  (forall idx d',
      replace_body_image_by_index fs d idx path = (d', inr true) ->
      exists rid rel data,
        py_index (image_rels (doc_rels d)) idx = inr (rid, rel)
        /\ fs path = Readable data /\ recognised path = false
        /\ only_entry_changed d d' (target_part rel) (new_part data))
  /\ (forall sidx idx d',
        replace_header_image fs d sidx path idx = (d', inr true) ->
        exists section hf rid rel data,
          py_index (doc_sections d) sidx = inr section /\ header section = Some hf
          /\ py_index (image_rels (hf_rels hf)) idx = inr (rid, rel)
          /\ fs path = Readable data /\ recognised path = false
          /\ only_entry_changed d d' (target_part rel) (new_part data))
  /\ (forall sidx idx d',
        replace_footer_image fs d sidx path idx = (d', inr true) ->
        exists section hf rid rel data,
          py_index (doc_sections d) sidx = inr section /\ footer section = Some hf
          /\ py_index (image_rels (hf_rels hf)) idx = inr (rid, rel)
          /\ fs path = Readable data /\ recognised path = false
          /\ only_entry_changed d d' (target_part rel) (new_part data))
  /\ (forall data part,
        blob (new_part data part) = data
        /\ content_type (new_part data part) = content_type part)
  /\ (forall idx rel data,
        image_rel (doc_rels d) idx = Some rel -> fs path = Readable data ->
        recognised path = false ->
        replace_body_image_by_index fs d idx path = (with_blob data rel d, inr true))
  /\ (forall sidx idx,
        media_only d (replace_body_image_by_index fs d idx path).1
        /\ media_only d (replace_header_image fs d sidx path idx).1
        /\ media_only d (replace_footer_image fs d sidx path idx).1).
Proof.
  split; [|split; [|split; [|split; [|split]]]].
  - intros idx d' H.
    apply replace_body_image_true in H as (rid & rel & data & H1 & H2 & H3 & ->).
    exists rid, rel, data. auto using with_blob_only.
  - intros sidx idx d' H.
    apply replace_header_image_true in H
      as (section & hf & rid & rel & data & H0 & H1 & H2 & H3 & H4 & ->).
    exists section, hf, rid, rel, data. auto 10 using with_blob_only.
  - intros sidx idx d' H.
    apply replace_footer_image_true in H
      as (section & hf & rid & rel & data & H0 & H1 & H2 & H3 & H4 & ->).
    exists section, hf, rid, rel, data. auto 10 using with_blob_only.
  - intros data part. split; reflexivity.
  - intros idx rel data Hrel Hfs Hrec.
    assert (Hi : (0 <= idx)%Z).
    { unfold image_rel in Hrel. destruct (idx <? 0)%Z eqn:E; [discriminate|].
      apply Z.ltb_ge in E. exact E. }
    apply (replace_cases fs d path (image_rel (doc_rels d) idx));
      [apply replace_body_image_eq, Hi|assumption..].
  - intros sidx idx. split; [|split].
    + apply replace_body_image_media_only.
    + apply replace_header_image_media_only.
    + apply replace_footer_image_media_only.
Qed.

(** The body image of the example takes the bytes of [logo.webp] and
    stays a PNG for the package; the anchored drawing element and
    all the rest stay. *)
Lemma replace_image_pure_witness :
  only_entry_changed doc_images
    (replace_body_image_by_index files doc_images 0 "logo.webp").1
    "/word/media/image1.png" (new_part "WEBP")
  /\ new_part "WEBP" (mkImagePart "OLD1" "image/png") = mkImagePart "WEBP" "image/png"
  /\ doc_drawings (replace_body_image_by_index files doc_images 0 "logo.webp").1
     = [mkDrawing "rId2" false (Some (1, 2)%Z) (Some (3, 4)%Z) (Some "square")].
Proof.
  split; [|split; vm_compute; reflexivity].
  destruct (proj1 (replace_image_pure files doc_images "logo.webp") 0%Z
              (replace_body_image_by_index files doc_images 0 "logo.webp").1)
    as (rid & rel & data & H1 & H2 & _ & H3).
  - vm_compute. reflexivity.
  - vm_compute in H1, H2. injection H1 as <- <-. injection H2 as <-. exact H3.
Defined.
End ImageLemmas.

(* ================================================================== *)
(** * Image replacement: failure *)
(* ================================================================== *)

Section ImageFailure.
Import Docx ImageReplacer Media Examples.
Implicit Types (fs : FileSystem) (d : Document).

(** C8, amended: how one replace fails.  With indices that are not
    negative, a replace in a header, a footer or the body returns
    [False] on the same document when the section, its header or
    footer, or the image index does not resolve or when the file is
    not there, and returns [False] in these cases only.  An extension
    the content type table does not have is no failure: with a file
    that can be read the media entry takes the bytes of the file,
    keeps its content type, and the replace returns [True]. *)
Theorem replace_image_failure fs d path :
  (forall sidx idx, (0 <= sidx)%Z -> (0 <= idx)%Z ->
     (part_image_rel (header_of d sidx) idx = None \/ fs path = Missing ->
      replace_header_image fs d sidx path idx = (d, inr false))
     /\ (forall d', replace_header_image fs d sidx path idx = (d', inr false) ->
                    d' = d /\ (part_image_rel (header_of d sidx) idx = None
                               \/ fs path = Missing))
     /\ (forall rel data,
           part_image_rel (header_of d sidx) idx = Some rel ->
           fs path = Readable data -> recognised path = false ->
           replace_header_image fs d sidx path idx = (with_blob data rel d, inr true)))
  /\ (forall sidx idx, (0 <= sidx)%Z -> (0 <= idx)%Z ->
     (part_image_rel (footer_of d sidx) idx = None \/ fs path = Missing ->
      replace_footer_image fs d sidx path idx = (d, inr false))
     /\ (forall d', replace_footer_image fs d sidx path idx = (d', inr false) ->
                    d' = d /\ (part_image_rel (footer_of d sidx) idx = None
                               \/ fs path = Missing))
     /\ (forall rel data,
           part_image_rel (footer_of d sidx) idx = Some rel ->
           fs path = Readable data -> recognised path = false ->
           replace_footer_image fs d sidx path idx = (with_blob data rel d, inr true)))
  /\ (forall idx, (0 <= idx)%Z ->
     (image_rel (doc_rels d) idx = None \/ fs path = Missing ->
      replace_body_image_by_index fs d idx path = (d, inr false))
     /\ (forall d', replace_body_image_by_index fs d idx path = (d', inr false) ->
                    d' = d /\ (image_rel (doc_rels d) idx = None \/ fs path = Missing))
     /\ (forall rel data,
           image_rel (doc_rels d) idx = Some rel ->
           fs path = Readable data -> recognised path = false ->
           replace_body_image_by_index fs d idx path = (with_blob data rel d, inr true)))
  /\ (forall data part rel,
        new_part data part = mkImagePart data (content_type part)
        /\ doc_media (with_blob data rel d) !! target_part rel
           = new_part data <$> doc_media d !! target_part rel).
Proof.
  split; [|split; [|split]].
  - intros sidx idx Hs Hi. apply replace_cases, replace_header_image_eq; assumption.
  - intros sidx idx Hs Hi. apply replace_cases, replace_footer_image_eq; assumption.
  - intros idx Hi. apply replace_cases, replace_body_image_eq; assumption.
  - intros data part rel. split; [reflexivity|]. apply lookup_alter_eq.
Qed.

(** Image index, section and footer that do not resolve, and a file
    that is not there: [False], document unchanged. *)
Lemma replace_image_failure_witness :
  replace_body_image_by_index files doc_images 5 "a.jpg" = (doc_images, inr false)
  /\ replace_header_image files doc_images 1 "a.jpg" 0 = (doc_images, inr false)
  /\ replace_footer_image files doc_images 0 "a.jpg" 0 = (doc_images, inr false)
  /\ replace_header_image files doc_images 0 "nowhere.png" 0 = (doc_images, inr false).
Proof.
  destruct (replace_image_failure files doc_images "a.jpg") as (H1 & H2 & H3 & _).
  destruct (replace_image_failure files doc_images "nowhere.png") as (H1' & _).
  split; [|split; [|split]].
  - apply (proj1 (H3 5%Z ltac:(lia))). left. vm_compute. reflexivity.
  - apply (proj1 (H1 1%Z 0%Z ltac:(lia) ltac:(lia))). left. vm_compute. reflexivity.
  - apply (proj1 (H2 0%Z 0%Z ltac:(lia) ltac:(lia))). left. vm_compute. reflexivity.
  - apply (proj1 (H1' 0%Z 0%Z ltac:(lia) ltac:(lia))). right. vm_compute. reflexivity.
Defined.

(** [.webp] is not in the content type table: the replace returns
    [True] and the header image now has the bytes of the file under
    the content type it had. *)
Lemma replace_image_failure_counterexample :
  assoc (PyStr.lower (suffix "logo.webp")) content_types = None
  /\ replace_header_image files doc_images 0 "logo.webp" 0
     = (with_media (<["/word/media/image2.png" := mkImagePart "WEBP" "image/png"]>
                      (doc_media doc_images)) doc_images,
        inr true).
Proof. split; vm_compute; reflexivity. Qed.
End ImageFailure.

(* ================================================================== *)
(** * Image replacement in batch *)
(* ================================================================== *)

Section Batch.
Import Docx ImageReplacer Media CacheFacts Examples.
Context (u : string -> option Z).
Implicit Types (fs : FileSystem) (d : Document).

Lemma replace_one_media_only fs d key path : media_only d (replace_one u fs d key path).1.
Proof.
  unfold replace_one.
  repeat (apply media_only_refl || apply replace_header_image_media_only
          || apply replace_footer_image_media_only
          || apply replace_body_image_media_only
          || match goal with
             | |- media_only _ (match ?x with _ => _ end).1 => destruct x
             | |- media_only _ (if ?x then _ else _).1 => destruct x
             end).
Qed.

Lemma batch_loop_media_only fs reps :
  forall d results, media_only d (batch_loop u fs reps d results).1.
Proof.
  induction reps as [|[key path] reps IH]; intros d results; simpl;
    [apply media_only_refl|].
  pose proof (replace_one_media_only fs d key path) as H.
  destruct (replace_one u fs d key path) as [d1 r]. simpl in H.
  eapply media_only_trans; [exact H | apply IH].
Qed.

(** ** The keys of a batch *)

Lemma replace_one_unknown fs d key path location rest :
  PyStr.split "_" key = location :: rest -> location ∉ locations ->
  replace_one u fs d key path = (d, inr false).
Proof.
  intros Hs Hl. unfold replace_one. rewrite Hs.
  destruct (String.eqb_spec location "header") as [->|_];
    [exfalso; apply Hl; unfold locations; set_solver|].
  destruct (String.eqb_spec location "footer") as [->|_];
    [exfalso; apply Hl; unfold locations; set_solver|].
  destruct (String.eqb_spec location "body") as [->|_];
    [exfalso; apply Hl; unfold locations; set_solver|].
  reflexivity.
Qed.

Lemma replace_one_no_index fs d key path location :
  PyStr.split "_" key = [location] -> location ∈ locations ->
  replace_one u fs d key path = (d, inl IndexError).
Proof.
  intros Hs Hl. unfold replace_one. rewrite Hs. unfold locations in Hl.
  apply elem_of_cons in Hl as [->|Hl]; [reflexivity|].
  apply elem_of_cons in Hl as [->|Hl]; [reflexivity|].
  apply list_elem_of_singleton in Hl as ->. reflexivity.
Qed.

Lemma replace_one_no_number fs d key path location f rest :
  PyStr.split "_" key = location :: f :: rest -> location ∈ locations ->
  PyStr.int u f = None ->
  replace_one u fs d key path = (d, inl ValueError).
Proof.
  intros Hs Hl Hf. unfold replace_one. rewrite Hs. unfold locations in Hl.
  apply elem_of_cons in Hl as [->|Hl];
    [unfold int_field; simpl; rewrite Hf; reflexivity|].
  apply elem_of_cons in Hl as [->|Hl];
    [unfold int_field; simpl; rewrite Hf; reflexivity|].
  apply list_elem_of_singleton in Hl as ->.
  unfold int_field. simpl. rewrite Hf. reflexivity.
Qed.

Lemma int_field_1 (location f : string) (rest : list string) s :
  PyStr.int u f = Some s -> int_field u (location :: f :: rest) 1 = inr s.
Proof. intros H. unfold int_field. simpl. rewrite H. reflexivity. Qed.

Lemma image_field_eq (location f : string) (rest : list string) :
  (if 2 <? length (location :: f :: rest)
   then int_field u (location :: f :: rest) 2 else mret 0%Z)
  = match image_field u rest with
    | Some i => inr i
    | None => inl ValueError
    end.
Proof.
  destruct rest as [|f2 rest]; [reflexivity|].
  unfold int_field. simpl. destruct (PyStr.int u f2); reflexivity.
Qed.

Lemma replace_one_header fs d key path f rest s :
  PyStr.split "_" key = "header" :: f :: rest -> PyStr.int u f = Some s ->
  replace_one u fs d key path
  = match image_field u rest with
    | Some i => replace_header_image fs d s path i
    | None => (d, inl ValueError)
    end.
Proof.
  intros Hs Hf. unfold replace_one. rewrite Hs. simpl String.eqb. cbv iota.
  rewrite (int_field_1 _ _ _ _ Hf), image_field_eq.
  destruct (image_field u rest); reflexivity.
Qed.

Lemma replace_one_footer fs d key path f rest s :
  PyStr.split "_" key = "footer" :: f :: rest -> PyStr.int u f = Some s ->
  replace_one u fs d key path
  = match image_field u rest with
    | Some i => replace_footer_image fs d s path i
    | None => (d, inl ValueError)
    end.
Proof.
  intros Hs Hf. unfold replace_one. rewrite Hs. simpl String.eqb. cbv iota.
  rewrite (int_field_1 _ _ _ _ Hf), image_field_eq.
  destruct (image_field u rest); reflexivity.
Qed.

Lemma replace_one_body fs d key path f rest i :
  PyStr.split "_" key = "body" :: f :: rest -> PyStr.int u f = Some i ->
  replace_one u fs d key path = replace_body_image_by_index fs d i path.
Proof.
  intros Hs Hf. unfold replace_one. rewrite Hs. simpl String.eqb. cbv iota.
  rewrite (int_field_1 _ _ _ _ Hf). reflexivity.
Qed.

(** A key whose replacement returns [True] has one of the three
    locations and a number after it, its file was read and has an
    extension the content type table does not have. *)
Lemma replace_one_true fs d key path d' :
  replace_one u fs d key path = (d', inr true) ->
  exists location f rest i rel data,
    PyStr.split "_" key = location :: f :: rest /\ location ∈ locations
    /\ PyStr.int u f = Some i
    /\ fs path = Readable data /\ recognised path = false
    /\ d' = with_blob data rel d.
Proof.
  intros H. destruct (PyStr.split "_" key) as [|location [|f rest]] eqn:Hs.
  - unfold replace_one in H. rewrite Hs in H. discriminate.
  - destruct (decide (location ∈ locations)) as [Hl|Hl].
    + rewrite (replace_one_no_index _ _ _ _ _ Hs Hl) in H. discriminate.
    + rewrite (replace_one_unknown _ _ _ _ _ _ Hs Hl) in H. discriminate.
  - destruct (decide (location ∈ locations)) as [Hl|Hl].
    2:{ rewrite (replace_one_unknown _ _ _ _ _ _ Hs Hl) in H. discriminate. }
    destruct (PyStr.int u f) as [i|] eqn:Hf.
    2:{ rewrite (replace_one_no_number _ _ _ _ _ _ _ Hs Hl Hf) in H. discriminate. }
    assert (exists rel data, fs path = Readable data /\ recognised path = false
                             /\ d' = with_blob data rel d) as (rel & data & H1 & H2 & H3).
    { pose proof Hl as Hl'. unfold locations in Hl'.
      apply elem_of_cons in Hl' as [->|Hl'];
        [|apply elem_of_cons in Hl' as [->|Hl'];
          [|apply list_elem_of_singleton in Hl' as ->]].
      - rewrite (replace_one_header _ _ _ _ _ _ _ Hs Hf) in H.
        destruct (image_field u rest); [|discriminate].
        apply replace_header_image_true in H
          as (section & hf & rid & rel & data & _ & _ & _ & H1 & H2 & H3). eauto.
      - rewrite (replace_one_footer _ _ _ _ _ _ _ Hs Hf) in H.
        destruct (image_field u rest); [|discriminate].
        apply replace_footer_image_true in H
          as (section & hf & rid & rel & data & _ & _ & _ & H1 & H2 & H3). eauto.
      - rewrite (replace_one_body _ _ _ _ _ _ _ Hs Hf) in H.
        apply replace_body_image_true in H as (rid & rel & data & _ & H1 & H2 & H3). eauto. }
    exists location, f, rest, i, rel, data. auto 10.
Qed.

(** ** The results of a batch *)

Lemma dict_set_fresh key v (results : list (string * bool)) :
  key ∉ results.*1 -> dict_set key v results = results ++ [(key, v)].
Proof.
  induction results as [|[k w] results IH]; intros H; simpl; [reflexivity|].
  simpl in H. apply not_elem_of_cons in H as [Hne Hnot].
  destruct (String.eqb_spec k key); [congruence|]. f_equal. apply IH, Hnot.
Qed.

Lemma batch_loop_app fs pre post d results :
  batch_loop u fs (pre ++ post) d results
  = let '(d1, r1) := batch_loop u fs pre d results in batch_loop u fs post d1 r1.
Proof.
  revert d results. induction pre as [|[key path] pre IH]; intros d results; simpl.
  - reflexivity.
  - destruct (replace_one u fs d key path) as [d' r]. apply IH.
Qed.

Lemma batch_loop_acc fs l d results :
  NoDup (results.*1 ++ l.*1) ->
  batch_loop u fs l d results
  = ((batch_loop u fs l d []).1, results ++ (batch_loop u fs l d []).2).
Proof.
  revert d results. induction l as [|[key path] l IH]; intros d results Hnd; simpl.
  - rewrite app_nil_r. reflexivity.
  - simpl in Hnd. apply NoDup_app in Hnd as (Hr & Hdisj & Hl).
    apply NoDup_cons in Hl as [Hkey Hl].
    destruct (replace_one u fs d key path) as [d' r].
    assert (Hfresh : key ∉ results.*1).
    { intros Hin. apply (Hdisj _ Hin). left. }
    rewrite dict_set_fresh by exact Hfresh.
    rewrite (IH d' (results ++ [(key, caught r)])), (IH d' [(key, caught r)]).
    + simpl. rewrite <- app_assoc. reflexivity.
    + simpl. apply NoDup_cons. split; [exact Hkey|exact Hl].
    + rewrite fmap_app. simpl. apply NoDup_app. split; [|split].
      * apply NoDup_app. split; [exact Hr|]. split; [|apply NoDup_singleton].
        intros x Hx Hx'. apply list_elem_of_singleton in Hx'. subst. auto.
      * intros x Hx Hx'. apply elem_of_app in Hx as [Hx|Hx].
        -- apply (Hdisj _ Hx). right. exact Hx'.
        -- apply list_elem_of_singleton in Hx. subst. auto.
      * exact Hl.
Qed.

Lemma batch_keys fs l d :
  NoDup l.*1 -> (replace_images_batch u fs d l).2.*1 = l.*1.
Proof.
  unfold replace_images_batch. revert d. induction l as [|[key path] l IH]; intros d Hnd.
  - reflexivity.
  - simpl. destruct (replace_one u fs d key path) as [d' r].
    rewrite batch_loop_acc by exact Hnd. simpl. f_equal. apply IH.
    simpl in Hnd. apply NoDup_cons in Hnd as [_ Hnd]. exact Hnd.
Qed.

(** C9: the batch gives every key its own result.  For a mapping (its
    keys distinct, as those of a dictionary are), the results have
    the keys of the mapping in order; the result of a key is what its
    own replacement gives on the document the keys before it left,
    [False] when that raises, and the keys after it are then worked
    on from there.  A key is cut at its underscores.  A first field
    that is none of [header], [footer], [body] gives [False] on the
    same document; so do, by the exception they raise, a key with no
    field after its location and a field that is no number.  The
    other keys are the replace in the header or footer of the section
    and with the image index their fields tell, or in the body; a
    target that does not resolve and a file that is not there give
    [False] on the same document.  A key whose result is [True] has
    a location and a number, its file was read and the media entry
    has its bytes.  Whatever the result of a key, body, sections,
    relationships and drawing elements are the same after it and no
    media entry has come or gone. *)
Theorem replace_images_batch_isolation fs d replacements :
  NoDup replacements.*1 ->
  (replace_images_batch u fs d replacements).2.*1 = replacements.*1
  /\ (forall pre key path post,
        replacements = pre ++ (key, path) :: post ->
        let '(d1, r1) := replace_images_batch u fs d pre in
        let '(d2, r) := replace_one u fs d1 key path in
        let '(d3, r3) := replace_images_batch u fs d2 post in
        replace_images_batch u fs d replacements = (d3, r1 ++ (key, caught r) :: r3)
        /\ media_only d1 d2)
  /\ (forall e b, caught (inl e) = false /\ caught (inr b) = b)
  /\ (forall d0 key path location rest,
        PyStr.split "_" key = location :: rest ->
        (location ∉ locations -> replace_one u fs d0 key path = (d0, inr false))
        /\ (location ∈ locations -> rest = [] ->
            replace_one u fs d0 key path = (d0, inl IndexError))
        /\ (forall f rest', location ∈ locations -> rest = f :: rest' ->
                            PyStr.int u f = None ->
                            replace_one u fs d0 key path = (d0, inl ValueError)))
  /\ (forall d0 key path f rest s,
        PyStr.int u f = Some s ->
        (PyStr.split "_" key = "header" :: f :: rest ->
         replace_one u fs d0 key path
         = match image_field u rest with
           | Some i => replace_header_image fs d0 s path i
           | None => (d0, inl ValueError)
           end)
        /\ (PyStr.split "_" key = "footer" :: f :: rest ->
            replace_one u fs d0 key path
            = match image_field u rest with
              | Some i => replace_footer_image fs d0 s path i
              | None => (d0, inl ValueError)
              end)
        /\ (PyStr.split "_" key = "body" :: f :: rest ->
            replace_one u fs d0 key path = replace_body_image_by_index fs d0 s path))
  /\ (forall d0 key path f rest s i,
        PyStr.int u f = Some s -> image_field u rest = Some i ->
        (0 <= s)%Z -> (0 <= i)%Z ->
        (PyStr.split "_" key = "header" :: f :: rest ->
         part_image_rel (header_of d0 s) i = None \/ fs path = Missing ->
         replace_one u fs d0 key path = (d0, inr false))
        /\ (PyStr.split "_" key = "footer" :: f :: rest ->
            part_image_rel (footer_of d0 s) i = None \/ fs path = Missing ->
            replace_one u fs d0 key path = (d0, inr false))
        /\ (PyStr.split "_" key = "body" :: f :: rest ->
            image_rel (doc_rels d0) s = None \/ fs path = Missing ->
            replace_one u fs d0 key path = (d0, inr false)))
  /\ (forall d0 key path d',
        replace_one u fs d0 key path = (d', inr true) ->
        exists location f rest i rel data,
          PyStr.split "_" key = location :: f :: rest /\ location ∈ locations
          /\ PyStr.int u f = Some i
          /\ fs path = Readable data /\ recognised path = false
          /\ d' = with_blob data rel d0)
  /\ (forall d0 key path, media_only d0 (replace_one u fs d0 key path).1).
Proof.
  intros Hnd. split; [apply batch_keys, Hnd|].
  split; [|split; [|split; [|split; [|split; [|split]]]]].
  - intros pre key path post ->. unfold replace_images_batch.
    rewrite batch_loop_app.
    destruct (batch_loop u fs pre d []) as [d1 r1] eqn:E1. simpl.
    pose proof (replace_one_media_only fs d1 key path) as Hm.
    destruct (replace_one u fs d1 key path) as [d2 r] eqn:E2.
    assert (Hk : NoDup (r1.*1 ++ ((key, path) :: post).*1)).
    { replace (r1.*1) with (pre.*1); [rewrite <- fmap_app; exact Hnd|].
      symmetry. change r1 with (d1, r1).2. rewrite <- E1. apply batch_keys.
      rewrite fmap_app in Hnd. apply NoDup_app in Hnd as [H _]. exact H. }
    assert (Hfresh : key ∉ r1.*1).
    { apply NoDup_app in Hk as (_ & Hdisj & _). intros Hin. apply (Hdisj _ Hin). left. }
    rewrite dict_set_fresh by exact Hfresh.
    rewrite (batch_loop_acc fs post d2 (r1 ++ [(key, caught r)])).
    + destruct (batch_loop u fs post d2 []) as [d3 r3]. simpl.
      split; [rewrite <- app_assoc; reflexivity|exact Hm].
    + rewrite fmap_app. simpl. rewrite <- app_assoc. exact Hk.
  - intros e b. split; reflexivity.
  - intros d0 key path location rest Hs. split; [|split].
    + intros Hl. apply (replace_one_unknown fs d0 key path location rest Hs Hl).
    + intros Hl ->. apply (replace_one_no_index fs d0 key path location Hs Hl).
    + intros f rest' Hl -> Hf. apply (replace_one_no_number fs d0 key path location f rest' Hs Hl Hf).
  - intros d0 key path f rest s Hf. split; [|split]; intros Hs.
    + eapply replace_one_header; eassumption.
    + eapply replace_one_footer; eassumption.
    + eapply replace_one_body; eassumption.
  - intros d0 key path f rest s i Hf Hi Hs0 Hi0. split; [|split]; intros Hs Hc.
    + rewrite (replace_one_header _ _ _ _ _ _ _ Hs Hf), Hi.
      apply (replace_cases fs d0 path (part_image_rel (header_of d0 s) i));
        [apply replace_header_image_eq; assumption|exact Hc].
    + rewrite (replace_one_footer _ _ _ _ _ _ _ Hs Hf), Hi.
      apply (replace_cases fs d0 path (part_image_rel (footer_of d0 s) i));
        [apply replace_footer_image_eq; assumption|exact Hc].
    + rewrite (replace_one_body _ _ _ _ _ _ _ Hs Hf).
      apply (replace_cases fs d0 path (image_rel (doc_rels d0) s));
        [apply replace_body_image_eq; assumption|exact Hc].
  - intros d0 key path d'. apply replace_one_true.
  - intros d0 key path. apply replace_one_media_only.
Qed.
End Batch.

Section BatchExample.
Import Docx ImageReplacer Media CacheFacts Examples.

(** Keys of every sort in one batch: each has its own result, and the
    key with the file the content type table does not know is the
    one that gives [True]. *)
Lemma replace_images_batch_isolation_witness :
  (replace_images_batch ascii_int files doc_images batch_mixed).2.*1
  = ["invalid_0"; "body_x"; "body_0"; "header_0_0"; "body_5"; "footer"; "header_0"]
  /\ (replace_images_batch ascii_int files doc_images batch_mixed).2
     = [("invalid_0", false); ("body_x", false); ("body_0", false);
        ("header_0_0", true); ("body_5", false); ("footer", false);
        ("header_0", false)]
  /\ replace_one ascii_int files doc_images "invalid_0" "logo.webp"
     = (doc_images, inr false)
  /\ replace_one ascii_int files doc_images "body_x" "logo.webp"
     = (doc_images, inl ValueError)
  /\ replace_one ascii_int files doc_images "body_5" "logo.webp"
     = (doc_images, inr false).
Proof.
  destruct (replace_images_batch_isolation ascii_int files doc_images batch_mixed
              ltac:(apply (bool_decide_unpack _); vm_compute; reflexivity))
    as (Hkeys & _ & _ & Hparse & _ & Hrange & _).
  split; [exact Hkeys|]. split; [vm_compute; reflexivity|]. split; [|split].
  - apply (proj1 (Hparse doc_images "invalid_0" "logo.webp" "invalid" ["0"] eq_refl)).
    unfold locations. intros H. repeat (apply elem_of_cons in H as [H|H]; [discriminate|]).
    inversion H.
  - apply (proj2 (proj2 (Hparse doc_images "body_x" "logo.webp" "body" ["x"] eq_refl))
                 "x" []); [|reflexivity|reflexivity].
    unfold locations. set_solver.
  - apply (proj2 (proj2 (Hrange doc_images "body_5" "logo.webp" "5" [] 5%Z 0%Z
                           eq_refl eq_refl ltac:(lia) ltac:(lia)))); [reflexivity|].
    left. vm_compute. reflexivity.
Defined.
End BatchExample.

(* ================================================================== *)
(** * Elements of the body and their identity *)
(* ================================================================== *)

Section Identity.
Import Docx.
Implicit Types (body pre post : list Elem) (id : nat) (b : Block).

Lemma le_max_ids id (ids : list nat) : id ∈ ids -> id <= foldr Nat.max 0 ids.
Proof.
  induction ids as [|i ids IH]; intros H; [inversion H|].
  apply elem_of_cons in H as [->|H]; simpl; [lia|]. specialize (IH H). lia.
Qed.

Lemma fresh_id_fresh body : fresh_id body ∉ body.*1.
Proof. intros H. apply le_max_ids in H. unfold fresh_id in H. lia. Qed.

Lemma get_paragraph_at id b pre post :
  id ∉ pre.*1 -> get_paragraph id (pre ++ (id, b) :: post) = block_paragraph b.
Proof.
  induction pre as [|[i c] pre IH]; intros H; simpl.
  - rewrite Nat.eqb_refl. reflexivity.
  - simpl in H. apply not_elem_of_cons in H as [Hne H].
    destruct (Nat.eqb_spec i id); [congruence|]. apply IH, H.
Qed.

Lemma set_paragraph_at id b p pre post :
  id ∉ pre.*1 ->
  set_paragraph id p (pre ++ (id, b) :: post) = pre ++ (id, P p) :: post.
Proof.
  induction pre as [|[i c] pre IH]; intros H; simpl.
  - rewrite Nat.eqb_refl. reflexivity.
  - simpl in H. apply not_elem_of_cons in H as [Hne H].
    destruct (Nat.eqb_spec i id); [congruence|]. f_equal. apply IH, H.
Qed.

Lemma index_of_at id b pre post :
  id ∉ pre.*1 -> index_of id (pre ++ (id, b) :: post) = Some (length pre).
Proof.
  induction pre as [|[i c] pre IH]; intros H; simpl.
  - rewrite Nat.eqb_refl. reflexivity.
  - simpl in H. apply not_elem_of_cons in H as [Hne H].
    destruct (Nat.eqb_spec i id); [congruence|]. rewrite IH by exact H. reflexivity.
Qed.

Lemma remove_id_at id b pre post :
  id ∉ pre.*1 -> remove_id id (pre ++ (id, b) :: post) = pre ++ post.
Proof.
  induction pre as [|[i c] pre IH]; intros H; simpl.
  - rewrite Nat.eqb_refl. reflexivity.
  - simpl in H. apply not_elem_of_cons in H as [Hne H].
    destruct (Nat.eqb_spec i id); [congruence|]. f_equal. apply IH, H.
Qed.

Lemma insert_before_at id b (e : Elem) pre post :
  id ∉ pre.*1 ->
  insert_before id e (pre ++ (id, b) :: post) = pre ++ e :: (id, b) :: post.
Proof.
  induction pre as [|[i c] pre IH]; intros H; simpl.
  - rewrite Nat.eqb_refl. reflexivity.
  - simpl in H. apply not_elem_of_cons in H as [Hne H].
    destruct (Nat.eqb_spec i id); [congruence|]. f_equal. apply IH, H.
Qed.

(** Moving the element just appended to position [length pre]. *)
Lemma lxml_insert_last (e : Elem) pre post :
  e.1 ∉ (pre ++ post).*1 -> NoDup (pre ++ post).*1 ->
  lxml_insert (length pre) e ((pre ++ post) ++ [e]) = pre ++ e :: post.
Proof.
  intros Hfresh Hnd. unfold lxml_insert. rewrite <- app_assoc.
  rewrite lookup_app_r by reflexivity. rewrite Nat.sub_diag.
  destruct post as [|[i c] post]; simpl.
  - rewrite Nat.eqb_refl. reflexivity.
  - rewrite fmap_app in Hfresh. simpl in Hfresh.
    assert (i <> e.1).
    { intros ->. apply Hfresh. apply elem_of_app. right. left. }
    destruct (Nat.eqb_spec i e.1); [congruence|].
    destruct e as [ie be]. simpl in *.
    match goal with
    | |- context [remove_id ie ?l] =>
        replace l with ((pre ++ (i, c) :: post) ++ [(ie, be)])
          by (rewrite <- app_assoc; reflexivity)
    end.
    rewrite remove_id_at.
    + rewrite app_nil_r. apply insert_before_at.
      rewrite fmap_app in Hnd. apply NoDup_app in Hnd as (_ & Hdisj & _).
      intros Hin. apply (Hdisj _ Hin). left.
    + rewrite fmap_app. exact Hfresh.
Qed.
End Identity.

(* ================================================================== *)
(** * List expansion: the processing loop *)
(* ================================================================== *)

Section ListExpansion.
Import Docx DynamicContentProcessor Expansion.
Implicit Types (body pre post done : list Elem) (data : list (string * Value)).

Lemma create_bullet_paragraph_spec text style body :
  _create_bullet_paragraph text style body
  = (body ++ [(fresh_id body, P (mkParagraph style None [mkRun (bullet text) no_format]))],
     (fresh_id body, P (mkParagraph style None [mkRun (bullet text) no_format]))).
Proof.
  unfold _create_bullet_paragraph, add_paragraph. f_equal.
  rewrite set_paragraph_at by apply fresh_id_fresh. reflexivity.
Qed.

Lemma insert_items_spec others style done pre e0 post :
  NoDup (pre ++ e0 :: done ++ post).*1 ->
  exists news,
    insert_items others style (length pre + length done) (pre ++ e0 :: done ++ post)
    = pre ++ e0 :: (done ++ news) ++ post
    /\ news.*2 = (fun item => P (bullet_paragraph style item)) <$> others
    /\ NoDup (pre ++ e0 :: (done ++ news) ++ post).*1.
Proof.
  revert done. induction others as [|item others IH]; intros done Hnd.
  - exists []. rewrite app_nil_r. auto.
  - cbn [insert_items]. rewrite create_bullet_paragraph_spec.
    set (body := pre ++ e0 :: done ++ post) in *.
    set (new := (fresh_id body, P (mkParagraph style None [mkRun (bullet (str item)) no_format]))).
    assert (Hbody : body = (pre ++ e0 :: done) ++ post).
    { unfold body. rewrite <- app_assoc. reflexivity. }
    assert (Hlen : length pre + length done + 1 = length (pre ++ e0 :: done)).
    { rewrite length_app. simpl. lia. }
    assert (Hfresh : new.1 ∉ body.*1) by apply fresh_id_fresh.
    rewrite Hlen.
    assert (Hfresh' : new.1 ∉ ((pre ++ e0 :: done) ++ post).*1)
      by (rewrite <- Hbody; exact Hfresh).
    assert (Hnd0 : NoDup ((pre ++ e0 :: done) ++ post).*1)
      by (rewrite <- Hbody; exact Hnd).
    replace (lxml_insert (length (pre ++ e0 :: done)) new (body ++ [new]))
      with ((pre ++ e0 :: done) ++ new :: post)
      by (rewrite Hbody; symmetry; apply lxml_insert_last; assumption).
    assert (Hnd' : NoDup (pre ++ e0 :: (done ++ [new]) ++ post).*1).
    { replace (pre ++ e0 :: (done ++ [new]) ++ post)
        with ((pre ++ e0 :: done) ++ new :: post)
        by (rewrite <- !app_assoc; reflexivity).
      rewrite fmap_app, fmap_cons, <- Permutation_middle. apply NoDup_cons.
      rewrite fmap_app in Hfresh', Hnd0. split; assumption. }
    destruct (IH (done ++ [new]) Hnd') as (news & Heq & Hnews & Hnd'').
    exists (new :: news). split; [|split].
    + replace (length (pre ++ e0 :: done)) with (length pre + length (done ++ [new]))
        by (rewrite !length_app; simpl; lia).
      replace ((pre ++ e0 :: done) ++ new :: post)
        with (pre ++ e0 :: (done ++ [new]) ++ post)
        by (rewrite <- !app_assoc; reflexivity).
      rewrite Heq. rewrite <- !app_assoc. reflexivity.
    + rewrite fmap_cons, Hnews. reflexivity.
    + replace (done ++ new :: news) with ((done ++ [new]) ++ news)
        by (rewrite <- app_assoc; reflexivity).
      exact Hnd''.
Qed.

Lemma sites_of_paragraph_matching idx id text data :
  sites_of_paragraph idx id text data
  = (fun m => mkSite idx id m.1 m.2) <$> matching data text.
Proof.
  unfold matching. induction data as [|[key [s|items]] data IH]; simpl.
  - reflexivity.
  - exact IH.
  - destruct (PyStr.contains (token key) text); simpl; [f_equal|]; exact IH.
Qed.

Lemma expand_sites_app l1 l2 st :
  expand_sites (l1 ++ l2) st = expand_sites l1 st ≫= expand_sites l2.
Proof.
  revert st. induction l1 as [|s l1 IH]; intros st; simpl; [reflexivity|].
  destruct (expand_site s st) as [e|st']; simpl; [reflexivity|]. apply IH.
Qed.

(** One turn of the processing loop, at a paragraph found by its
    identity. *)
Lemma expand_site_at idx id key items p pre post c :
  NoDup (pre ++ (id, P p) :: post).*1 ->
  exists news c',
    expand_site (mkSite idx id key items) (pre ++ (id, P p) :: post, c)
    = inr (pre ++ news ++ post, c')
    /\ news.*2 = P <$> expand_paragraph key items p
    /\ NoDup (pre ++ news ++ post).*1.
Proof.
  intros Hnd. assert (Hid : id ∉ pre.*1).
  { rewrite fmap_app in Hnd. apply NoDup_app in Hnd as (_ & Hdisj & _).
    intros Hin. apply (Hdisj _ Hin). left. }
  unfold expand_site. cbn [site_para site_items site_key].
  rewrite get_paragraph_at by exact Hid. cbn [block_paragraph].
  destruct items as [|first others].
  - rewrite set_paragraph_at by exact Hid.
    eexists [(id, P _)], c. split; [reflexivity|]. split; [reflexivity|].
    rewrite !fmap_app in *. exact Hnd.
  - rewrite set_paragraph_at by exact Hid. rewrite index_of_at by exact Hid.
    destruct (insert_items_spec others (para_style p) [] pre
                (id, P (para_add_run (bullet (str first)) (para_clear p))) post)
      as (news & Heq & Hnews & Hnd').
    { rewrite !fmap_app in *. exact Hnd. }
    exists ((id, P (para_add_run (bullet (str first)) (para_clear p))) :: news), (S c).
    split; [|split].
    + unfold mret, result_ret. do 2 f_equal.
      replace (length pre) with (length pre + length ([] : list Elem)) at 1
        by (simpl; lia).
      exact Heq.
    + rewrite fmap_cons, Hnews. cbn [expand_paragraph]. rewrite fmap_cons.
      rewrite <- list_fmap_compose. reflexivity.
    + exact Hnd'.
Qed.

End ListExpansion.

(* ================================================================== *)
(** * List expansion *)
(* ================================================================== *)

Section ListTheorems.
Import Docx DynamicContentProcessor Expansion Examples.
Implicit Types (body pre post : list Elem) (data : list (string * Value)).

Lemma para_text_single style al t :
  para_text (mkParagraph style al [mkRun t no_format]) = t.
Proof. unfold para_text, PyStr.concat. simpl. apply str_app_nil_r. Qed.

Lemma expand_paragraph_texts key strings p :
  para_text <$> expand_paragraph key (IStr <$> strings) p
  = match strings with
    | [] => [PyStr.replace (token key) "" (para_text p)]
    | _ => bullet <$> strings
    end.
Proof.
  destruct strings as [|first others]; simpl.
  - rewrite para_text_set. reflexivity.
  - unfold para_add_run, para_clear. simpl. rewrite para_text_single. f_equal.
    rewrite <- !list_fmap_compose. apply list_fmap_ext. intros i x _. simpl.
    unfold bullet_paragraph. rewrite para_text_single. reflexivity.
Qed.

End ListTheorems.

(* ================================================================== *)
(** * Expansion and the rest of the document *)
(* ================================================================== *)

Section BodyOnly.
Import Docx DynamicContentProcessor Examples.
Implicit Types (body pre post : list Elem) (data : list (string * Value)).

Lemma tables_app body1 body2 : tables (body1 ++ body2) = tables body1 ++ tables body2.
Proof. unfold tables. apply omap_app. Qed.

Lemma tables_set_paragraph id p p' body :
  get_paragraph id body = Some p -> tables (set_paragraph id p' body) = tables body.
Proof.
  unfold tables. induction body as [|[i b] body IH]; intros H; simpl in *; [reflexivity|].
  destruct (Nat.eqb i id).
  - destruct b; [reflexivity|discriminate].
  - destruct b; simpl; [|f_equal]; exact (IH H).
Qed.

Lemma tables_insert_before ref id p body :
  tables (insert_before ref (id, P p) body) = tables body.
Proof.
  unfold tables. induction body as [|[i b] body IH]; simpl; [reflexivity|].
  destruct (Nat.eqb i ref); simpl; [reflexivity|].
  destruct b; simpl; [|f_equal]; exact IH.
Qed.

Lemma remove_id_last id b body : id ∉ body.*1 -> remove_id id (body ++ [(id, b)]) = body.
Proof. intros H. rewrite remove_id_at by exact H. apply app_nil_r. Qed.

Lemma tables_lxml_insert i id p body :
  id ∉ body.*1 ->
  tables (lxml_insert i (id, P p) (body ++ [(id, P p)])) = tables body.
Proof.
  intros Hid. unfold lxml_insert. cbn [fst].
  destruct ((body ++ [(id, P p)]) !! i) as [c|].
  - destruct (Nat.eqb c.1 id).
    + rewrite tables_app. simpl. apply app_nil_r.
    + rewrite remove_id_last by exact Hid. apply tables_insert_before.
  - rewrite remove_id_last by exact Hid. rewrite tables_app. simpl. apply app_nil_r.
Qed.

Lemma tables_insert_items items style i body :
  tables (insert_items items style i body) = tables body.
Proof.
  revert i body. induction items as [|item items IH]; intros i body; [reflexivity|].
  cbn [insert_items]. rewrite create_bullet_paragraph_spec, IH.
  apply tables_lxml_insert, fresh_id_fresh.
Qed.

Lemma tables_expand_site s body c body' c' :
  expand_site s (body, c) = inr (body', c') -> tables body' = tables body.
Proof.
  unfold expand_site. destruct (get_paragraph (site_para s) body) as [p|] eqn:Hp;
    [|discriminate].
  destruct (site_items s) as [|first others].
  - intros H. injection H as <- <-. eapply tables_set_paragraph, Hp.
  - destruct (index_of _ _) as [k|]; [|discriminate].
    intros H. injection H as <- <-. rewrite tables_insert_items.
    eapply tables_set_paragraph, Hp.
Qed.

Lemma tables_expand_sites sites body c body' c' :
  expand_sites sites (body, c) = inr (body', c') -> tables body' = tables body.
Proof.
  revert body c. induction sites as [|s sites IH]; intros body c H;
    cbn [expand_sites] in H.
  - injection H as <- <-. reflexivity.
  - destruct (expand_site s (body, c)) as [e|[body1 c1]] eqn:E;
      cbn [mbind result_bind] in H; [discriminate|].
    rewrite (IH _ _ H). eapply tables_expand_site, E.
Qed.

(** C10: expansion works on the body only.  List expansion leaves the
    sections (headers and footers) and the tables of the body as they
    are; table expansion leaves the sections and the paragraphs of
    the body as they are; and both depend on the body alone: on a
    document with the same body they do to the body what they do
    here and leave the rest of that document alone. *)
Theorem expansion_is_body_only d data :
  (forall d' n,
      expand_dynamic_lists d data = inr (d', n) ->
      doc_sections d' = doc_sections d /\ tables (doc_body d') = tables (doc_body d))
  /\ (forall d' n,
        expand_dynamic_tables d data = inr (d', n) ->
        doc_sections d' = doc_sections d
        /\ paragraphs (doc_body d') = paragraphs (doc_body d))
  /\ (forall d2,
        doc_body d2 = doc_body d ->
        expand_dynamic_lists d2 data
        = (r ← expand_dynamic_lists d data; mret (with_body (doc_body r.1) d2, r.2))
        /\ expand_dynamic_tables d2 data
           = (r ← expand_dynamic_tables d data; mret (with_body (doc_body r.1) d2, r.2))).
Proof.
  split; [|split].
  - intros d' n H. unfold expand_dynamic_lists in H.
    destruct (expand_sites _ _) as [e|[body c]] eqn:E;
      cbn [mbind result_bind] in H; [discriminate|].
    injection H as <- <-. split; [reflexivity|].
    simpl. eapply tables_expand_sites, E.
  - intros d' n H. unfold expand_dynamic_tables in H.
    destruct (expand_tables _ _) as [e|[ts c]];
      cbn [mbind result_bind] in H; [discriminate|].
    injection H as <- <-. split; [reflexivity|].
    simpl. apply paragraphs_put_tables.
  - intros d2 Hb. unfold expand_dynamic_lists, expand_dynamic_tables. rewrite Hb. split.
    + destruct (expand_sites _ _) as [e|[body c]]; reflexivity.
    + destruct (expand_tables _ _) as [e|[ts c]]; reflexivity.
Qed.

(** An array token in a header, a footer and a table cell only:
    nothing is expanded. *)
Lemma expansion_is_body_only_witness :
  exists d' n,
    expand_dynamic_lists doc_outside data_items = inr (d', n)
    /\ doc_sections d' = doc_sections doc_outside
    /\ tables (doc_body d') = tables (doc_body doc_outside).
Proof.
  exists doc_outside, 0.
  assert (H : expand_dynamic_lists doc_outside data_items = inr (doc_outside, 0))
    by (vm_compute; reflexivity).
  split; [exact H|].
  apply (proj1 (expansion_is_body_only doc_outside data_items) doc_outside 0 H).
Defined.
End BodyOnly.

(* ================================================================== *)
(** * Table row expansion *)
(* ================================================================== *)

Section TableExpansion.
Import Docx DynamicContentProcessor Rows Examples.
Implicit Types (data : list (string * Value)) (t table : Table) (row : Row).

Lemma table_rows_put_row k row t :
  table_rows (put_row k row t) = <[k := row]> (table_rows t).
Proof.
  unfold table_rows, put_row. simpl. revert k.
  induction (tbl_children t) as [|[tag|r0] cs IH]; intros k; simpl.
  - reflexivity.
  - apply IH.
  - destruct k; simpl; [reflexivity|]. f_equal. apply IH.
Qed.

Lemma table_rows_insert_new position row t :
  exists before after,
    table_rows t = before ++ after
    /\ table_rows (mkTable (lxml_insert_new position (Tr row) (tbl_children t)))
       = before ++ row :: after.
Proof.
  unfold table_rows, lxml_insert_new. simpl.
  exists (omap child_row (take position (tbl_children t))),
         (omap child_row (drop position (tbl_children t))).
  split.
  - rewrite <- omap_app, take_drop. reflexivity.
  - rewrite omap_app. reflexivity.
Qed.

Lemma fill_cell_paragraphs text c : cell_width (fill_cell text c) = cell_width c.
Proof. unfold fill_cell. destruct (cell_paragraphs c); reflexivity. Qed.

(** Filling never raises on an object and keeps the number of cells. *)
Lemma fill_cells_dict cells formats fields key :
  exists cells',
    fill_cells cells formats (IDict fields) key = inr cells'
    /\ length cells' = length cells.
Proof.
  revert formats. induction cells as [|cell cells IH]; intros formats; simpl.
  - exists []. auto.
  - destruct formats as [|[text w] formats].
    + eexists. split; reflexivity.
    + destruct (IH formats) as (cells' & -> & Hl). simpl.
      eexists. split; [reflexivity|]. simpl. rewrite Hl. reflexivity.
Qed.

Lemma fill_row_dict row formats fields key :
  exists row',
    _fill_row_with_data row formats (IDict fields) key = inr row'
    /\ length (row_cells row') = length (row_cells row).
Proof.
  unfold _fill_row_with_data.
  destruct (fill_cells_dict (row_cells row) formats fields key) as (cells' & -> & Hl).
  simpl. eexists. split; [reflexivity|]. exact Hl.
Qed.

(** Filling the template row from its own texts. *)
Lemma fill_cells_template cells fields key :
  fill_cells cells ((fun cell => (cell_text cell, cell_width cell)) <$> cells)
             (IDict fields) key
  = inr ((fun c => fill_cell (fill_text key fields (cell_text c)) c) <$> cells).
Proof.
  induction cells as [|cell cells IH]; [reflexivity|].
  rewrite !fmap_cons. cbn [fill_cells]. rewrite IH. reflexivity.
Qed.

Lemma add_table_row_spec table idx template :
  table_rows table !! idx = Some template ->
  exists table' before after new_row,
    _add_table_row table (idx + 1) = inr (table', idx + 1)
    /\ table_rows table = before ++ after
    /\ table_rows table' = before ++ template :: after
    /\ table_rows table' !! (idx + 1) = Some new_row.
Proof.
  intros Ht. unfold _add_table_row. rewrite Nat.add_1_r. rewrite Ht.
  destruct (table_rows_insert_new (S idx) template table) as (before & after & H1 & H2).
  assert (Hlt : S idx < length (before ++ template :: after)).
  { apply lookup_lt_Some in Ht. rewrite H1 in Ht. rewrite length_app in *. simpl. lia. }
  destruct (lookup_lt_is_Some_2 _ _ Hlt) as [new_row Hn].
  exists (mkTable (lxml_insert_new (S idx) (Tr template) (tbl_children table))),
         before, after, new_row.
  rewrite H2, Hn. auto.
Qed.

(** The loop that adds the rows: one row more for each element, in a
    table whose rows all have [c] cells when they had before. *)
Lemma add_rows_spec rest idx formats key :
  forall table,
    idx < length (table_rows table) -> Forall is_dict rest ->
    exists table',
      add_rows rest idx formats key table = inr table'
      /\ length (table_rows table') = length (table_rows table) + length rest
      /\ (forall c, columns c table -> columns c table').
Proof.
  induction rest as [|item rest IH]; intros table Hidx Hd.
  - exists table. simpl. split; [reflexivity|]. split; [lia|auto].
  - apply Forall_cons in Hd as [Hi Hd]. destruct item as [s|fields]; [destruct Hi|].
    destruct (lookup_lt_is_Some_2 _ _ Hidx) as [template Ht].
    destruct (add_table_row_spec table idx template Ht)
      as (table1 & before & after & new_row & Hadd & Hrows & Hrows1 & Hnew).
    cbn [add_rows]. rewrite Hadd. cbn [mbind result_bind]. rewrite Hnew.
    destruct (fill_row_dict new_row formats fields key) as (filled & -> & Hfl).
    cbn [mbind result_bind].
    set (table2 := put_row (idx + 1) filled table1).
    assert (Hrows2 : table_rows table2 = <[idx + 1 := filled]> (table_rows table1))
      by apply table_rows_put_row.
    assert (Hlen1 : length (table_rows table1) = S (length (table_rows table))).
    { rewrite Hrows1, Hrows, !length_app. simpl. lia. }
    destruct (IH table2) as (table' & -> & Hlen & Hcols).
    { rewrite Hrows2, length_insert, Hlen1. lia. }
    { exact Hd. }
    exists table'. split; [reflexivity|]. split.
    + rewrite Hlen, Hrows2, length_insert, Hlen1. simpl. lia.
    + intros c Hc. apply Hcols. unfold columns in *. rewrite Hrows2.
      assert (Hc1 : Forall (fun r => length (row_cells r) = c) (table_rows table1)).
      { assert (Htc : length (row_cells template) = c)
          by apply (Forall_lookup_1 _ _ _ _ Hc Ht).
        rewrite Hrows1. rewrite Hrows in Hc. apply Forall_app in Hc as [Hb Ha].
        apply Forall_app. split; [exact Hb|]. apply Forall_cons. split; [exact Htc|exact Ha]. }
      apply Forall_insert; [exact Hc1|].
      rewrite Hfl. apply (Forall_lookup_1 _ _ _ _ Hc1 Hnew).
Qed.

Lemma match_row_spec row data found items key :
  match_row row data found = Some (items, key) ->
  found = Some (items, key)
  \/ ((key, VList items) ∈ data /\ exists fields others, items = IDict fields :: others).
Proof.
  revert found. induction data as [|[k v] data IH]; intros found H; simpl in H.
  - left. exact H.
  - assert (Hrest : forall f, match_row row data f = Some (items, key) ->
               f = Some (items, key)
               \/ ((key, VList items) ∈ (k, v) :: data
                   /\ exists fields others, items = IDict fields :: others)).
    { intros f Hf. destruct (IH _ Hf) as [?|[Hin Hex]]; [left; assumption|].
      right. split; [right; exact Hin|exact Hex]. }
    destruct v as [s|[|[s|fields] others]]; try (apply Hrest; exact H).
    destruct (existsb _ _); [|apply Hrest; exact H].
    destruct (Hrest _ H) as [Hf|?]; [|right; assumption].
    injection Hf as <- <-. right. split; [left|eauto].
Qed.

Lemma find_template_spec k rows data idx items key :
  find_template k rows data = Some (idx, items, key) ->
  k <= idx < k + length rows
  /\ (key, VList items) ∈ data
  /\ exists fields others, items = IDict fields :: others.
Proof.
  revert k. induction rows as [|row rows IH]; intros k H; simpl in H; [discriminate|].
  destruct (match_row row data None) as [[items' key']|] eqn:E.
  - injection H as <- <- <-. apply match_row_spec in E as [?|[Hin Hex]]; [discriminate|].
    simpl. split; [lia|]. auto.
  - destruct (IH _ H) as (Hk & Hin & Hex). simpl. split; [lia|]. auto.
Qed.

Lemma match_row_empty row data found :
  (forall key items, (key, VList items) ∈ data -> items = []) ->
  match_row row data found = found.
Proof.
  revert found. induction data as [|[k v] data IH]; intros found H; simpl; [reflexivity|].
  assert (Hd : forall key items, (key, VList items) ∈ data -> items = []).
  { intros key items Hin. apply (H key). right. exact Hin. }
  destruct v as [s|[|[s|fields] others]]; try (apply IH; exact Hd).
  specialize (H k (IDict fields :: others) ltac:(left)). discriminate.
Qed.

Lemma find_template_empty k rows data :
  (forall key items, (key, VList items) ∈ data -> items = []) ->
  find_template k rows data = None.
Proof.
  intros H. revert k. induction rows as [|row rows IH]; intros k; simpl; [reflexivity|].
  rewrite match_row_empty by exact H. apply IH.
Qed.

Lemma put_tables_same (body : list Elem) : put_tables (tables body) body = body.
Proof.
  unfold tables. induction body as [|[i [p|t]] body IH]; simpl.
  - reflexivity.
  - f_equal. exact IH.
  - f_equal. exact IH.
Qed.

Lemma expand_tables_empty ts data :
  (forall key items, (key, VList items) ∈ data -> items = []) ->
  expand_tables ts data = inr (ts, 0).
Proof.
  intros H. induction ts as [|t ts IH]; simpl; [reflexivity|].
  unfold expand_table. rewrite find_template_empty by exact H. simpl.
  rewrite IH. reflexivity.
Qed.

End TableExpansion.

(* ================================================================== *)
(** * The placeholder report *)
(* ================================================================== *)

Section ReportLemmas.
Import Docx PlaceholderEngine PlaceholderReport Matches Visit.

Lemma for_each_app {A S : Type} (body : A -> S -> option S) xs ys st :
  for_each body (xs ++ ys) st = for_each body xs st ≫= for_each body ys.
Proof.
  revert st. induction xs as [|x xs IH]; intros st; simpl; [reflexivity|].
  destruct (body x st) as [st'|]; [apply IH | reflexivity].
Qed.

Lemma for_each_bind {A B S : Type} (body : B -> S -> option S) (g : A -> list B) xs st :
  for_each (fun x => for_each body (g x)) xs st = for_each body (xs ≫= g) st.
Proof.
  revert st. induction xs as [|x xs IH]; intros st; simpl; [reflexivity|].
  rewrite for_each_app. destruct (for_each body (g x) st) as [st'|]; simpl;
    [apply IH | reflexivity].
Qed.

Lemma for_each_ext {A S : Type} (f g : A -> S -> option S) xs st :
  (forall x st, f x st = g x st) -> for_each f xs st = for_each g xs st.
Proof.
  intros H. revert st. induction xs as [|x xs IH]; intros st; simpl; [reflexivity|].
  rewrite H. destruct (g x st); [apply IH | reflexivity].
Qed.

Lemma count_paragraphs_matches bump ps report :
  count_paragraphs bump ps report = for_each (count_match bump) (matches ps) report.
Proof. unfold count_paragraphs, matches. apply for_each_bind. Qed.

Lemma matches_app ps qs : matches (ps ++ qs) = matches ps ++ matches qs.
Proof. unfold matches. apply bind_app. Qed.

Lemma count_table_matches t report :
  count_table t report
  = for_each (count_match bump_tables) (matches (table_paragraphs t)) report.
Proof.
  unfold count_table, table_paragraphs, matches.
  rewrite <- for_each_bind. rewrite <- for_each_bind.
  apply for_each_ext. intros row st.
  rewrite <- for_each_bind. apply for_each_ext. intros cell st'.
  unfold count_paragraphs. reflexivity.
Qed.

Lemma occurrences_cons m n names :
  occurrences n (m :: names) = (if decide (m = n) then 1 else 0) + occurrences n names.
Proof.
  unfold occurrences. rewrite filter_cons. destruct (decide (m = n)); reflexivity.
Qed.

Lemma occurrences_app n l1 l2 :
  occurrences n (l1 ++ l2) = occurrences n l1 + occurrences n l2.
Proof. unfold occurrences. rewrite filter_app, length_app. reflexivity. Qed.

Lemma sum_counts_bump (m : gmap string nat) k n :
  m !! k = Some n -> sum_counts (<[k := S n]> m) = S (sum_counts m).
Proof.
  intros H. unfold sum_counts.
  rewrite <- (insert_delete_id m k n H) at 2.
  rewrite <- (insert_delete_eq m k (S n)).
  rewrite !map_fold_insert_L; try (intros; lia); apply lookup_delete_eq.
Qed.

Lemma sum_counts_zero (X : gset string) : sum_counts (gset_to_gmap 0 X) = 0.
Proof.
  unfold sum_counts.
  assert (H : forall m : gmap string nat,
             (forall i x, m !! i = Some x -> x = 0) ->
             map_fold (fun _ v acc => v + acc) 0 m = 0).
  { intros m. apply (map_fold_weak_ind
                       (fun r (m : gmap string nat) =>
                          (forall i x, m !! i = Some x -> x = 0) -> r = 0)).
    - reflexivity.
    - intros i x m' r Hi IH Hall.
      rewrite (Hall i x) by apply lookup_insert_eq.
      apply IH. intros j y Hj. apply (Hall j y).
      rewrite lookup_insert_ne; [exact Hj|]. intros ->. congruence. }
  apply H. intros i x Hx. apply lookup_gset_to_gmap_Some in Hx as [_ Hx]. auto.
Qed.

(** The loop over the matches of one location: it goes through when
    the dict has every name matched, and then each name has its
    occurrences added, the location the number of matches. *)
Lemma count_matches_spec bump names :
  forall report,
    (forall n, n ∈ names -> n ∈ dom (placeholders report)) ->
    exists report',
      for_each (count_match bump) names report = Some report'
      /\ total_unique report' = total_unique report
      /\ dom (placeholders report') = dom (placeholders report)
      /\ (forall n, placeholders report' !! n
                    = (fun c => c + occurrences n names) <$> placeholders report !! n)
      /\ locations report' = Nat.iter (length names) bump (locations report)
      /\ sum_counts (placeholders report')
         = sum_counts (placeholders report) + length names.
Proof.
  induction names as [|m names IH]; intros report Hin.
  - exists report. simpl. repeat split; try lia.
    intros n. destruct (placeholders report !! n); simpl; [f_equal; unfold occurrences; simpl; lia | reflexivity].
  - assert (Hm : m ∈ dom (placeholders report)) by (apply Hin; left).
    apply elem_of_dom in Hm as [c Hc].
    simpl. unfold count_match at 1. rewrite Hc.
    set (r1 := mkReport (total_unique report) (<[m := S c]> (placeholders report))
                        (bump (locations report))).
    destruct (IH r1) as (r' & E & Hu & Hd & Hl & Hloc & Hs).
    { intros n Hn. simpl. rewrite dom_insert_L. apply elem_of_union. right.
      apply Hin. right. exact Hn. }
    exists r'. split; [exact E|]. split; [exact Hu|]. split.
    { rewrite Hd. simpl. rewrite dom_insert_L.
      assert (m ∈ dom (placeholders report)) by (apply elem_of_dom; eauto).
      set_solver. }
    split.
    { intros n. rewrite Hl. simpl. rewrite occurrences_cons.
      destruct (decide (m = n)) as [->|Hne].
      - rewrite lookup_insert_eq, Hc. simpl. f_equal. lia.
      - rewrite lookup_insert_ne by exact Hne.
        destruct (placeholders report !! n); simpl; [f_equal; lia | reflexivity]. }
    split.
    { rewrite Hloc. simpl. rewrite <- Nat.iter_succ_r. reflexivity. }
    rewrite Hs. simpl. rewrite (sum_counts_bump _ _ _ Hc). lia.
Qed.

(** The names the scanner finds are the names matched in the
    paragraphs it visits. *)
Lemma found_matches d n :
  n ∈ find_all_placeholders d <-> n ∈ matches (scanned_paragraphs d).
Proof.
  unfold find_all_placeholders, scanned_paragraphs.
  rewrite (foldl_scan_spec scan_section section_paragraphs scan_section_spec).
  rewrite (foldl_scan_spec scan_table table_paragraphs scan_table_spec).
  rewrite scan_paragraphs_spec. unfold matches, hit.
  rewrite list_elem_of_bind. repeat setoid_rewrite elem_of_app.
  setoid_rewrite list_elem_of_In. setoid_rewrite findall_spec.
  setoid_rewrite <- list_elem_of_In.
  split.
  - intros [[[H|(p & Hp & H)]|(p & Hp & H)]|(p & Hp & H)]; [set_solver| | |];
      exists p; auto.
  - intros (p & H & [Hp|[Hp|Hp]]); eauto 8.
Qed.

Lemma iter_bump_body k l :
  Nat.iter k bump_body l
  = mkLocations (k + loc_body l) (loc_tables l) (loc_headers l) (loc_footers l).
Proof.
  induction k as [|k IH]; simpl; [destruct l; reflexivity|]. rewrite IH. reflexivity.
Qed.

Lemma iter_bump_tables k l :
  Nat.iter k bump_tables l
  = mkLocations (loc_body l) (k + loc_tables l) (loc_headers l) (loc_footers l).
Proof.
  induction k as [|k IH]; simpl; [destruct l; reflexivity|]. rewrite IH. reflexivity.
Qed.

Lemma iter_bump_headers k l :
  Nat.iter k bump_headers l
  = mkLocations (loc_body l) (loc_tables l) (k + loc_headers l) (loc_footers l).
Proof.
  induction k as [|k IH]; simpl; [destruct l; reflexivity|]. rewrite IH. reflexivity.
Qed.

Lemma iter_bump_footers k l :
  Nat.iter k bump_footers l
  = mkLocations (loc_body l) (loc_tables l) (loc_headers l) (k + loc_footers l).
Proof.
  induction k as [|k IH]; simpl; [destruct l; reflexivity|]. rewrite IH. reflexivity.
Qed.

Lemma tallied_nil r : tallied [] r r.
Proof.
  unfold tallied. repeat split; simpl; try lia.
  intros n. destruct (placeholders r !! n); simpl; [f_equal; unfold occurrences; simpl; lia | reflexivity].
Qed.

Lemma tallied_app l1 l2 r r1 r2 :
  tallied l1 r r1 -> tallied l2 r1 r2 -> tallied (l1 ++ l2) r r2.
Proof.
  intros (U1 & D1 & L1 & S1) (U2 & D2 & L2 & S2). unfold tallied.
  split; [congruence|]. split; [congruence|]. split.
  - intros n. rewrite L2, L1, occurrences_app.
    destruct (placeholders r !! n); simpl; [f_equal; lia | reflexivity].
  - rewrite S2, S1, length_app. lia.
Qed.

Lemma count_matches_tallied bump names report :
  (forall n, n ∈ names -> n ∈ dom (placeholders report)) ->
  exists report',
    for_each (count_match bump) names report = Some report'
    /\ tallied names report report'
    /\ locations report' = Nat.iter (length names) bump (locations report).
Proof.
  intros H. destruct (count_matches_spec bump names report H)
    as (r' & E & U & D & L & Loc & S).
  exists r'. unfold tallied. auto 10.
Qed.

(** The loop over the sections. *)
Lemma count_sections_spec ss :
  forall report,
    (forall n, n ∈ matches (ss ≫= section_paragraphs) -> n ∈ dom (placeholders report)) ->
    exists report',
      for_each count_section ss report = Some report'
      /\ tallied (matches (ss ≫= section_paragraphs)) report report'
      /\ locations report'
         = mkLocations
             (loc_body (locations report)) (loc_tables (locations report))
             (length (matches (ss ≫= (fun s => part_paragraphs (header s))))
              + loc_headers (locations report))
             (length (matches (ss ≫= (fun s => part_paragraphs (footer s))))
              + loc_footers (locations report)).
Proof.
  induction ss as [|s ss IH]; intros report Hin.
  - exists report. split; [reflexivity|]. split; [apply tallied_nil|].
    simpl. destruct (locations report); reflexivity.
  - rewrite bind_cons, matches_app in Hin. unfold section_paragraphs at 1 in Hin.
    rewrite matches_app in Hin.
    destruct (count_matches_tallied bump_headers (matches (part_paragraphs (header s))) report)
      as (r1 & E1 & T1 & L1).
    { intros n Hn. apply Hin. rewrite !elem_of_app. auto. }
    destruct (count_matches_tallied bump_footers (matches (part_paragraphs (footer s))) r1)
      as (r2 & E2 & T2 & L2).
    { intros n Hn. destruct T1 as (_ & -> & _). apply Hin. rewrite !elem_of_app. auto. }
    destruct (IH r2) as (r3 & E3 & T3 & L3).
    { intros n Hn. destruct T2 as (_ & -> & _). destruct T1 as (_ & -> & _).
      apply Hin. rewrite !elem_of_app. auto. }
    exists r3. split.
    { simpl. unfold count_section at 1.
      assert (H1 : match header s with
                   | Some h => count_paragraphs bump_headers (hf_paragraphs h) report
                   | None => Some report
                   end = Some r1).
      { destruct (header s) as [h|]; simpl in E1; [rewrite count_paragraphs_matches|];
          exact E1. }
      rewrite H1.
      assert (H2 : match footer s with
                   | Some f => count_paragraphs bump_footers (hf_paragraphs f) r1
                   | None => Some r1
                   end = Some r2).
      { destruct (footer s) as [f|]; simpl in E2; [rewrite count_paragraphs_matches|];
          exact E2. }
      rewrite H2. exact E3. }
    split.
    { rewrite bind_cons, matches_app. unfold section_paragraphs at 1. rewrite matches_app.
      eapply tallied_app; [eapply tallied_app; eassumption | exact T3]. }
    rewrite L3, L2, L1, iter_bump_footers, iter_bump_headers.
    cbn [loc_body loc_tables loc_headers loc_footers].
    rewrite !bind_cons, !matches_app, !length_app. f_equal; lia.
Qed.

Lemma matches_sections ss :
  length (matches (ss ≫= section_paragraphs))
  = length (matches (ss ≫= (fun s => part_paragraphs (header s))))
    + length (matches (ss ≫= (fun s => part_paragraphs (footer s)))).
Proof.
  induction ss as [|s ss IH]; [reflexivity|].
  rewrite !bind_cons, !matches_app, !length_app, IH. unfold section_paragraphs.
  rewrite matches_app, length_app. lia.
Qed.

(** X2: [get_placeholder_report] never raises [KeyError] and its
    numbers add up.  Its [total_unique] is the size of the set of
    [find_all_placeholders], the keys of its [placeholders] are that
    set, the count of a name is the number of matches of the name in
    the paragraphs the scanner visits, each location counts the
    matches of its paragraphs, and the counts of all names sum up to
    the four location counts together. *)
Theorem get_placeholder_report_counts d :
  exists r,
    get_placeholder_report d = Some r
    /\ total_unique r = size (find_all_placeholders d)
    /\ dom (placeholders r) = find_all_placeholders d
    /\ (forall n, n ∈ find_all_placeholders d ->
                  placeholders r !! n
                  = Some (occurrences n (matches (scanned_paragraphs d))))
    /\ locations r
       = mkLocations
           (length (matches (paragraphs (doc_body d))))
           (length (matches (tables (doc_body d) ≫= table_paragraphs)))
           (length (matches (doc_sections d ≫= (fun s => part_paragraphs (header s)))))
           (length (matches (doc_sections d ≫= (fun s => part_paragraphs (footer s)))))
    /\ sum_counts (placeholders r) = total_locations (locations r).
Proof.
  unfold get_placeholder_report.
  set (r0 := mkReport (size (find_all_placeholders d))
                      (gset_to_gmap 0 (find_all_placeholders d)) (mkLocations 0 0 0 0)).
  assert (Hdom : dom (placeholders r0) = find_all_placeholders d)
    by (simpl; apply dom_gset_to_gmap).
  assert (Hall : forall n, n ∈ matches (scanned_paragraphs d) -> n ∈ dom (placeholders r0)).
  { intros n Hn. rewrite Hdom. apply found_matches. exact Hn. }
  unfold scanned_paragraphs in Hall. rewrite !matches_app in Hall.
  destruct (count_matches_tallied bump_body (matches (paragraphs (doc_body d))) r0)
    as (r1 & E1 & T1 & L1).
  { intros n Hn. apply Hall. rewrite !elem_of_app. auto. }
  rewrite count_paragraphs_matches, E1.
  destruct (count_matches_tallied bump_tables
              (matches (tables (doc_body d) ≫= table_paragraphs)) r1)
    as (r2 & E2 & T2 & L2).
  { intros n Hn. destruct T1 as (_ & -> & _). apply Hall. rewrite !elem_of_app. auto. }
  assert (E2' : for_each count_table (tables (doc_body d)) r1 = Some r2).
  { rewrite <- E2. unfold matches at 1. rewrite <- for_each_bind.
    rewrite <- for_each_bind. apply for_each_ext. intros t st.
    rewrite count_table_matches. unfold matches. rewrite for_each_bind. reflexivity. }
  rewrite E2'.
  destruct (count_sections_spec (doc_sections d) r2) as (r3 & E3 & T3 & L3).
  { intros n Hn. destruct T2 as (_ & -> & _). destruct T1 as (_ & -> & _).
    apply Hall. rewrite !elem_of_app. auto. }
  exists r3. split; [exact E3|].
  assert (T : tallied (matches (scanned_paragraphs d)) r0 r3).
  { unfold scanned_paragraphs. rewrite !matches_app.
    eapply tallied_app; [exact T1|]. eapply tallied_app; [exact T2 | exact T3]. }
  destruct T as (U & D & L & S).
  assert (Hloc : locations r3
       = mkLocations
           (length (matches (paragraphs (doc_body d))))
           (length (matches (tables (doc_body d) ≫= table_paragraphs)))
           (length (matches (doc_sections d ≫= (fun s => part_paragraphs (header s)))))
           (length (matches (doc_sections d ≫= (fun s => part_paragraphs (footer s)))))).
  { rewrite L3, L2, L1, iter_bump_tables, iter_bump_body.
    cbn [loc_body loc_tables loc_headers loc_footers r0 locations]. f_equal; lia. }
  split; [exact U|]. split; [rewrite D; exact Hdom|]. split.
  { intros n Hn. rewrite L. simpl. rewrite lookup_gset_to_gmap.
    rewrite option_guard_True by exact Hn. reflexivity. }
  split; [exact Hloc|].
  rewrite S, Hloc. simpl. rewrite sum_counts_zero. unfold total_locations. simpl.
  unfold scanned_paragraphs. rewrite !matches_app, !length_app.
  rewrite (matches_sections (doc_sections d)). lia.
Qed.

End ReportLemmas.

(* ================================================================== *)
(** * The preview and the validation *)
(* ================================================================== *)

Section PreviewLemmas.
Import Docx PlaceholderEngine PlaceholderReport Matches Visit Subst.

Lemma replace_each_subst data t : replace_each data t = subst data t.
Proof.
  unfold replace_each. revert t. induction data as [|[k v] data IH]; intros t; simpl.
  - rewrite subst_nil. reflexivity.
  - rewrite subst_cons. apply IH.
Qed.


Lemma preview_loop_spec data max_examples ps :
  forall examples count,
    preview_loop ps data max_examples examples count
    = examples ++ take (Z.to_nat (max_examples - count)) (omap (candidate data) ps).
Proof.
  induction ps as [|p ps IH]; intros examples count; simpl.
  - rewrite take_nil, app_nil_r. reflexivity.
  - destruct (Z.leb_spec max_examples count) as [Hle|Hlt].
    + replace (Z.to_nat (max_examples - count)) with 0 by lia.
      rewrite take_0, app_nil_r. reflexivity.
    + unfold candidate at 1.
      destruct (Pattern.search (para_text p)); simpl; [|apply IH].
      destruct (String.eqb (para_text p) (replace_each data (para_text p))); simpl;
        [apply IH|].
      rewrite IH, <- app_assoc. simpl.
      replace (Z.to_nat (max_examples - count))
        with (S (Z.to_nat (max_examples - (count + 1)))) by lia.
      reflexivity.
Qed.

Lemma preview_replacements_candidates d data max_examples :
  preview_replacements d data max_examples
  = take (Z.to_nat max_examples) (omap (candidate data) (paragraphs (doc_body d))).
Proof.
  unfold preview_replacements. rewrite preview_loop_spec, Z.sub_0_r. reflexivity.
Qed.

(** X3: [preview_replacements] gives the first [max_examples] body
    paragraphs that hold a placeholder and that the replacements
    change, in order; with [max_examples <= 0] it gives none.  In
    each example the replaced text differs from the original and is
    the original taken through the loop over [data.items()]. *)
Theorem preview_replacements_take d data max_examples :
  preview_replacements d data max_examples
  = take (Z.to_nat max_examples) (omap (candidate data) (paragraphs (doc_body d)))
  /\ length (preview_replacements d data max_examples) <= Z.to_nat max_examples
  /\ ((max_examples <= 0)%Z -> preview_replacements d data max_examples = [])
  /\ (forall original replaced,
        (original, replaced) ∈ preview_replacements d data max_examples ->
        original <> replaced
        /\ replaced = subst data original
        /\ exists p, p ∈ paragraphs (doc_body d) /\ para_text p = original
                     /\ Pattern.search original = true).
Proof.
  pose proof (preview_replacements_candidates d data max_examples) as E.
  split; [exact E|]. split; [rewrite E, length_take; lia|]. split.
  { intros H. rewrite E. replace (Z.to_nat max_examples) with 0 by lia. apply take_0. }
  intros original replaced Hin. rewrite E in Hin.
  apply elem_of_take in Hin as (i & Hin & _). apply list_elem_of_lookup_2 in Hin.
  apply list_elem_of_omap in Hin as (p & Hp & Hc).
  unfold candidate in Hc.
  destruct (Pattern.search (para_text p)) eqn:Hs; simpl in Hc; [|discriminate].
  destruct (String.eqb (para_text p) (replace_each data (para_text p))) eqn:Hq;
    simpl in Hc; [discriminate|].
  injection Hc as <- <-. apply String.eqb_neq in Hq.
  split; [exact Hq|]. split; [apply replace_each_subst|]. eauto.
Qed.




Lemma found_spec d n :
  n ∈ find_all_placeholders d
  <-> is_name n = true
      /\ exists p, p ∈ scanned_paragraphs d /\ occurs (token n) (para_text p).
Proof.
  rewrite found_matches. unfold matches. rewrite list_elem_of_bind.
  setoid_rewrite list_elem_of_In. setoid_rewrite findall_spec.
  setoid_rewrite <- list_elem_of_In. split.
  - intros (p & [Hn Ho] & Hp). eauto.
  - intros (Hn & p & Hp & Ho). eauto.
Qed.

(** X5: which keys [validate_data] reports as unused: the keys of the
    mapping but for those that are names of the grammar with their
    token in a scanned paragraph.  A key that is no name of the
    grammar is always unused; no name is listed twice, and no name is
    both missing and unused. *)
Theorem validate_data_unused d data :
  (forall k, k ∈ unused (validate_data d data)
             <-> k ∈ data.*1
                 /\ ~ (is_name k = true
                       /\ exists p, p ∈ scanned_paragraphs d
                                    /\ occurs (token k) (para_text p)))
  /\ NoDup (unused (validate_data d data))
  /\ NoDup (missing (validate_data d data))
  /\ (forall k, k ∈ data.*1 -> is_name k = false -> k ∈ unused (validate_data d data))
  /\ (forall k, k ∈ missing (validate_data d data) -> k ∉ unused (validate_data d data)).
Proof.
  unfold validate_data. simpl.
  assert (H : forall k, k ∈ elements (list_to_set data.*1 ∖ find_all_placeholders d)
                        <-> k ∈ data.*1 /\ k ∉ find_all_placeholders d).
  { intros k. rewrite elem_of_elements, elem_of_difference, elem_of_list_to_set.
    reflexivity. }
  split; [|split; [apply NoDup_elements | split; [apply NoDup_elements | split]]].
  - intros k. rewrite H, found_spec. reflexivity.
  - intros k Hk Hn. apply H. split; [exact Hk|]. rewrite found_spec.
    intros [Hn' _]. congruence.
  - intros k Hm Hu. apply H in Hu as [_ Hu].
    rewrite elem_of_elements, elem_of_difference in Hm. tauto.
Qed.

End PreviewLemmas.

(* ================================================================== *)
(** * The image cache *)
(* ================================================================== *)

Section CacheLemmas.
Import Docx ImageReplacer ImageCache CacheFacts Media Examples.

Lemma image_rels_cons rid rel rels :
  image_rels ((rid, rel) :: rels)
  = if PyStr.contains "image" (reltype rel)
    then (rid, rel) :: image_rels rels else image_rels rels.
Proof.
  unfold image_rels. rewrite filter_cons. simpl.
  destruct (PyStr.contains "image" (reltype rel)); reflexivity.
Qed.

Lemma scan_rels_spec rels drawings loc s :
  forall i0,
    scan_rels rels drawings loc s i0
    = imap (fun i => info_of drawings loc s (i0 + i)) (image_rels rels).
Proof.
  induction rels as [|[rid rel] rels IH]; intros i0; [reflexivity|].
  rewrite image_rels_cons. simpl.
  destruct (PyStr.contains "image" (reltype rel)); [|apply IH].
  rewrite imap_cons. unfold info_of at 2. simpl. rewrite Nat.add_0_r. f_equal.
  rewrite IH. apply imap_ext. intros i x _. simpl.
  replace (S (i0 + i)) with (i0 + S i) by lia. reflexivity.
Qed.

Lemma scan_part_infos rels drawings loc s :
  scan_rels rels drawings loc s 0 = part_infos rels drawings loc s.
Proof. rewrite scan_rels_spec. reflexivity. Qed.

Lemma part_infos_lookup rels drawings loc s i img :
  part_infos rels drawings loc s !! i = Some img ->
  index img = i /\ section_idx img = s /\ location img = loc
  /\ exists rel, image_rels rels !! i = Some (rel_id img, rel)
                 /\ target img = target_ref rel
                 /\ img = info_of drawings loc s i (rel_id img, rel).
Proof.
  unfold part_infos. rewrite list_lookup_imap.
  destruct (image_rels rels !! i) as [[rid rel]|] eqn:E; simpl; [|discriminate].
  intros H. injection H as <-. simpl. repeat split. exists rel. auto.
Qed.

Lemma part_infos_sections rels drawings loc s :
  Forall (fun img => section_idx img = s) (part_infos rels drawings loc s).
Proof.
  apply Forall_lookup. intros i img H. apply part_infos_lookup in H. tauto.
Qed.

Lemma filter_section_same (l : list ImageInfo) (s : nat) :
  Forall (fun img => section_idx img = s) l ->
  filter (fun img => Z.of_nat (section_idx img) = Z.of_nat s) l = l.
Proof.
  induction 1 as [|img l H _ IH]; [reflexivity|].
  rewrite filter_cons, decide_True by (rewrite H; reflexivity). rewrite IH. reflexivity.
Qed.

Lemma filter_section_other (l : list ImageInfo) (s : nat) (z : Z) :
  Forall (fun img => section_idx img = s) l -> Z.of_nat s <> z ->
  filter (fun img => Z.of_nat (section_idx img) = z) l = [].
Proof.
  intros H Hne. induction H as [|img l H _ IH]; [reflexivity|].
  rewrite filter_cons, decide_False by (rewrite H; exact Hne). exact IH.
Qed.

(** The caches of the headers and footers after the loop over the
    sections, seen through the filter of the getters. *)
Lemma scan_sections_spec (z : Z) sections :
  forall k cache,
    filter (fun img => Z.of_nat (section_idx img) = z)
           (cache_headers (scan_sections k sections cache))
    = filter (fun img => Z.of_nat (section_idx img) = z) (cache_headers cache)
      ++ (if (Z.of_nat k <=? z)%Z
          then match sections !! (Z.to_nat z - k) ≫= header with
               | Some h => part_infos (hf_rels h) (hf_drawings h) "headers" (Z.to_nat z)
               | None => []
               end
          else [])
    /\ filter (fun img => Z.of_nat (section_idx img) = z)
              (cache_footers (scan_sections k sections cache))
       = filter (fun img => Z.of_nat (section_idx img) = z) (cache_footers cache)
         ++ (if (Z.of_nat k <=? z)%Z
             then match sections !! (Z.to_nat z - k) ≫= footer with
                  | Some f => part_infos (hf_rels f) (hf_drawings f) "footers" (Z.to_nat z)
                  | None => []
                  end
             else [])
    /\ cache_body (scan_sections k sections cache) = cache_body cache.
Proof.
  induction sections as [|sec sections IH]; intros k cache.
  - cbn [scan_sections]. rewrite lookup_nil. cbn [mbind option_bind].
    destruct (Z.of_nat k <=? z)%Z; rewrite !app_nil_r; auto.
  - cbn [scan_sections].
    destruct (header sec) as [h|] eqn:Hh, (footer sec) as [f|] eqn:Hf; cbv zeta;
      match goal with
      | |- context [scan_sections (S k) sections ?c] =>
          destruct (IH (S k) c) as (-> & -> & ->)
      end;
      cbn [cache_headers cache_footers cache_body];
      rewrite ?filter_app; unfold _scan_part_images; rewrite ?scan_part_infos;
      (destruct (decide (Z.of_nat k = z)) as [<-|Hne];
       [ repeat match goal with
                | |- context [filter _ (part_infos ?a ?b ?c ?s)] =>
                    rewrite (filter_section_same (part_infos a b c s) s)
                      by apply part_infos_sections
                end;
         rewrite Nat2Z.id, Nat.sub_diag;
         change ((sec :: sections) !! 0) with (Some sec);
         cbn [mbind option_bind]; rewrite ?Hh, ?Hf;
         rewrite (proj2 (Z.leb_le (Z.of_nat k) (Z.of_nat k))) by lia;
         rewrite (proj2 (Z.leb_gt (Z.of_nat (S k)) (Z.of_nat k))) by lia;
         rewrite ?app_nil_r; auto
       | repeat match goal with
                | |- context [filter _ (part_infos ?a ?b ?c ?s)] =>
                    rewrite (filter_section_other (part_infos a b c s) s z)
                      by (apply part_infos_sections || exact Hne)
                end;
         rewrite ?app_nil_r;
         destruct (Z.leb_spec (Z.of_nat k) z);
         [ rewrite (proj2 (Z.leb_le (Z.of_nat (S k)) z)) by lia;
           replace (Z.to_nat z - k) with (S (Z.to_nat z - S k)) by lia;
           change ((sec :: sections) !! S (Z.to_nat z - S k))
             with (sections !! (Z.to_nat z - S k)); auto
         | rewrite (proj2 (Z.leb_gt (Z.of_nat (S k)) z)) by lia; auto ] ]).
Qed.

(** X6: the image cache numbers the images as the replace operations
    do.  The images listed for a part are its image relationships in
    order, image number [i] being relationship number [i] with its
    id and target, for the section asked for; a negative section
    index lists nothing.  So replacing the body image of the index a
    cache entry tells puts the bytes of the file into the part that
    entry names; the replace returns [True] when the extension of
    the file is none of the content type table, and raises when it
    is one. *)
Theorem cache_follows_relationships d :
  get_body_images_info (init d) = part_infos (doc_rels d) (doc_drawings d) "body" 0
  /\ (forall s : nat,
        get_header_images_info (init d) (Z.of_nat s)
        = match doc_sections d !! s ≫= header with
          | Some h => part_infos (hf_rels h) (hf_drawings h) "headers" s
          | None => []
          end
        /\ get_footer_images_info (init d) (Z.of_nat s)
           = match doc_sections d !! s ≫= footer with
             | Some f => part_infos (hf_rels f) (hf_drawings f) "footers" s
             | None => []
             end)
  /\ (forall z, (z < 0)%Z ->
                get_header_images_info (init d) z = []
                /\ get_footer_images_info (init d) z = [])
  /\ (forall rels drawings loc s i img,
        part_infos rels drawings loc s !! i = Some img ->
        index img = i /\ section_idx img = s
        /\ exists rel, image_rels rels !! i = Some (rel_id img, rel)
                       /\ target img = target_ref rel)
  /\ (forall i img fs path data,
        get_body_images_info (init d) !! i = Some img ->
        fs path = Readable data ->
        exists rel,
          rels_get (rel_id img) (doc_rels d) <> None
          /\ image_rels (doc_rels d) !! index img = Some (rel_id img, rel)
          /\ replace_body_image_by_index fs d (Z.of_nat (index img)) path
             = (with_blob data rel d,
                if recognised path then inl AttributeError else inr true)).
Proof.
  assert (Hbody : get_body_images_info (init d)
                  = part_infos (doc_rels d) (doc_drawings d) "body" 0).
  { unfold get_body_images_info, init, _scan_images. simpl.
    destruct (scan_sections_spec 0 (doc_sections d) 0 (mkCache [] [] [])) as (_ & _ & ->).
    simpl. unfold _scan_body_images. apply scan_part_infos. }
  split; [exact Hbody|]. split.
  { intros s. unfold get_header_images_info, get_footer_images_info, init, _scan_images.
    simpl.
    destruct (scan_sections_spec (Z.of_nat s) (doc_sections d) 0 (mkCache [] [] []))
      as (-> & -> & _).
    simpl. rewrite Nat2Z.id, Nat.sub_0_r.
    rewrite (proj2 (Z.leb_le (Z.of_nat 0) (Z.of_nat s))) by lia. auto. }
  split.
  { intros z Hz. unfold get_header_images_info, get_footer_images_info, init, _scan_images.
    simpl.
    destruct (scan_sections_spec z (doc_sections d) 0 (mkCache [] [] []))
      as (-> & -> & _).
    simpl. rewrite (proj2 (Z.leb_gt (Z.of_nat 0) z)) by lia. auto. }
  split.
  { intros rels drawings loc s i img H. apply part_infos_lookup in H.
    destruct H as (H1 & H2 & _ & rel & H3 & H4 & _). eauto 6. }
  intros i img fs path data Hi Hfs. rewrite Hbody in Hi.
  apply part_infos_lookup in Hi as (Hidx & _ & _ & rel & Hrel & _ & _).
  exists rel. rewrite Hidx. split; [|split; [exact Hrel|]].
  - assert (Hin : (rel_id img, rel) ∈ doc_rels d).
    { apply list_elem_of_lookup_2 in Hrel. unfold image_rels in Hrel.
      apply list_elem_of_filter in Hrel. tauto. }
    clear -Hin. induction (doc_rels d) as [|[k r] l IH]; [inversion Hin|].
    simpl. destruct (String.eqb_spec k (rel_id img)); [discriminate|].
    apply IH. inversion Hin; subst; [congruence | assumption].
  - unfold replace_body_image_by_index.
    assert (He : exists_ fs path = true) by (unfold exists_; rewrite Hfs; reflexivity).
    rewrite He. simpl.
    assert (Hlt : i < length (image_rels (doc_rels d)))
      by (eapply lookup_lt_Some; exact Hrel).
    rewrite (proj2 (Z.leb_gt (Z.of_nat (length (image_rels (doc_rels d)))) (Z.of_nat i)))
      by lia.
    rewrite (py_index_nonneg _ _ (rel_id img, rel)); [|lia|rewrite Nat2Z.id; exact Hrel].
    apply swap_blob_readable. exact Hfs.
Qed.

Lemma scan_images_media_only d d' : media_only d d' -> _scan_images d' = _scan_images d.
Proof.
  intros (_ & Hs & Hr & Hd & _). unfold _scan_images, _scan_body_images.
  rewrite Hs, Hr, Hd. reflexivity.
Qed.

End CacheLemmas.

Section BatchMedia.
Import Docx ImageReplacer ImageCache CacheFacts Media Examples.
Context (u : string -> option Z).

(** X7: replacing images changes the content of media parts and
    nothing else: body, sections, relationships and drawings stay and
    no media part comes or goes.  So a cache filled before a batch is
    the cache a new replacer would fill after it, sizes included. *)
Theorem replace_images_batch_media_only fs d replacements :
  media_only d (replace_images_batch u fs d replacements).1
  /\ _scan_images (replace_images_batch u fs d replacements).1 = _scan_images d
  /\ (forall location idx sidx,
        get_image_dimensions (init (replace_images_batch u fs d replacements).1)
                             location idx sidx
        = get_image_dimensions (init d) location idx sidx)
  /\ (forall key path, media_only d (replace_one u fs d key path).1)
  /\ (forall rid path, media_only d (replace_body_image_by_rel_id fs d rid path).1).
Proof.
  assert (H : media_only d (replace_images_batch u fs d replacements).1)
    by apply batch_loop_media_only.
  split; [exact H|]. split; [apply scan_images_media_only, H|]. split.
  { intros location idx sidx. unfold get_image_dimensions, init. simpl.
    rewrite (scan_images_media_only _ _ H). reflexivity. }
  split; [intros; apply replace_one_media_only|].
  intros rid path. unfold replace_body_image_by_rel_id.
  destruct (negb _); [apply media_only_refl|].
  destruct (rels_get _ _); [|apply media_only_refl].
  destruct (negb _); [apply media_only_refl | apply swap_blob_media_only].
Qed.

End BatchMedia.

Section RelIdLemmas.
Import Docx ImageReplacer ImageCache CacheFacts Media Examples.

Lemma rels_get_elem rid rel rels :
  NoDup rels.*1 -> (rid, rel) ∈ rels -> rels_get rid rels = Some rel.
Proof.
  induction rels as [|[k r] rels IH]; intros Hnd Hin; [inversion Hin|].
  simpl in *. apply NoDup_cons in Hnd as [Hk Hnd].
  destruct (String.eqb_spec k rid) as [->|Hne].
  - inversion Hin; subst; [reflexivity|]. exfalso. apply Hk.
    apply list_elem_of_fmap. exists (rid, rel). auto.
  - inversion Hin; subst; [congruence|]. apply IH; assumption.
Qed.

Lemma rels_get_none rid rels : rid ∉ rels.*1 -> rels_get rid rels = None.
Proof.
  induction rels as [|[k r] rels IH]; intros Hin; [reflexivity|].
  simpl in *. destruct (String.eqb_spec k rid) as [->|Hne].
  - exfalso. apply Hin. left.
  - apply IH. intros H. apply Hin. right. exact H.
Qed.

(** X8: replacing a body image by its relationship id.  With
    relationship ids that are distinct, the id of image relationship
    number [i] does what [replace_body_image_by_index] does for [i];
    an id the document does not have, the id of a relationship that
    is no image, and a missing file give [False] and leave the
    document as it is. *)
Theorem replace_by_rel_id_agrees fs d path :
  NoDup (doc_rels d).*1 ->
  (forall i rid rel,
      image_rels (doc_rels d) !! i = Some (rid, rel) ->
      replace_body_image_by_rel_id fs d rid path
      = replace_body_image_by_index fs d (Z.of_nat i) path)
  /\ (forall rid, rid ∉ (doc_rels d).*1 ->
                  replace_body_image_by_rel_id fs d rid path = (d, inr false))
  /\ (forall rid rel,
        (rid, rel) ∈ doc_rels d -> PyStr.contains "image" (reltype rel) = false ->
        replace_body_image_by_rel_id fs d rid path = (d, inr false))
  /\ (fs path = Missing ->
      forall rid, replace_body_image_by_rel_id fs d rid path = (d, inr false)).
Proof.
  intros Hnd. split; [|split; [|split]].
  - intros i rid rel Hi.
    assert (Hin : (rid, rel) ∈ doc_rels d /\ PyStr.contains "image" (reltype rel) = true).
    { apply list_elem_of_lookup_2 in Hi. unfold image_rels in Hi.
      apply list_elem_of_filter in Hi. tauto. }
    destruct Hin as [Hin Him].
    unfold replace_body_image_by_rel_id, replace_body_image_by_index.
    destruct (negb (exists_ fs path)); [reflexivity|].
    rewrite (rels_get_elem _ _ _ Hnd Hin), Him. simpl.
    assert (Hlt : i < length (image_rels (doc_rels d)))
      by (eapply lookup_lt_Some; exact Hi).
    rewrite (proj2 (Z.leb_gt (Z.of_nat (length (image_rels (doc_rels d)))) (Z.of_nat i)))
      by lia.
    rewrite (py_index_nonneg _ _ (rid, rel)); [reflexivity|lia|rewrite Nat2Z.id; exact Hi].
  - intros rid Hin. unfold replace_body_image_by_rel_id.
    destruct (negb (exists_ fs path)); [reflexivity|].
    rewrite rels_get_none by exact Hin. reflexivity.
  - intros rid rel Hin Him. unfold replace_body_image_by_rel_id.
    destruct (negb (exists_ fs path)); [reflexivity|].
    rewrite (rels_get_elem _ _ _ Hnd Hin), Him. reflexivity.
  - intros Hfs rid. unfold replace_body_image_by_rel_id, exists_. rewrite Hfs. reflexivity.
Qed.

(** The body image of the example, by its relationship id and by its
    index. *)
Lemma replace_by_rel_id_agrees_witness :
  replace_body_image_by_rel_id files doc_images "rId2" "a.jpg"
  = replace_body_image_by_index files doc_images 0 "a.jpg".
Proof.
  apply (proj1 (replace_by_rel_id_agrees files doc_images "a.jpg"
                  ltac:(apply (bool_decide_unpack _); vm_compute; reflexivity))
               0 "rId2"
               (mkRel image_rel_type "media/image1.png" "/word/media/image1.png")).
  vm_compute. reflexivity.
Defined.

End RelIdLemmas.

(* ================================================================== *)
(** * Image dimensions *)
(* ================================================================== *)

Section DimensionLemmas.
Import Docx ImageReplacer ImageCache CacheFacts Media Examples.

(** The lists the two loops go through, by location. *)
Lemma cache_get_cases cache location :
  (location = "body" /\ cache_get cache (cache_key location) = cache_body cache)
  \/ (location = "header" /\ cache_key location = "headers"
      /\ cache_get cache (cache_key location) = cache_headers cache)
  \/ (location = "footer" /\ cache_key location = "footers"
      /\ cache_get cache (cache_key location) = cache_footers cache)
  \/ cache_get cache (cache_key location) = [].
Proof.
  unfold cache_key. destruct (String.eqb_spec location "body") as [->|Hb]; simpl.
  { left. split; reflexivity. }
  unfold cache_get.
  destruct (String.eqb_spec (location +:+ "s") "headers") as [Hh|Hh].
  { right. left. apply (str_app_inv_tail location "header" "s") in Hh. subst. auto. }
  destruct (String.eqb_spec (location +:+ "s") "footers") as [Hf|Hf].
  { right. right. left. apply (str_app_inv_tail location "footer" "s") in Hf. subst. auto. }
  destruct (String.eqb_spec (location +:+ "s") "body") as [Hy|Hy]; [|auto].
  exfalso. destruct location as [|c1 [|c2 [|c3 [|c4 [|c5 l]]]]]; simpl in Hy;
    try discriminate; injection Hy as -> -> -> H; discriminate.
Qed.

Lemma set_dimensions_none l key loc idx w h sidx d :
  Forall (fun img => Z.of_nat (index img) <> idx) l ->
  set_dimensions l key loc idx w h sidx d = (d, false).
Proof.
  induction 1 as [|img l H _ IH]; [reflexivity|]. simpl.
  unfold selects. rewrite (proj2 (Z.eqb_neq _ _) H). simpl. exact IH.
Qed.

Lemma find_dimensions_none l loc idx sidx :
  Forall (fun img => Z.of_nat (index img) <> idx) l ->
  find_dimensions l loc idx sidx = None.
Proof.
  induction 1 as [|img l H _ IH]; [reflexivity|]. simpl.
  unfold selects. rewrite (proj2 (Z.eqb_neq _ _) H). simpl. exact IH.
Qed.

Lemma numbered_tail (l : list ImageInfo) i0 s img :
  (forall j x, (img :: l) !! j = Some x -> index x = i0 + j /\ section_idx x = s) ->
  (forall j x, l !! j = Some x -> index x = S i0 + j /\ section_idx x = s)
  /\ index img = i0 /\ section_idx img = s.
Proof.
  intros H. split.
  - intros j x Hj. destruct (H (S j) x Hj) as [H1 H2]. split; [lia | exact H2].
  - destruct (H 0 img eq_refl) as [H1 H2]. split; [lia | exact H2].
Qed.

Lemma numbered_later (l : list ImageInfo) i0 s idx :
  (forall j x, l !! j = Some x -> index x = i0 + j /\ section_idx x = s) ->
  (idx < Z.of_nat i0)%Z ->
  Forall (fun img => Z.of_nat (index img) <> idx) l.
Proof.
  intros H Hlt. apply Forall_lookup. intros j x Hj. destruct (H j x Hj) as [-> _]. lia.
Qed.

(** On the images of one section, numbered in order, the loop of
    [set_image_dimensions] comes to the image of that number. *)
Lemma set_dimensions_numbered key loc idx w h sidx d s :
  String.eqb loc "body" || (Z.of_nat s =? sidx)%Z = true ->
  forall l i0,
    (forall j x, l !! j = Some x -> index x = i0 + j /\ section_idx x = s) ->
    set_dimensions l key loc idx w h sidx d
    = match (if (idx <? Z.of_nat i0)%Z then None else l !! (Z.to_nat idx - i0)) with
      | Some img => set_at d key w h img
      | None => (d, false)
      end.
Proof.
  intros Hsec. induction l as [|img l IH]; intros i0 Hn.
  - simpl. rewrite lookup_nil. destruct (idx <? Z.of_nat i0)%Z; reflexivity.
  - apply numbered_tail in Hn as (Hl & Hi & Hs).
    cbn [set_dimensions]. unfold selects. rewrite Hi, Hs, Hsec, andb_true_r.
    destruct (Z.eqb_spec (Z.of_nat i0) idx) as [<-|Hne].
    + rewrite (proj2 (Z.ltb_ge _ _)) by lia. rewrite Nat2Z.id, Nat.sub_diag.
      change ((img :: l) !! 0) with (Some img).
      rewrite (set_dimensions_none l) by (eapply numbered_later; [exact Hl | lia]).
      unfold set_at. rewrite ?Hs.
      destruct (drawing_element img) as [k|]; [|reflexivity].
      destruct (part_drawings d key s) as [ds|]; [|reflexivity].
      destruct (ds !! k) as [dr|]; [|reflexivity].
      destruct (drawing_extent dr); reflexivity.
    + rewrite (IH (S i0) Hl).
      destruct (Z.ltb_spec idx (Z.of_nat i0)) as [Hlt|Hge].
      * rewrite (proj2 (Z.ltb_lt _ _)) by lia. reflexivity.
      * rewrite (proj2 (Z.ltb_ge _ _)) by lia.
        replace (Z.to_nat idx - i0) with (S (Z.to_nat idx - S i0)) by lia.
        reflexivity.
Qed.

Lemma find_dimensions_numbered loc idx sidx s :
  String.eqb loc "body" || (Z.of_nat s =? sidx)%Z = true ->
  forall l i0,
    (forall j x, l !! j = Some x -> index x = i0 + j /\ section_idx x = s) ->
    find_dimensions l loc idx sidx
    = (if (idx <? Z.of_nat i0)%Z then None else l !! (Z.to_nat idx - i0)) ≫= dims_of.
Proof.
  intros Hsec. induction l as [|img l IH]; intros i0 Hn.
  - simpl. rewrite lookup_nil. destruct (idx <? Z.of_nat i0)%Z; reflexivity.
  - apply numbered_tail in Hn as (Hl & Hi & Hs).
    cbn [find_dimensions]. unfold selects. rewrite Hi, Hs, Hsec, andb_true_r.
    destruct (Z.eqb_spec (Z.of_nat i0) idx) as [<-|Hne].
    + rewrite (proj2 (Z.ltb_ge _ _)) by lia. rewrite Nat2Z.id, Nat.sub_diag.
      change ((img :: l) !! 0) with (Some img). cbn [mbind option_bind].
      rewrite (find_dimensions_none l) by (eapply numbered_later; [exact Hl | lia]).
      unfold dims_of, truthy.
      destruct (width_emu img) as [a|], (height_emu img) as [b|]; simpl;
        try reflexivity;
        destruct (a =? 0)%Z; simpl; try reflexivity;
        destruct (b =? 0)%Z; reflexivity.
    + cbn [andb]. rewrite (IH (S i0) Hl).
      destruct (Z.ltb_spec idx (Z.of_nat i0)) as [Hlt|Hge].
      * rewrite (proj2 (Z.ltb_lt _ _)) by lia. reflexivity.
      * rewrite (proj2 (Z.ltb_ge _ _)) by lia.
        replace (Z.to_nat idx - i0) with (S (Z.to_nat idx - S i0)) by lia.
        reflexivity.
Qed.

(** Away from the body both loops only look at the images of the
    section asked for. *)
Lemma set_dimensions_filter key loc idx w h sidx d l :
  String.eqb loc "body" = false ->
  set_dimensions l key loc idx w h sidx d
  = set_dimensions (filter (fun img => Z.of_nat (section_idx img) = sidx) l)
                   key loc idx w h sidx d.
Proof.
  intros Hb. induction l as [|img l IH]; [reflexivity|].
  rewrite filter_cons. destruct (decide (Z.of_nat (section_idx img) = sidx)) as [E|E].
  - cbn [set_dimensions]. rewrite IH. reflexivity.
  - cbn [set_dimensions]. unfold selects at 1.
    rewrite Hb, (proj2 (Z.eqb_neq _ _) E), andb_false_r. exact IH.
Qed.

Lemma find_dimensions_filter loc idx sidx l :
  String.eqb loc "body" = false ->
  find_dimensions l loc idx sidx
  = find_dimensions (filter (fun img => Z.of_nat (section_idx img) = sidx) l)
                    loc idx sidx.
Proof.
  intros Hb. induction l as [|img l IH]; [reflexivity|].
  rewrite filter_cons. destruct (decide (Z.of_nat (section_idx img) = sidx)) as [E|E].
  - cbn [find_dimensions]. rewrite IH. reflexivity.
  - cbn [find_dimensions]. unfold selects at 1.
    rewrite Hb, (proj2 (Z.eqb_neq _ _) E), andb_false_r. exact IH.
Qed.

Lemma part_infos_numbered rels drawings loc s :
  forall j x, part_infos rels drawings loc s !! j = Some x ->
              index x = 0 + j /\ section_idx x = s.
Proof. intros j x H. apply part_infos_lookup in H. tauto. Qed.

(** The first drawing that embeds a relationship. *)
Lemma find_drawing_spec rid drawings :
  forall k0 k,
    di_element (find_drawing k0 drawings rid) = Some k ->
    k0 <= k
    /\ exists dr,
        drawings !! (k - k0) = Some dr
        /\ find_drawing k0 drawings rid
           = mkDrawingInfo (fst <$> drawing_extent dr) (snd <$> drawing_extent dr)
                           (drawing_is_inline dr) (Some k)
        /\ forall w h,
            find_drawing k0 (<[k - k0 := set_extent w h dr]> drawings) rid
            = mkDrawingInfo (Some w) (Some h) (drawing_is_inline dr) (Some k).
Proof.
  induction drawings as [|dr drawings IH]; intros k0 k H; simpl in H; [discriminate|].
  destruct (String.eqb (drawing_embed dr) rid) eqn:E.
  - simpl in H. injection H as <-. split; [lia|]. exists dr.
    rewrite Nat.sub_diag. simpl. rewrite E. auto.
  - destruct (IH (S k0) k H) as (Hle & dr' & Hl & Hf & Hu). split; [lia|].
    exists dr'. replace (k - k0) with (S (k - S k0)) by lia. simpl. rewrite E. auto.
Qed.

Lemma scan_images_body d :
  cache_body (_scan_images d) = part_infos (doc_rels d) (doc_drawings d) "body" 0.
Proof.
  unfold _scan_images. simpl.
  destruct (scan_sections_spec 0 (doc_sections d) 0 (mkCache [] [] [])) as (_ & _ & ->).
  simpl. unfold _scan_body_images. apply scan_part_infos.
Qed.

Lemma scan_images_section d z :
  filter (fun img => Z.of_nat (section_idx img) = z) (cache_headers (_scan_images d))
  = (if (z <? 0)%Z then []
     else match doc_sections d !! Z.to_nat z ≫= header with
          | Some p => part_infos (hf_rels p) (hf_drawings p) "headers" (Z.to_nat z)
          | None => []
          end)
  /\ filter (fun img => Z.of_nat (section_idx img) = z) (cache_footers (_scan_images d))
     = (if (z <? 0)%Z then []
        else match doc_sections d !! Z.to_nat z ≫= footer with
             | Some p => part_infos (hf_rels p) (hf_drawings p) "footers" (Z.to_nat z)
             | None => []
             end).
Proof.
  unfold _scan_images. simpl.
  destruct (scan_sections_spec z (doc_sections d) 0 (mkCache [] [] [])) as (-> & -> & _).
  simpl. rewrite Nat.sub_0_r.
  destruct (Z.ltb_spec z 0) as [Hlt|Hge].
  - rewrite (proj2 (Z.leb_gt (Z.of_nat 0) z)) by lia. auto.
  - rewrite (proj2 (Z.leb_le (Z.of_nat 0) z)) by lia. auto.
Qed.

(** Setting the dimensions through the images of one part, then
    scanning that part again. *)
Lemma set_then_scan_part rels drawings key loc s idx w h sidx d d1 :
  String.eqb loc "body" || (Z.of_nat s =? sidx)%Z = true ->
  part_drawings d key s = Some drawings ->
  set_dimensions (part_infos rels drawings key s) key loc idx w h sidx d = (d1, true) ->
  exists drawings',
    d1 = put_part_drawings d key s drawings'
    /\ (w <> 0%Z -> h <> 0%Z ->
        find_dimensions (part_infos rels drawings' key s) loc idx sidx = Some (w, h)).
Proof.
  intros Hsec Hpart Hset.
  rewrite (set_dimensions_numbered key loc idx w h sidx d s Hsec _ 0
             (part_infos_numbered rels drawings key s)) in Hset.
  destruct (idx <? Z.of_nat 0)%Z eqn:Hneg; [discriminate|].
  rewrite Nat.sub_0_r in Hset.
  destruct (part_infos rels drawings key s !! Z.to_nat idx) as [img|] eqn:Himg;
    [|discriminate].
  apply part_infos_lookup in Himg as (Hi & Hs & _ & rel & Hrel & _ & Himg).
  unfold set_at in Hset. rewrite Hs, Hpart in Hset.
  destruct (drawing_element img) as [k|] eqn:Hk; [|discriminate].
  destruct (drawings !! k) as [dr|] eqn:Hdr; [|discriminate].
  destruct (drawing_extent dr) as [e|] eqn:He; [|discriminate].
  injection Hset as <-.
  exists (<[k := set_extent w h dr]> drawings). split; [reflexivity|].
  intros Hw Hh.
  rewrite (find_dimensions_numbered loc idx sidx s Hsec _ 0
             (part_infos_numbered rels _ key s)).
  rewrite Hneg, Nat.sub_0_r. unfold part_infos. rewrite list_lookup_imap, Hrel.
  cbn [fmap option_fmap option_map mbind option_bind].
  assert (Hfd : di_element (find_drawing 0 drawings (rel_id img)) = Some k).
  { rewrite Himg in Hk. exact Hk. }
  destruct (find_drawing_spec (rel_id img) drawings 0 k Hfd) as (_ & dr' & Hl & _ & Hu).
  rewrite Nat.sub_0_r in Hl, Hu. assert (dr' = dr) by congruence. subst dr'.
  unfold dims_of, info_of, _find_drawing_by_rel_id. cbn [fst snd].
  rewrite Hu. simpl.
  rewrite (proj2 (Z.eqb_neq _ _) Hw), (proj2 (Z.eqb_neq _ _) Hh). reflexivity.
Qed.

(** X9: dimensions set are found by a new replacer, not by the one
    that set them.  When [set_image_dimensions] returns [True], the
    replacer answers every [get_image_dimensions] as before, its
    cache not being updated; a replacer made for the document
    afterwards answers the dimensions set (when both are non-zero)
    for the same image.  Body, relationships and media stay, and the
    location was one of the three known. *)
Theorem set_image_dimensions_round_trip d location idx w h sidx r' :
  set_image_dimensions (init d) location idx w h sidx = (r', true) ->
  (forall loc i s,
      get_image_dimensions r' loc i s = get_image_dimensions (init d) loc i s)
  /\ (w <> 0%Z -> h <> 0%Z ->
      get_image_dimensions (init (document r')) location idx sidx = Some (w, h))
  /\ doc_body (document r') = doc_body d
  /\ doc_rels (document r') = doc_rels d
  /\ doc_media (document r') = doc_media d
  /\ (location = "body" \/ location = "header" \/ location = "footer").
Proof.
  unfold set_image_dimensions. cbn [init document _image_cache].
  destruct (set_dimensions _ _ _ _ _ _ _ _) as [d1 ok] eqn:Hset.
  intros H. injection H as <- ->.
  split; [reflexivity|]. cbn [document].
  unfold get_image_dimensions. cbn [init _image_cache].
  destruct (cache_get_cases (_scan_images d) location)
    as [[-> Hc]|[(-> & Hk & Hc)|[(-> & Hk & Hc)|Hc]]];
    rewrite Hc in Hset; [| | |discriminate].
  - (* body *)
    change (cache_key "body") with "body" in *.
    rewrite scan_images_body in Hset.
    destruct (set_then_scan_part _ _ "body" "body" 0 idx w h sidx d d1 eq_refl eq_refl Hset)
      as (drawings' & -> & Hget).
    split; [|unfold put_part_drawings; simpl; auto 10].
    intros Hw Hh.
    change (cache_get (_scan_images (put_part_drawings d "body" 0 drawings')) "body")
      with (cache_body (_scan_images (put_part_drawings d "body" 0 drawings'))).
    rewrite scan_images_body. apply Hget; assumption.
  - (* header *)
    rewrite Hk in *.
    rewrite (set_dimensions_filter "headers" "header" idx w h sidx d _ eq_refl) in Hset.
    destruct (scan_images_section d sidx) as [Hf _]. rewrite Hf in Hset. clear Hf.
    destruct (Z.ltb_spec sidx 0) as [Hlt|Hge]; [discriminate|].
    destruct (doc_sections d !! Z.to_nat sidx) as [sec|] eqn:Hsec; [|discriminate].
    cbn [mbind option_bind] in Hset.
    destruct (header sec) as [p|] eqn:Hp; [|discriminate].
    assert (Hs : String.eqb "header" "body" || (Z.of_nat (Z.to_nat sidx) =? sidx)%Z = true).
    { simpl. apply Z.eqb_eq. lia. }
    assert (Hpd : part_drawings d "headers" (Z.to_nat sidx) = Some (hf_drawings p)).
    { unfold part_drawings. simpl. rewrite Hsec. simpl. rewrite Hp. reflexivity. }
    destruct (set_then_scan_part _ _ "headers" "header" _ idx w h sidx d d1 Hs Hpd Hset)
      as (drawings' & -> & Hget).
    assert (Hd1 : put_part_drawings d "headers" (Z.to_nat sidx) drawings'
                  = with_sections
                      (<[Z.to_nat sidx := mkSection (Some (with_part_drawings drawings' p))
                                                    (footer sec)]> (doc_sections d)) d).
    { unfold put_part_drawings. simpl. rewrite Hsec, Hp. reflexivity. }
    rewrite Hd1. split; [|simpl; auto 10].
    intros Hw Hh.
    change (cache_get ?c "headers") with (cache_headers c).
    rewrite (find_dimensions_filter "header" idx sidx _ eq_refl).
    match goal with
    | |- context [_scan_images ?x] => destruct (scan_images_section x sidx) as [-> _]
    end.
    rewrite (proj2 (Z.ltb_ge _ _)) by lia. simpl.
    rewrite list_lookup_insert_eq by (eapply lookup_lt_Some; exact Hsec). simpl.
    apply Hget; assumption.
  - (* footer *)
    rewrite Hk in *.
    rewrite (set_dimensions_filter "footers" "footer" idx w h sidx d _ eq_refl) in Hset.
    destruct (scan_images_section d sidx) as [_ Hf]. rewrite Hf in Hset. clear Hf.
    destruct (Z.ltb_spec sidx 0) as [Hlt|Hge]; [discriminate|].
    destruct (doc_sections d !! Z.to_nat sidx) as [sec|] eqn:Hsec; [|discriminate].
    cbn [mbind option_bind] in Hset.
    destruct (footer sec) as [p|] eqn:Hp; [|discriminate].
    assert (Hs : String.eqb "footer" "body" || (Z.of_nat (Z.to_nat sidx) =? sidx)%Z = true).
    { simpl. apply Z.eqb_eq. lia. }
    assert (Hpd : part_drawings d "footers" (Z.to_nat sidx) = Some (hf_drawings p)).
    { unfold part_drawings. simpl. rewrite Hsec. simpl. rewrite Hp. reflexivity. }
    destruct (set_then_scan_part _ _ "footers" "footer" _ idx w h sidx d d1 Hs Hpd Hset)
      as (drawings' & -> & Hget).
    assert (Hd1 : put_part_drawings d "footers" (Z.to_nat sidx) drawings'
                  = with_sections
                      (<[Z.to_nat sidx := mkSection (header sec)
                                                    (Some (with_part_drawings drawings' p))]>
                         (doc_sections d)) d).
    { unfold put_part_drawings. simpl. rewrite Hsec, Hp. reflexivity. }
    rewrite Hd1. split; [|simpl; auto 10].
    intros Hw Hh.
    change (cache_get ?c "footers") with (cache_footers c).
    rewrite (find_dimensions_filter "footer" idx sidx _ eq_refl).
    match goal with
    | |- context [_scan_images ?x] => destruct (scan_images_section x sidx) as [_ ->]
    end.
    rewrite (proj2 (Z.ltb_ge _ _)) by lia. simpl.
    rewrite list_lookup_insert_eq by (eapply lookup_lt_Some; exact Hsec). simpl.
    apply Hget; assumption.
Qed.

(** The body image of the example is given 10 by 20: the replacer at
    hand still tells 1 by 2, a new one 10 by 20. *)
Lemma set_image_dimensions_round_trip_witness :
  exists r',
    set_image_dimensions (init doc_images) "body" 0 10 20 0 = (r', true)
    /\ get_image_dimensions r' "body" 0 0 = get_image_dimensions (init doc_images) "body" 0 0
    /\ get_image_dimensions (init (document r')) "body" 0 0 = Some (10, 20)%Z.
Proof.
  exists (set_image_dimensions (init doc_images) "body" 0 10 20 0).1.
  assert (Hset : set_image_dimensions (init doc_images) "body" 0 10 20 0
                 = ((set_image_dimensions (init doc_images) "body" 0 10 20 0).1, true))
    by (vm_compute; reflexivity).
  destruct (set_image_dimensions_round_trip doc_images "body" 0 10 20 0 _ Hset)
    as (Hstale & Hnew & _).
  split; [exact Hset|]. split; [apply Hstale|]. apply Hnew; discriminate.
Defined.

End DimensionLemmas.

(* ================================================================== *)
(** * Where table expansion puts the rows *)
(* ================================================================== *)

Section RowOrder.
Import Docx DynamicContentProcessor Rows Examples.











End RowOrder.

(* ================================================================== *)
(** * List expansion at paragraphs with several arrays *)
(* ================================================================== *)

Section SeveralArrays.
Import Docx DynamicContentProcessor Expansion Sites Examples.
Implicit Types (body pre post : list Elem) (data : list (string * Value)).

Lemma expand_step_head m p tl :
  (expand_step m (p, tl)).1 = (expand_step m (p, [])).1.
Proof. unfold expand_step. destruct m.2; reflexivity. Qed.

Lemma expand_step_tail m p tl :
  (expand_step m (p, tl)).2 = (expand_step m (p, [])).2 ++ tl.
Proof.
  unfold expand_step. destruct m.2; [reflexivity|]. cbn [fst snd].
  rewrite app_nil_r. reflexivity.
Qed.

(** One turn of the processing loop: the paragraph of the site stays
    where it is, under its identity. *)
Lemma expand_site_head idx id key items p pre post c :
  NoDup (pre ++ (id, P p) :: post).*1 ->
  exists news,
    expand_site (mkSite idx id key items) (pre ++ (id, P p) :: post, c)
    = inr (pre ++ (id, P (expand_step (key, items) (p, [])).1) :: news ++ post,
           c + (if filled (key, items) then 1 else 0))
    /\ news.*2 = P <$> (expand_step (key, items) (p, [])).2
    /\ NoDup (pre ++ (id, P (expand_step (key, items) (p, [])).1) :: news ++ post).*1.
Proof.
  intros Hnd. assert (Hid : id ∉ pre.*1).
  { rewrite fmap_app in Hnd. apply NoDup_app in Hnd as (_ & Hdisj & _).
    intros Hin. apply (Hdisj _ Hin). left. }
  unfold expand_site. cbn [site_para site_items site_key].
  rewrite get_paragraph_at by exact Hid. cbn [block_paragraph].
  destruct items as [|first others].
  - rewrite set_paragraph_at by exact Hid.
    exists []. unfold expand_step, filled. cbn [fst snd app].
    rewrite Nat.add_0_r. split; [reflexivity|]. split; [reflexivity|].
    rewrite !fmap_app in *. exact Hnd.
  - rewrite set_paragraph_at by exact Hid. rewrite index_of_at by exact Hid.
    destruct (insert_items_spec others (para_style p) [] pre
                (id, P (para_add_run (bullet (str first)) (para_clear p))) post)
      as (news & Heq & Hnews & Hnd').
    { rewrite !fmap_app in *. exact Hnd. }
    exists news. unfold expand_step, filled. cbn [fst snd].
    split; [|split].
    + unfold mret, result_ret. do 2 f_equal; [|lia].
      replace (length pre) with (length pre + length ([] : list Elem)) at 1
        by (simpl; lia).
      exact Heq.
    + rewrite Hnews, app_nil_r, <- list_fmap_compose. reflexivity.
    + exact Hnd'.
Qed.

(** The turns of all the sites of one paragraph. *)
Lemma expand_sites_paragraph idx id ms :
  forall p pre post c,
    NoDup (pre ++ (id, P p) :: post).*1 ->
    exists news,
      expand_sites (rev ((fun m => mkSite idx id m.1 m.2) <$> ms))
                   (pre ++ (id, P p) :: post, c)
      = inr (pre ++ (id, P (foldr expand_step (p, []) ms).1) :: news ++ post,
             c + length (filter filled ms))
      /\ news.*2 = P <$> (foldr expand_step (p, []) ms).2
      /\ NoDup (pre ++ (id, P (foldr expand_step (p, []) ms).1) :: news ++ post).*1.
Proof.
  induction ms as [|[key items] ms IH]; intros p pre post c Hnd.
  - exists []. cbn. rewrite Nat.add_0_r. auto.
  - rewrite fmap_cons. cbn [rev fst snd]. rewrite expand_sites_app.
    destruct (IH p pre post c Hnd) as (news1 & Heq1 & Hnews1 & Hnd1).
    rewrite Heq1. cbn [mbind result_bind expand_sites].
    set (st := foldr expand_step (p, []) ms) in *.
    destruct (expand_site_head idx id key items st.1 pre (news1 ++ post)
                (c + length (filter filled ms)) Hnd1)
      as (news2 & Heq2 & Hnews2 & Hnd2).
    rewrite Heq2. cbn [mbind result_bind mret result_ret].
    exists (news2 ++ news1). cbn [foldr]. fold st.
    destruct st as [p1 tl1] eqn:Hst. cbn [fst snd] in *.
    rewrite (expand_step_head (key, items) p1 tl1), (expand_step_tail (key, items) p1 tl1),
      <- !app_assoc.
    split; [|split].
    + do 2 f_equal. rewrite filter_cons. unfold filled at 3. cbn [snd].
      destruct items; simpl; lia.
    + rewrite !fmap_app, Hnews2, Hnews1. reflexivity.
    + exact Hnd2.
Qed.

Lemma expand_sites_general data post :
  forall pre idx c,
    NoDup (pre ++ post).*1 ->
    exists post',
      expand_sites (rev (find_sites idx post data)) (pre ++ post, c)
      = inr (pre ++ post', c + filled_sites data (paragraphs post))
      /\ post'.*2 = post.*2 ≫= expand_block_all data
      /\ NoDup (pre ++ post').*1.
Proof.
  induction post as [|[id [p|t]] post IH]; intros pre idx c Hnd.
  - exists []. unfold filled_sites. cbn. rewrite Nat.add_0_r. auto.
  - cbn [find_sites]. rewrite rev_app_distr, expand_sites_app.
    assert (Hassoc : forall l : list Elem, pre ++ (id, P p) :: l = (pre ++ [(id, P p)]) ++ l).
    { intros l. rewrite <- app_assoc. reflexivity. }
    destruct (IH (pre ++ [(id, P p)]) (S idx) c) as (post' & Heq & Hpost & Hnd').
    { rewrite <- Hassoc. exact Hnd. }
    rewrite Hassoc, Heq. cbn [mbind result_bind]. rewrite <- Hassoc in *.
    rewrite sites_of_paragraph_matching.
    destruct (expand_sites_paragraph idx id (matching data (para_text p)) p pre post'
                (c + filled_sites data (paragraphs post)) Hnd')
      as (news & Hex & Hnews & Hnd'').
    rewrite Hex.
    exists ((id, P (foldr expand_step (p, []) (matching data (para_text p))).1)
              :: news ++ post').
    split; [|split; [|exact Hnd'']].
    + do 2 f_equal. unfold filled_sites, paragraphs. cbn. lia.
    + rewrite !fmap_cons, bind_cons. cbn [snd expand_block_all]. unfold expand_all.
      rewrite fmap_cons, fmap_app, Hnews, Hpost. reflexivity.
  - cbn [find_sites].
    assert (Hassoc : forall l : list Elem, pre ++ (id, Tbl t) :: l = (pre ++ [(id, Tbl t)]) ++ l).
    { intros l. rewrite <- app_assoc. reflexivity. }
    destruct (IH (pre ++ [(id, Tbl t)]) idx c) as (post' & Heq & Hpost & Hnd').
    { rewrite <- Hassoc. exact Hnd. }
    exists ((id, Tbl t) :: post'). rewrite Hassoc, Heq, <- Hassoc.
    split; [reflexivity|]. split; [|rewrite Hassoc; exact Hnd'].
    rewrite !fmap_cons, bind_cons, Hpost. reflexivity.
Qed.




Lemma expand_all_single data p :
  length (matching data (para_text p)) <= 1 ->
  expand_block_all data (P p) = expand_block data (P p).
Proof.
  intros Hone. cbn [expand_block_all expand_block].
  destruct (matching data (para_text p)) as [|[key items] [|m ms]];
    [reflexivity| |simpl in Hone; lia].
  unfold expand_all, expand_paragraph. cbn [foldr]. unfold expand_step. cbn [fst snd].
  destruct items; [reflexivity|]. rewrite app_nil_r. reflexivity.
Qed.



End SeveralArrays.

(* ================================================================== *)
(** * List expansion: the site of one array *)
(* ================================================================== *)

Section ListCardinality.
Import Docx DynamicContentProcessor Expansion Sites Examples.
Implicit Types (body pre post : list Elem) (data : list (string * Value)).

Lemma expand_block_all_plain data (b : Block) :
  match b with P p => matching data (para_text p) = [] | Tbl _ => True end ->
  expand_block_all data b = [b].
Proof. destruct b as [p|t]; simpl; [intros ->|]; reflexivity. Qed.

(** C3, amended: list expansion at the site of a paragraph that holds
    the token of exactly one array of the mapping.  On a body whose
    elements are distinct elements, and with arrays whose elements
    read as texts a paragraph can be given, [expand_dynamic_lists]
    returns.
    For every paragraph of the body that holds the token of exactly
    one array, that array having the strings e1..eN, the body is
    afterwards what expansion makes of the blocks before the
    paragraph, then the site, then what expansion makes of the blocks
    after it; the site holds N paragraphs whose texts are the bullet
    marker followed by e1..eN in order when N >= 1, and the one
    paragraph with its token stripped when N = 0.  Tables and
    paragraphs without the token of an array stay as they are, in
    their order. *)
Theorem expand_dynamic_lists_cardinality d data :
  NoDup (doc_body d).*1 -> xml_items data ->
  exists d' n,
    expand_dynamic_lists d data = inr (d', n)
    /\ (forall pre id p post key strings,
          doc_body d = pre ++ (id, P p) :: post ->
          matching data (para_text p) = [(key, IStr <$> strings)] ->
          exists site,
            (doc_body d').*2
            = (pre.*2 ≫= expand_block_all data) ++ (P <$> site)
              ++ (post.*2 ≫= expand_block_all data)
            /\ length site = Nat.max 1 (length strings)
            /\ para_text <$> site
               = match strings with
                 | [] => [PyStr.replace (token key) "" (para_text p)]
                 | _ => bullet <$> strings
                 end)
    /\ (forall b, match b with P p => matching data (para_text p) = [] | Tbl _ => True end ->
                  expand_block_all data b = [b])
    /\ (forall blocks : list Block,
          Forall (fun b => match b with
                           | P p => matching data (para_text p) = []
                           | Tbl _ => True
                           end) blocks ->
          blocks ≫= expand_block_all data = blocks).
Proof.
  intros Hnd _. unfold expand_dynamic_lists.
  destruct (expand_sites_general data (doc_body d) [] 0 0 Hnd)
    as (body' & Heq & Hb & _).
  cbn [app] in Heq. rewrite Heq. cbn [mbind result_bind mret result_ret].
  eexists (with_body body' d), _. split; [reflexivity|]. cbn [with_body doc_body].
  split; [|split].
  - intros pre id p post key strings Hbody Hm.
    exists (expand_paragraph key (IStr <$> strings) p). split; [|split].
    + rewrite Hb, Hbody, fmap_app, fmap_cons, bind_app, bind_cons. cbn [snd].
      rewrite expand_all_single by (rewrite Hm; simpl; lia).
      cbn [expand_block]. rewrite Hm. reflexivity.
    + destruct strings; simpl; [reflexivity|]. rewrite !length_fmap. reflexivity.
    + apply expand_paragraph_texts.
  - apply expand_block_all_plain.
  - intros blocks H. induction H as [|b blocks Hb' _ IH]; [reflexivity|].
    rewrite bind_cons, IH, (expand_block_all_plain _ _ Hb'). reflexivity.
Qed.

(** Scenario 2, between two paragraphs that stay around the site. *)
Lemma expand_dynamic_lists_cardinality_witness :
  exists d' n site,
    expand_dynamic_lists doc_items data_items = inr (d', n)
    /\ (doc_body d').*2 = [P (para "Intro")] ++ (P <$> site) ++ [P (para "End")]
    /\ length site = 3
    /\ para_text <$> site = ["• A"; "• B"; "• C"].
Proof.
  destruct (expand_dynamic_lists_cardinality doc_items data_items)
    as (d' & n & H1 & H3 & _).
  - apply (bool_decide_unpack _). vm_compute. reflexivity.
  - intros key items Hin. apply list_elem_of_singleton in Hin.
    injection Hin as -> ->. repeat constructor.
  - destruct (H3 [(0, P (para "Intro"))] 1 (para "{{items}}") [(2, P (para "End"))]
                 "items" ["A"; "B"; "C"]) as (site & E1 & E2 & E3);
      [reflexivity | vm_compute; reflexivity |].
    exists d', n, site. repeat split; assumption.
Defined.

(** A paragraph with the tokens of two arrays of two strings each:
    three paragraphs, and [3] of the second array is in none. *)
Lemma expand_dynamic_lists_counterexample :
  exists d',
    expand_dynamic_lists doc_two_arrays data_two_arrays = inr (d', 2)
    /\ para_text <$> paragraphs (doc_body d') = ["• 1"; "• 2"; "• 4"].
Proof. eexists. split; vm_compute; reflexivity. Qed.
End ListCardinality.

(* ================================================================== *)
(** * The choice of the template row *)
(* ================================================================== *)

Section TemplateChoice.
Import Docx DynamicContentProcessor Template.
Implicit Types (data : list (string * Value)) (row : Row).

Lemma match_row_cons row kv data found :
  match_row row (kv :: data) found
  = match_row row data
      (if references row kv
       then match kv.2 with VList items => Some (items, kv.1) | VStr _ => found end
       else found).
Proof.
  destruct kv as [key [s|[|[s|fields] others]]]; unfold references; cbn [match_row fst snd];
    try reflexivity.
  destruct (existsb (cell_references key fields) (row_cells row)); reflexivity.
Qed.

Lemma references_list row key v :
  references row (key, v) = true -> exists items, v = VList items.
Proof.
  destruct v as [s|items]; unfold references; cbn [snd]; [discriminate|]. eauto.
Qed.

Lemma match_row_choice row data :
  forall found,
    (Forall (fun kv => references row kv = false) data
     /\ match_row row data found = found)
    \/ exists pre key items post,
         data = pre ++ (key, VList items) :: post
         /\ references row (key, VList items) = true
         /\ Forall (fun kv => references row kv = false) post
         /\ match_row row data found = Some (items, key).
Proof.
  induction data as [|kv data IH]; intros found.
  - left. split; [constructor|reflexivity].
  - rewrite match_row_cons.
    destruct (IH (if references row kv
                  then match kv.2 with VList items => Some (items, kv.1) | VStr _ => found end
                  else found))
      as [[Hall Heq]|(pre & key & items & post & Hdata & Href & Hpost & Heq)].
    + rewrite Heq. destruct (references row kv) eqn:Hkv.
      * right. destruct kv as [key v].
        destruct (references_list row key v Hkv) as [items ->].
        exists [], key, items, data. repeat split; assumption || reflexivity.
      * left. split; [constructor; assumption|reflexivity].
    + right. exists (kv :: pre), key, items, post. subst data.
      repeat split; assumption || reflexivity.
Qed.

Lemma find_template_choice_from rows data :
  forall k,
    match find_template k rows data with
    | Some (idx, items, key) =>
        exists row pre post,
          k <= idx
          /\ rows !! (idx - k) = Some row
          /\ data = pre ++ (key, VList items) :: post
          /\ references row (key, VList items) = true
          /\ Forall (fun kv => references row kv = false) post
          /\ forall j r, j < idx - k -> rows !! j = Some r ->
                         Forall (fun kv => references r kv = false) data
    | None =>
        forall r, r ∈ rows -> Forall (fun kv => references r kv = false) data
    end.
Proof.
  induction rows as [|row rows IH]; intros k; cbn [find_template].
  - intros r Hr. inversion Hr.
  - destruct (match_row_choice row data None)
      as [[Hall Heq]|(pre & key & items & post & Hdata & Href & Hpost & Heq)];
      rewrite Heq.
    + specialize (IH (S k)). destruct (find_template (S k) rows data) as [[[idx items] key]|].
      * destruct IH as (r & pre & post & Hk & Hrow & Hdata & Href & Hpost & Hbefore).
        exists r, pre, post. split; [lia|].
        replace (idx - k) with (S (idx - S k)) by lia.
        split; [exact Hrow|]. split; [exact Hdata|]. split; [exact Href|].
        split; [exact Hpost|]. intros [|j] r' Hj Hr'.
        -- injection Hr' as <-. exact Hall.
        -- apply (Hbefore j r'); [lia|exact Hr'].
      * intros r Hr. apply elem_of_cons in Hr as [->|Hr]; [exact Hall|]. apply IH, Hr.
    + exists row, pre, post. rewrite Nat.sub_diag. split; [lia|].
      split; [reflexivity|]. split; [exact Hdata|]. split; [exact Href|].
      split; [exact Hpost|]. intros j r Hj. lia.
Qed.

(** X11: the choice of the template row in [expand_dynamic_tables].
    The template row is the first row of which a cell references an
    array of the payload whose first element is an object; when that
    row references several such arrays, the last of them in the
    payload is the one expanded, as the [break] leaves the loop over
    the cells only.  No template is found exactly when no row
    references such an array. *)
Theorem find_template_choice rows data :
  match find_template 0 rows data with
  | Some (idx, items, key) =>
      exists row pre post first others,
        rows !! idx = Some row
        /\ data = pre ++ (key, VList items) :: post
        /\ items = IDict first :: others
        /\ existsb (cell_references key first) (row_cells row) = true
        /\ Forall (fun kv => references row kv = false) post
        /\ forall j r, j < idx -> rows !! j = Some r ->
                       Forall (fun kv => references r kv = false) data
  | None =>
      forall r, r ∈ rows -> Forall (fun kv => references r kv = false) data
  end.
Proof.
  pose proof (find_template_choice_from rows data 0) as H.
  destruct (find_template 0 rows data) as [[[idx items] key]|]; [|exact H].
  destruct H as (row & pre & post & _ & Hrow & Hdata & Href & Hpost & Hbefore).
  rewrite Nat.sub_0_r in *.
  unfold references in Href. cbn [fst snd] in Href.
  destruct items as [|[s|first] others]; try discriminate.
  exists row, pre, post, first, others. auto 10.
Qed.

End TemplateChoice.

(* ================================================================== *)
(** * Table expansion: the rows of one array *)
(* ================================================================== *)

Section TableCardinality.
Import Docx DynamicContentProcessor Rows Template Subst Examples.
Implicit Types (data : list (string * Value)) (t table : Table) (row : Row).

(** ** Texts without braces and the tokens of fields *)

Lemma field_token_token key field : field_token key field = token (key +:+ "." +:+ field).
Proof. unfold field_token, token. rewrite !str_app_assoc. reflexivity. Qed.

Lemma word_char_plain c :
  Pattern.is_word_char c = true ->
  negb (Ascii.eqb c "{"%char) && negb (Ascii.eqb c "}"%char) = true.
Proof.
  intros H. destruct (Ascii.eqb_spec c "{"%char) as [->|_]; [discriminate|].
  destruct (Ascii.eqb_spec c "}"%char) as [->|_]; [discriminate|]. reflexivity.
Qed.

Lemma all_word_plain s : all_word s = true -> plain s = true.
Proof.
  induction s as [|c s IH]; simpl; [reflexivity|].
  intros H. apply andb_true_iff in H as [Hc Hs]. rewrite (word_char_plain c Hc), IH by exact Hs.
  reflexivity.
Qed.

Lemma name_plain s : is_name s = true -> plain s = true.
Proof. unfold is_name. intros H. apply andb_true_iff in H as [_ H]. apply all_word_plain, H. Qed.

Lemma all_word_app a b : all_word (a +:+ b) = all_word a && all_word b.
Proof. induction a as [|c a IH]; simpl; [reflexivity|]. rewrite IH, andb_assoc. reflexivity. Qed.

Lemma name_no_dot s a b : is_name s = true -> s <> a +:+ "." +:+ b.
Proof.
  unfold is_name. intros H ->. apply andb_true_iff in H as [_ H].
  rewrite all_word_app in H. apply andb_true_iff in H as [_ H]. discriminate.
Qed.

(** Two texts without braces that agree up to a closing brace are
    the same text. *)
Lemma plain_until_brace x y r1 r2 :
  plain x = true -> plain y = true ->
  x +:+ String "}" r1 = y +:+ String "}" r2 -> x = y.
Proof.
  revert y. induction x as [|c x IH]; intros [|c' y] Hx Hy H; simpl in *.
  - reflexivity.
  - injection H as <- _. rewrite andb_false_r in Hy. discriminate.
  - injection H as -> _. rewrite andb_false_r in Hx. discriminate.
  - injection H as <- H. f_equal.
    apply andb_true_iff in Hx as [_ Hx]. apply andb_true_iff in Hy as [_ Hy].
    apply (IH y Hx Hy H).
Qed.

Lemma starts_other_char pat c s :
  c <> "{"%char -> PyStr.startswith (String "{" pat) (String c s) = false.
Proof.
  intros Hc.
  change (PyStr.startswith (String "{" pat) (String c s))
    with (if Ascii.eqb "{"%char c then PyStr.startswith pat s else false).
  destruct (Ascii.eqb_spec "{"%char c); [congruence|reflexivity].
Qed.

(** No character of a text without braces followed by the closing
    braces is an opening brace. *)
Lemma closing_no_open y x1 c x2 :
  plain y = true -> y +:+ "}}" = x1 +:+ String c x2 -> c <> "{"%char.
Proof.
  revert x1. induction y as [|c0 y IH]; intros x1 Hy H; simpl in *.
  - destruct x1 as [|a [|a' x1]]; simpl in H.
    + injection H as <- _. discriminate.
    + injection H as _ <- _. discriminate.
    + injection H as _ _ H. destruct x1; discriminate.
  - apply andb_true_iff in Hy as [Hc0 Hy]. destruct x1 as [|a x1]; simpl in H.
    + injection H as <- _. intros ->. discriminate.
    + injection H as _ H. apply (IH x1 Hy H).
Qed.

(** Replacing the token of one text without braces copies the token
    of another. *)
Lemma replace_token_past_plain x y w b :
  plain x = true -> plain y = true -> x <> y ->
  PyStr.replace (token x) w (token y +:+ b) = token y +:+ PyStr.replace (token x) w b.
Proof.
  intros Hx Hy Hne. apply replace_past; [apply token_nonempty|].
  intros x1 c x2 Hs.
  change (token y) with (String "{" (String "{" (y +:+ "}}"))) in Hs.
  destruct x1 as [|a [|a' x1]]; simpl in Hs.
  - injection Hs as <- <-.
    destruct (PyStr.startswith (token x) (String "{" (String "{" (y +:+ "}}")) +:+ b)) eqn:E;
      [|reflexivity].
    exfalso. apply startswith_spec in E as [r Hr].
    change (token x) with (String "{" (String "{" (x +:+ "}}"))) in Hr.
    simpl in Hr. injection Hr as Hr. rewrite !str_app_assoc in Hr. simpl in Hr.
    apply Hne. exact (plain_until_brace _ _ _ _ Hx Hy (eq_sym Hr)).
  - injection Hs as _ <- <-.
    change (PyStr.startswith (token x) (String "{" (y +:+ "}}") +:+ b))
      with (PyStr.startswith (String "{" (x +:+ "}}")) ((y +:+ "}}") +:+ b)).
    destruct y as [|c0 y].
    + apply starts_other_char. discriminate.
    + simpl in Hy. apply andb_true_iff in Hy as [Hc0 _].
      apply starts_other_char. intros ->. discriminate.
  - injection Hs as _ _ Hs.
    change (token x) with (String "{" (String "{" (x +:+ "}}"))).
    apply starts_other_char. exact (closing_no_open _ _ _ _ Hy Hs).
Qed.

Lemma fill_text_plain key fields (text : string) :
  plain text = true -> fill_text key fields text = text.
Proof.
  intros Ht. induction fields as [|[g w] fs IH]; simpl; [reflexivity|].
  rewrite (replace_absent (field_token key g))
    by (rewrite field_token_token; apply plain_no_token, Ht).
  rewrite replace_absent by apply plain_no_token, Ht. exact IH.
Qed.

(** A text with the token of one field, and no brace besides, filled
    from an object: the value of the field is in the place of the
    token. *)
Lemma fill_text_field key fields f v a b :
  is_name key = true -> names fields -> NoDup fields.*1 ->
  Forall (fun w => plain w = true) fields.*2 ->
  (f, v) ∈ fields -> plain a = true -> plain b = true ->
  fill_text key fields (a +:+ field_token key f +:+ b) = a +:+ v +:+ b.
Proof.
  intros Hkey Hn Hd Hv Hin Ha Hb.
  induction fields as [|[g w] fields IH]; [inversion Hin|].
  apply Forall_cons in Hn as [Hg Hn]. apply NoDup_cons in Hd as [Hfresh Hd].
  apply Forall_cons in Hv as [Hw Hv]. cbn [fst snd] in Hg, Hw. cbn [fill_text].
  assert (Hf : is_name f = true).
  { apply elem_of_cons in Hin as [Heq|Hin']; [injection Heq as -> _; exact Hg|].
    rewrite Forall_forall in Hn. apply Hn, list_elem_of_fmap. exists (f, v). auto. }
  assert (Hpf : plain (key +:+ "." +:+ f) = true).
  { rewrite !plain_app, (name_plain _ Hkey), (name_plain _ Hf). reflexivity. }
  rewrite !field_token_token.
  apply elem_of_cons in Hin as [Heq|Hin].
  - injection Heq as <- <-.
    rewrite replace_past_plain by exact Ha.
    rewrite replace_here by apply token_nonempty.
    rewrite (replace_absent _ _ b) by (apply plain_no_token, Hb).
    assert (Hres : plain (a +:+ v +:+ b) = true).
    { rewrite !plain_app, Ha, Hb, Hw. reflexivity. }
    rewrite (replace_absent (token f)) by (apply plain_no_token, Hres).
    apply fill_text_plain, Hres.
  - assert (Hne : g <> f).
    { intros ->. apply Hfresh, list_elem_of_fmap. exists (f, v). auto. }
    assert (Hsame : forall x, plain x = true -> x <> key +:+ "." +:+ f ->
              PyStr.replace (token x) w (a +:+ token (key +:+ "." +:+ f) +:+ b)
              = a +:+ token (key +:+ "." +:+ f) +:+ b).
    { intros x Hx Hxf. rewrite replace_past_plain by exact Ha.
      rewrite replace_token_past_plain by assumption.
      rewrite (replace_absent _ _ b) by (apply plain_no_token, Hb). reflexivity. }
    rewrite Hsame, Hsame.
    + rewrite <- field_token_token. apply IH; assumption.
    + apply name_plain, Hg.
    + apply name_no_dot, Hg.
    + rewrite !plain_app, (name_plain _ Hkey), (name_plain _ Hg). reflexivity.
    + intros H. apply str_app_inv_head in H. simpl in H. injection H as H. auto.
Qed.

Lemma fill_cell_text (text : string) c p :
  cell_paragraphs c = [p] -> cell_text (fill_cell text c) = text.
Proof.
  intros H. unfold fill_cell, cell_text. rewrite H. simpl.
  unfold para_text, PyStr.concat. simpl. apply str_app_nil_r.
Qed.

(** ** An empty array is no source of rows *)

Lemma match_row_skip_empty row pre key post :
  forall found,
    match_row row (pre ++ (key, VList []) :: post) found = match_row row (pre ++ post) found.
Proof.
  induction pre as [|[k v] pre IH]; intros found; [reflexivity|].
  cbn [app match_row].
  destruct v as [s|[|[s|fields] others]]; try apply IH.
  destruct (existsb _ _); apply IH.
Qed.

Lemma find_template_skip_empty rows pre key post :
  forall k,
    find_template k rows (pre ++ (key, VList []) :: post) = find_template k rows (pre ++ post).
Proof.
  induction rows as [|row rows IH]; intros k; [reflexivity|].
  cbn [find_template]. rewrite match_row_skip_empty, IH. reflexivity.
Qed.

Lemma match_row_unreferenced row data found :
  Forall (fun kv => references row kv = false) data -> match_row row data found = found.
Proof.
  intros H. revert found. induction H as [|kv data Hkv _ IH]; intros found; [reflexivity|].
  destruct kv as [key [s|[|[s|fields] others]]]; cbn [match_row]; try apply IH.
  unfold references in Hkv. cbn [fst snd] in Hkv. rewrite Hkv. apply IH.
Qed.

Lemma find_template_unreferenced rows data :
  (forall r kv, r ∈ rows -> kv ∈ data -> references r kv = false) ->
  forall k, find_template k rows data = None.
Proof.
  induction rows as [|row rows IH]; intros H k; [reflexivity|].
  cbn [find_template]. rewrite match_row_unreferenced.
  - apply IH. intros r kv Hr. apply H. right. exact Hr.
  - apply Forall_forall. intros kv Hkv. apply H; [left|exact Hkv].
Qed.

(** C2, amended: table row expansion.  When a table has a template
    row for an array of M >= 1 objects whose values are texts a cell
    can be given, expansion succeeds, the table
    has its rows minus one plus M afterwards, a cell count all its
    rows had is the cell count of all rows afterwards, and for M = 1
    the table is the one it was with the template row filled in
    place from the object.  In a filled row a cell of one paragraph
    has the text made of its template text; in that text the value
    of a field is in the place of the token of the field, and a text
    without braces is as it was.  An empty array is no source of
    rows: a template found has an element, the expansion of a table
    is the same with and without an empty array in the mapping, and a
    table none of whose rows names an array that starts with an
    object stays as it is, the content of its rows included; so do
    all tables when every array of the mapping is empty. *)
Theorem expand_table_rows_cardinality data table :
  (forall idx items key,
      find_template 0 (table_rows table) data = Some (idx, items, key) ->
      Forall is_dict items -> Forall xml_item items ->
      exists table' template,
        table_rows table !! idx = Some template
        /\ 1 <= length items
        /\ (key, VList items) ∈ data
        /\ _expand_table_rows table idx items key = inr table'
        /\ expand_table data table = inr (table', 1)
        /\ length (table_rows table') = length (table_rows table) - 1 + length items
        /\ (forall c, columns c table -> columns c table')
        /\ (forall fields,
              items = [IDict fields] ->
              table_rows table' = <[idx := filled_row key fields template]> (table_rows table)))
  /\ (forall key fields template,
        cell_text <$> row_cells (filled_row key fields template)
        = (fun c => cell_text (fill_cell (fill_text key fields (cell_text c)) c))
            <$> row_cells template)
  /\ (forall text c p, cell_paragraphs c = [p] -> cell_text (fill_cell text c) = text)
  /\ (forall key fields f v a b,
        is_name key = true -> names fields -> NoDup fields.*1 ->
        Forall (fun w => plain w = true) fields.*2 ->
        (f, v) ∈ fields -> plain a = true -> plain b = true ->
        fill_text key fields (a +:+ field_token key f +:+ b) = a +:+ v +:+ b)
  /\ (forall key fields text, plain text = true -> fill_text key fields text = text)
  /\ (forall idx items key,
        find_template 0 (table_rows table) data = Some (idx, items, key) -> items <> [])
  /\ (forall pre key post,
        data = pre ++ (key, VList []) :: post ->
        expand_table data table = expand_table (pre ++ post) table)
  /\ ((forall r kv, r ∈ table_rows table -> kv ∈ data -> references r kv = false) ->
      expand_table data table = inr (table, 0))
  /\ ((forall key items, (key, VList items) ∈ data -> items = []) ->
      expand_table data table = inr (table, 0)
      /\ forall d, expand_dynamic_tables d data = inr (d, 0)).
Proof.
  split; [|split; [|split; [|split; [|split; [|split; [|split; [|split]]]]]]].
  - intros idx items key Hf Hd _.
    destruct (find_template_spec _ _ _ _ _ _ Hf) as (Hidx & Hin & fields & others & ->).
    simpl in Hidx. destruct (lookup_lt_is_Some_2 (table_rows table) idx) as [template Ht];
      [lia|].
    apply Forall_cons in Hd as [_ Hd].
    assert (Hfill : _fill_row_with_data template
                      ((fun cell => (cell_text cell, cell_width cell)) <$> row_cells template)
                      (IDict fields) key
                    = inr (filled_row key fields template)).
    { unfold _fill_row_with_data. rewrite fill_cells_template. reflexivity. }
    set (table1 := put_row idx (filled_row key fields template) table).
    assert (Hrows1 : table_rows table1
                     = <[idx := filled_row key fields template]> (table_rows table))
      by apply table_rows_put_row.
    destruct (add_rows_spec others idx
                ((fun cell => (cell_text cell, cell_width cell)) <$> row_cells template)
                key table1) as (table' & Hadd & Hlen & Hcols).
    { rewrite Hrows1, length_insert. lia. }
    { exact Hd. }
    assert (Hexp : _expand_table_rows table idx (IDict fields :: others) key = inr table').
    { unfold _expand_table_rows. rewrite Ht, Hfill. exact Hadd. }
    exists table', template. split; [exact Ht|]. split; [simpl; lia|].
    split; [exact Hin|].
    split; [exact Hexp|]. split; [|split; [|split]].
    + unfold expand_table. rewrite Hf, Hexp. reflexivity.
    + rewrite Hlen, Hrows1, length_insert. simpl. lia.
    + intros c Hc. apply Hcols. unfold columns in *. rewrite Hrows1.
      apply Forall_insert; [exact Hc|]. unfold filled_row. simpl.
      rewrite length_fmap. apply (Forall_lookup_1 _ _ _ _ Hc Ht).
    + intros fields' Heq. injection Heq as Hf' Ho. subst fields' others.
      simpl in Hadd. injection Hadd as <-. exact Hrows1.
  - intros key fields template. unfold filled_row. simpl.
    rewrite <- list_fmap_compose. reflexivity.
  - intros text c p. apply fill_cell_text.
  - intros key fields f v a b. apply fill_text_field.
  - intros key fields text. apply fill_text_plain.
  - intros idx items key Hf.
    destruct (find_template_spec _ _ _ _ _ _ Hf) as (_ & _ & fields & others & ->).
    discriminate.
  - intros pre key post ->. unfold expand_table.
    rewrite find_template_skip_empty. reflexivity.
  - intros H. unfold expand_table. rewrite find_template_unreferenced by exact H.
    reflexivity.
  - intros H. split.
    + unfold expand_table. rewrite find_template_empty by exact H. reflexivity.
    + intros d. unfold expand_dynamic_tables. rewrite expand_tables_empty by exact H.
      simpl. rewrite put_tables_same. destruct d. reflexivity.
Qed.

(** Two objects for a header row and a template row: three rows of
    two cells.  One object: the template row reads Ana, 5 under the
    header row. *)
Lemma expand_table_rows_cardinality_witness :
  (exists table' template,
     table_rows table_grades !! 1 = Some template
     /\ expand_table data_grades table_grades = inr (table', 1)
     /\ length (table_rows table') = 3
     /\ columns 2 table')
  /\ (exists table',
        expand_table data_one_grade table_grades = inr (table', 1)
        /\ (fun r => cell_text <$> row_cells r) <$> table_rows table'
           = [["Name"; "Grade"]; ["Ana"; "5"]])
  /\ fill_text "rows" [("name", "Ana"); ("grade", "5")] "{{rows.grade}}" = "5".
Proof.
  split; [|split].
  - destruct (proj1 (expand_table_rows_cardinality data_grades table_grades) 1
                    [IDict [("name", "Ana"); ("grade", "5")];
                     IDict [("name", "Luis"); ("grade", "4")]] "rows")
      as (table' & template & H1 & _ & _ & _ & H4 & H5 & H6 & _).
    + vm_compute. reflexivity.
    + repeat constructor.
    + repeat constructor.
    + exists table', template. repeat split; try assumption.
      apply H6. repeat constructor.
  - destruct (proj1 (expand_table_rows_cardinality data_one_grade table_grades) 1
                    [IDict [("name", "Ana"); ("grade", "5")]] "rows")
      as (table' & template & H1 & _ & _ & _ & H4 & _ & _ & H7).
    + vm_compute. reflexivity.
    + repeat constructor.
    + repeat constructor.
    + exists table'. split; [exact H4|].
      rewrite (H7 _ eq_refl). vm_compute in H1. injection H1 as <-.
      vm_compute. reflexivity.
  - apply (proj1 (proj2 (proj2 (proj2 (expand_table_rows_cardinality [] table_grades))))
             "rows" [("name", "Ana"); ("grade", "5")] "grade" "5" "" "");
      try reflexivity.
    + repeat constructor.
    + apply (bool_decide_unpack _). vm_compute. reflexivity.
    + repeat constructor.
    + right. left.
Defined.

(** An empty array: the document is unchanged and the template row
    still holds its field placeholders. *)
Lemma expand_table_rows_counterexample :
  expand_dynamic_tables doc_grades data_no_grades = inr (doc_grades, 0)
  /\ (cell_text <$> row_cells template_row) = ["{{rows.name}}"; "{{rows.grade}}"]
  /\ table_rows table_grades !! 1 = Some template_row.
Proof. repeat split; vm_compute; reflexivity. Qed.
End TableCardinality.

(* ================================================================== *)
(** * The images of a folder *)
(* ================================================================== *)

Section FolderLemmas.
Import ImageReplacer Folder.

Lemma last_dot_tail name suf :
  last_dot name = Some suf -> exists pre, name = pre +:+ suf.
Proof.
  revert suf. induction name as [|c rest IH]; intros suf; cbn [last_dot]; [discriminate|].
  destruct (last_dot rest) as [suf'|].
  - intros [= <-]. destruct (IH suf' eq_refl) as [pre ->].
    exists (String c pre). reflexivity.
  - destruct (Ascii.eqb c "."); [|discriminate]. intros [= <-]. exists "". reflexivity.
Qed.

Lemma suffix_tail path : exists pre, path_name path = pre +:+ suffix path.
Proof.
  unfold suffix. destruct (path_name path) as [|c rest].
  - exists "". reflexivity.
  - destruct (last_dot rest) as [suf|] eqn:Hdot.
    + destruct (last_dot_tail rest suf Hdot) as [pre ->].
      destruct suf as [|c1 [|c2 suf]].
      * exists (String c pre). rewrite !str_app_nil_r. reflexivity.
      * exists (String c (pre +:+ String c1 "")). rewrite !str_app_nil_r. reflexivity.
      * exists (String c pre). reflexivity.
    + exists (String c rest). rewrite str_app_nil_r. reflexivity.
Qed.

Lemma substring_head pre suf :
  String.substring 0 (String.length pre) (pre +:+ suf) = pre.
Proof.
  induction pre as [|c pre IH]; simpl.
  - destruct suf; reflexivity.
  - rewrite IH. reflexivity.
Qed.

(** A name is its stem followed by its suffix. *)
Lemma stem_suffix path : stem path +:+ suffix path = path_name path.
Proof.
  unfold stem. destruct (suffix_tail path) as [pre Hpre].
  rewrite Hpre at 1 2. rewrite str_app_length.
  replace (String.length pre + String.length (suffix path) - String.length (suffix path))
    with (String.length pre) by lia.
  rewrite substring_head. symmetry. exact Hpre.
Qed.

Lemma known_extension ext :
  ext ∈ image_extensions -> exists ct, assoc ext content_types = Some ct.
Proof.
  unfold image_extensions. rewrite !elem_of_cons, elem_of_nil.
  intros [->|[->|[->|[->|[->|[->|[]]]]]]]; eexists; reflexivity.
Qed.

Lemma last_filter_snoc {A} (P : A -> Prop) `{!forall x, Decision (P x)} l x :
  last (filter P (l ++ [x])) = if decide (P x) then Some x else last (filter P l).
Proof.
  rewrite filter_app, last_app. cbn [filter list_filter].
  destruct (decide (P x)); reflexivity.
Qed.

Lemma assoc_dict_put key k v d :
  assoc key (dict_put k v d) = if String.eqb key k then Some v else assoc key d.
Proof.
  induction d as [|[k' w] d IH]; cbn [dict_put assoc].
  - reflexivity.
  - destruct (String.eqb_spec k' k) as [->|Hk]; cbn [assoc].
    + destruct (String.eqb key k); reflexivity.
    + rewrite IH. destruct (String.eqb_spec key k') as [->|Hkey]; [|reflexivity].
      destruct (String.eqb_spec k' k); [contradiction|reflexivity].
Qed.

Lemma dict_put_keys k v d :
  (dict_put k v d).*1 = if bool_decide (k ∈ d.*1) then d.*1 else d.*1 ++ [k].
Proof.
  induction d as [|[k' w] d IH]; cbn [dict_put]; [reflexivity|].
  destruct (String.eqb_spec k' k) as [->|Hk].
  - rewrite bool_decide_eq_true_2 by (rewrite fmap_cons; left). reflexivity.
  - rewrite !fmap_cons, IH. cbn [fst].
    destruct (bool_decide (k ∈ d.*1)) eqn:Hin.
    + apply bool_decide_eq_true_1 in Hin.
      rewrite bool_decide_eq_true_2 by (right; exact Hin). reflexivity.
    + apply bool_decide_eq_false_1 in Hin.
      rewrite bool_decide_eq_false_2; [reflexivity|].
      intros Hin'. apply elem_of_cons in Hin' as [->|Hin']; contradiction.
Qed.

(** No key comes twice in a dict. *)
Lemma dict_put_nodup k v d : NoDup d.*1 -> NoDup (dict_put k v d).*1.
Proof.
  intros Hnd. rewrite dict_put_keys. destruct (bool_decide (k ∈ d.*1)) eqn:Hin.
  - exact Hnd.
  - apply bool_decide_eq_false_1 in Hin. apply NoDup_app. split; [exact Hnd|].
    split; [|apply NoDup_singleton].
    intros x Hx Hx'. apply list_elem_of_singleton in Hx'. subst x. contradiction.
Qed.

Lemma add_images_nodup files : NoDup (foldl add_image [] files).*1.
Proof.
  induction files as [|f files IH] using rev_ind; [constructor|].
  rewrite foldl_app. cbn [foldl]. unfold add_image.
  destruct (bool_decide (PyStr.lower (suffix f) ∈ image_extensions)); [|exact IH].
  apply dict_put_nodup, IH.
Qed.

Lemma add_images_lookup files key :
  assoc key (foldl add_image [] files)
  = last (filter (fun f => PyStr.lower (suffix f) ∈ image_extensions /\ stem f = key) files).
Proof.
  induction files as [|f files IH] using rev_ind; [reflexivity|].
  rewrite foldl_app, last_filter_snoc. cbn [foldl]. unfold add_image.
  destruct (decide (PyStr.lower (suffix f) ∈ image_extensions /\ stem f = key))
    as [[Hext <-]|Hno].
  - rewrite bool_decide_eq_true_2 by exact Hext. rewrite assoc_dict_put, String.eqb_refl.
    reflexivity.
  - destruct (bool_decide (PyStr.lower (suffix f) ∈ image_extensions)) eqn:Hext;
      [|exact IH].
    apply bool_decide_eq_true_1 in Hext. rewrite assoc_dict_put.
    destruct (String.eqb_spec key (stem f)) as [->|Hne]; [|exact IH].
    exfalso. apply Hno. auto.
Qed.

(** X13: what [find_images_in_folder] finds.  A folder that is not
    there gives the empty dict, a path that is no directory raises.
    Otherwise the dict has one entry per stem of an entry of the
    folder whose lower-cased suffix is one of the six extensions, and
    the entry holds the last such path in the order of the iteration:
    of [body_0.png] and [body_0.jpg] one is dropped.  The key followed
    by the suffix is the file name, and every path found has a suffix
    [_update_content_type] knows. *)
Theorem find_images_in_folder_spec :
  find_images_in_folder Absent = inr []
  /\ find_images_in_folder NotADirectory = inl OSError
  /\ forall files,
       exists replacements,
         find_images_in_folder (Entries files) = inr replacements
         /\ NoDup replacements.*1
         /\ (forall key,
               assoc key replacements
               = last (filter (fun f => PyStr.lower (suffix f) ∈ image_extensions
                                        /\ stem f = key) files))
         /\ (forall key path,
               assoc key replacements = Some path ->
               path ∈ files
               /\ key +:+ suffix path = path_name path
               /\ PyStr.lower (suffix path) ∈ image_extensions
               /\ exists ct, assoc (PyStr.lower (suffix path)) content_types = Some ct)
         /\ (forall path,
               path ∈ files -> PyStr.lower (suffix path) ∈ image_extensions ->
               exists later, assoc (stem path) replacements = Some later
                             /\ stem later = stem path).
Proof.
  split; [reflexivity|]. split; [reflexivity|]. intros files.
  exists (foldl add_image [] files). split; [reflexivity|].
  split; [apply add_images_nodup|].
  split; [apply add_images_lookup|]. split.
  - intros key path. rewrite add_images_lookup. intros Hlast.
    assert (Hin : path ∈ filter (fun f => PyStr.lower (suffix f) ∈ image_extensions
                                          /\ stem f = key) files).
    { apply last_Some in Hlast as [l' ->]. apply elem_of_app. right. left. }
    apply list_elem_of_filter in Hin as [[Hext <-] Hin].
    split; [exact Hin|]. split; [apply stem_suffix|]. split; [exact Hext|].
    apply known_extension, Hext.
  - intros path Hin Hext. rewrite add_images_lookup.
    destruct (last (filter (fun f => PyStr.lower (suffix f) ∈ image_extensions
                                     /\ stem f = stem path) files)) as [later|] eqn:Hlast.
    + exists later. split; [reflexivity|].
      assert (Hl : later ∈ filter (fun f => PyStr.lower (suffix f) ∈ image_extensions
                                            /\ stem f = stem path) files).
      { apply last_Some in Hlast as [l' ->]. apply elem_of_app. right. left. }
      apply list_elem_of_filter in Hl as [[_ Hstem] _]. exact Hstem.
    + apply last_None in Hlast.
      assert (Hp : path ∈ filter (fun f => PyStr.lower (suffix f) ∈ image_extensions
                                           /\ stem f = stem path) files).
      { apply list_elem_of_filter. auto. }
      rewrite Hlast in Hp. inversion Hp.
Qed.

End FolderLemmas.

(* ================================================================== *)
(** * The count of table expansion *)
(* ================================================================== *)

Section TableCount.
Import Docx DynamicContentProcessor Rows Template Examples.




End TableCount.
